(** * Correlated colour temperature (colour/temperature/cct.py)

    A shallow embedding of the correlated colour temperature module.

    Numbers.  Python floats are read as real numbers ([R]): rounding,
    infinities and NaN are not modelled.  What Python turns into an exception
    is kept as one: a float division by zero raises [ZeroDivisionError],
    [math.sqrt] and a fractional power of a negative number raise
    [ValueError], [math.pow] raises [OverflowError] for a result beyond the
    largest float, an index outside a list raises [IndexError], calling
    [None] raises [TypeError].  Where numpy floats are divided by zero the
    IEEE result is an infinity or a NaN, which no real number stands for:
    the model stops there with [FloatingPointError].

    Effects.  Fallible code lives in the [result] monad; the Ohno solver,
    which also emits warnings, returns the list of warnings next to its
    result. *)

From Stdlib Require Import Reals Lra Psatz ZArith Lia List String.
From stdpp Require Import base decidable option list gmap strings.

Open Scope R_scope.

(** ** Exceptions and the error monad *)

Inductive exn : Type :=
| ValueError (msg : string)
| TypeError (msg : string)
| AttributeError (msg : string)
| ZeroDivisionError
| IndexError
| UnboundLocalError (var : string)
| FloatingPointError
| OverflowError.

Inductive result (A : Type) : Type :=
| Ok (a : A)
| Raise (e : exn).

Arguments Ok {A} a.
Arguments Raise {A} e.

#[global] Instance result_ret : MRet result := fun _ a => Ok a.
#[global] Instance result_bind : MBind result := fun _ _ f m =>
  match m with
  | Ok a => f a
  | Raise e => Raise e
  end.

#[global] Instance result_fmap : FMap result := fun _ _ f m =>
  match m with
  | Ok a => Ok (f a)
  | Raise e => Raise e
  end.

Definition is_Ok {A} (m : result A) : Prop := exists a, m = Ok a.
Definition is_Raise {A} (m : result A) : Prop := exists e, m = Raise e.

(** ** Python numbers as reals *)

#[global] Instance R_eq_dec : EqDecision R := Req_dec_T.
#[global] Instance Rle_rel_dec : RelDecision Rle := Rle_dec.
#[global] Instance Rlt_rel_dec : RelDecision Rlt := Rlt_dec.

(** [a / b] on floats. *)
Definition py_div (a b : R) : result R :=
  if decide (b = 0) then Raise ZeroDivisionError else Ok (a / b).

(** [math.sqrt(a)]. *)
Definition math_sqrt (a : R) : result R :=
  if decide (a < 0) then Raise (ValueError "math domain error") else Ok (sqrt a).

(** [a ** (1. / 2.)] on floats (Python 2: a negative base is refused). *)
Definition py_pow_half (a : R) : result R :=
  if decide (a < 0)
  then Raise (ValueError "negative number cannot be raised to a fractional power")
  else Ok (sqrt a).

(** [a / b] and [a ** -1] on numpy floats (the samples of [np.linspace]
    and what is computed from them): zero gives an infinity or a NaN. *)
Definition np_div (a b : R) : result R :=
  if decide (b = 0) then Raise FloatingPointError else Ok (a / b).

Definition np_pow_neg1 (a : R) : result R :=
  if decide (a = 0) then Raise FloatingPointError else Ok (/ a).

(** The largest finite float. *)
Definition float_max : R := 1.7976931348623157e308.

(** [math.pow(a, n)] for a small natural exponent: a result beyond the
    largest float is an [OverflowError] ("math range error"). *)
Definition math_pow (a : R) (n : nat) : result R :=
  if decide (float_max < Rabs (a ^ n)) then Raise OverflowError else Ok (a ^ n).

(** [l[i]] with Python's negative indices. *)
Definition py_getitem {A} (l : list A) (i : Z) : result A :=
  let n := Z.of_nat (length l) in
  let pos := if decide (i < 0)%Z then (n + i)%Z else i in
  if decide (0 <= pos < n)%Z
  then match l !! Z.to_nat pos with
       | Some a => Ok a
       | None => Raise IndexError
       end
  else Raise IndexError.

(** ** Closed-form approximations *)

(** McCamy (1992), xy to CCT. *)
Definition xy_to_CCT_mccamy1992 (xy : R * R) : result R :=
  let '(x, y) := xy in
  n ← py_div (x - 0.3320) (y - 0.1858);
  n3 ← math_pow n 3;
  n2 ← math_pow n 2;
  mret (-449 * n3 + 3525 * n2 - 6823.3 * n + 5520.33).

(** Hernandez-Andres, Lee and Romero (1999), xy to CCT. *)
Definition xy_to_CCT_hernandez1999 (xy : R * R) : result R :=
  let '(x, y) := xy in
  n ← py_div (x - 0.3366) (y - 0.1735);
  let CCT := -949.86315 +
             6253.80338 * exp (- n / 0.92159) +
             28.70599 * exp (- n / 0.20039) +
             0.00004 * exp (- n / 0.07125) in
  if decide (50000 < CCT)
  then n ← py_div (x - 0.3356) (y - 0.1691);
       mret (36284.48953 +
             0.00228 * exp (- n / 0.07861) +
             5.4535e-36 * exp (- n / 0.01543))
  else mret CCT.

Definition kang2002_domain_msg : string :=
  "Correlated colour temperature must be in domain [1667, 25000]!".

(** The three cubics in [x] that give [y]. *)
Definition kang2002_y_low (x : R) : R :=
  -1.1063814 * x ^ 3 - 1.34811020 * x ^ 2 + 2.18555832 * x - 0.20219683.
Definition kang2002_y_mid (x : R) : R :=
  -0.9549476 * x ^ 3 - 1.37418593 * x ^ 2 + 2.09137015 * x - 0.16748867.
Definition kang2002_y_high (x : R) : R :=
  3.0817580 * x ^ 3 - 5.8733867 * x ^ 2 + 3.75112997 * x - 0.37001483.

(** Kang et al. (2002), CCT to xy. *)
Definition CCT_to_xy_kang2002 (CCT : R) : result (R * R) :=
  x ← (if decide (1667 <= CCT <= 4000) then
         a ← py_div (-0.2661239 * 10 ^ 9) (CCT ^ 3);
         b ← py_div (0.2343589 * 10 ^ 6) (CCT ^ 2);
         c ← py_div (0.8776956 * 10 ^ 3) CCT;
         mret (a - b + c + 0.179910)
       else if decide (4000 <= CCT <= 25000) then
         a ← py_div (-3.0258469 * 10 ^ 9) (CCT ^ 3);
         b ← py_div (2.1070379 * 10 ^ 6) (CCT ^ 2);
         c ← py_div (0.2226347 * 10 ^ 3) CCT;
         mret (a + b + c + 0.24039)
       else Raise (ValueError kang2002_domain_msg));
  y ← (if decide (1667 <= CCT <= 2222) then mret (kang2002_y_low x)
       else if decide (2222 <= CCT <= 4000) then mret (kang2002_y_mid x)
       else if decide (4000 <= CCT <= 25000) then mret (kang2002_y_high x)
       else Raise (UnboundLocalError "y"));
  mret (x, y).

Definition illuminant_D_domain_msg : string :=
  "Correlated colour temperature must be in domain [4000, 25000]!".

(** CIE Illuminant D Series, CCT to xy. *)
Definition CCT_to_xy_illuminant_D (CCT : R) : result (R * R) :=
  x ← (if decide (4000 <= CCT <= 7000) then
         a ← py_div (-4.607 * 10 ^ 9) (CCT ^ 3);
         b ← py_div (2.9678 * 10 ^ 6) (CCT ^ 2);
         c ← py_div (0.09911 * 10 ^ 3) CCT;
         mret (a + b + c + 0.244063)
       else if decide (7000 < CCT <= 25000) then
         a ← py_div (-2.0064 * 10 ^ 9) (CCT ^ 3);
         b ← py_div (1.9018 * 10 ^ 6) (CCT ^ 2);
         c ← py_div (0.24748 * 10 ^ 3) CCT;
         mret (a + b + c + 0.23704)
       else Raise (ValueError illuminant_D_domain_msg));
  let y := -3 * x ^ 2 + 2.87 * x - 0.275 in
  mret (x, y).

(** ** Robertson (1968): the isotemperature lines *)

Record ROBERTSON_ISOTEMPERATURE_LINES_RUVT : Type := WyszeckiRobertson_ruvt {
  ruvt_r : R;  (* reciprocal megakelvin *)
  ruvt_u : R;  (* CIE 1960 u *)
  ruvt_v : R;  (* CIE 1960 v *)
  ruvt_t : R   (* slope *)
}.

Definition ROBERTSON_ISOTEMPERATURE_LINES : list ROBERTSON_ISOTEMPERATURE_LINES_RUVT := [
  WyszeckiRobertson_ruvt 0 0.18006 0.26352 (-0.24341);
  WyszeckiRobertson_ruvt 10 0.18066 0.26589 (-0.25479);
  WyszeckiRobertson_ruvt 20 0.18133 0.26846 (-0.26876);
  WyszeckiRobertson_ruvt 30 0.18208 0.27119 (-0.28539);
  WyszeckiRobertson_ruvt 40 0.18293 0.27407 (-0.30470);
  WyszeckiRobertson_ruvt 50 0.18388 0.27709 (-0.32675);
  WyszeckiRobertson_ruvt 60 0.18494 0.28021 (-0.35156);
  WyszeckiRobertson_ruvt 70 0.18611 0.28342 (-0.37915);
  WyszeckiRobertson_ruvt 80 0.18740 0.28668 (-0.40955);
  WyszeckiRobertson_ruvt 90 0.18880 0.28997 (-0.44278);
  WyszeckiRobertson_ruvt 100 0.19032 0.29326 (-0.47888);
  WyszeckiRobertson_ruvt 125 0.19462 0.30141 (-0.58204);
  WyszeckiRobertson_ruvt 150 0.19962 0.30921 (-0.70471);
  WyszeckiRobertson_ruvt 175 0.20525 0.31647 (-0.84901);
  WyszeckiRobertson_ruvt 200 0.21142 0.32312 (-1.0182);
  WyszeckiRobertson_ruvt 225 0.21807 0.32909 (-1.2168);
  WyszeckiRobertson_ruvt 250 0.22511 0.33439 (-1.4512);
  WyszeckiRobertson_ruvt 275 0.23247 0.33904 (-1.7298);
  WyszeckiRobertson_ruvt 300 0.24010 0.34308 (-2.0637);
  WyszeckiRobertson_ruvt 325 0.24792 0.34655 (-2.4681);
  WyszeckiRobertson_ruvt 350 0.25591 0.34951 (-2.9641);
  WyszeckiRobertson_ruvt 375 0.26400 0.35200 (-3.5814);
  WyszeckiRobertson_ruvt 400 0.27218 0.35407 (-4.3633);
  WyszeckiRobertson_ruvt 425 0.28039 0.35577 (-5.3762);
  WyszeckiRobertson_ruvt 450 0.28863 0.35714 (-6.7262);
  WyszeckiRobertson_ruvt 475 0.29685 0.35823 (-8.5955);
  WyszeckiRobertson_ruvt 500 0.30505 0.35907 (-11.324);
  WyszeckiRobertson_ruvt 525 0.31320 0.35968 (-15.628);
  WyszeckiRobertson_ruvt 550 0.32129 0.36011 (-23.325);
  WyszeckiRobertson_ruvt 575 0.32931 0.36038 (-40.770);
  WyszeckiRobertson_ruvt 600 0.33724 0.36051 (-116.45)
].

(** [l[i]] for an index that is a natural number. *)
Definition py_getitem_nat {A} (l : list A) (i : nat) : result A :=
  match l !! i with
  | Some a => Ok a
  | None => Raise IndexError
  end.

(** [range(a, b)]. *)
Definition py_range (a b : nat) : list nat := seq a (b - a).

(** What one pass through a loop body decides. *)
Inductive loop_ctl (S B : Type) : Type :=
| Continue (s : S)
| Break (b : B).

Arguments Continue {S B} s.
Arguments Break {S B} b.

(** The unit vector [(du, dv)] along a line of slope [t]:
    [du = 1.0; dv = t; len = math.sqrt(1. + dv * dv); du /= len; dv /= len]. *)
Definition line_direction (t : R) : result (R * R) :=
  let du := 1 in
  let dv := t in
  len ← math_sqrt (1 + dv * dv);
  du ← py_div du len;
  dv ← py_div dv len;
  mret (du, dv).

(** The unit vector [(du, dv)] along the line [wr_ruvt], as values. *)
Definition line_du (wr_ruvt : ROBERTSON_ISOTEMPERATURE_LINES_RUVT) : R :=
  1 / sqrt (1 + ruvt_t wr_ruvt * ruvt_t wr_ruvt).
Definition line_dv (wr_ruvt : ROBERTSON_ISOTEMPERATURE_LINES_RUVT) : R :=
  ruvt_t wr_ruvt / sqrt (1 + ruvt_t wr_ruvt * ruvt_t wr_ruvt).

(** The signed distance [dt] from the line [wr_ruvt] to the point [(u, v)],
    as the loop body computes it. *)
Definition line_dt (u v : R) (wr_ruvt : ROBERTSON_ISOTEMPERATURE_LINES_RUVT) : R :=
  - (u - ruvt_u wr_ruvt) * line_dv wr_ruvt + (v - ruvt_v wr_ruvt) * line_du wr_ruvt.

(** The projection [Duv] that the walk computes where it breaks, between
    the lines [wr_ruvt_previous] and [wr_ruvt] at the fraction [f]. *)
Definition walk_Duv (u v : R)
    (wr_ruvt wr_ruvt_previous : ROBERTSON_ISOTEMPERATURE_LINES_RUVT) (f : R) : R :=
  let uu := u - (ruvt_u wr_ruvt_previous * f + ruvt_u wr_ruvt * (1 - f)) in
  let vv := v - (ruvt_v wr_ruvt_previous * f + ruvt_v wr_ruvt * (1 - f)) in
  let du := line_du wr_ruvt * (1 - f) + line_du wr_ruvt_previous * f in
  let dv := line_dv wr_ruvt * (1 - f) + line_dv wr_ruvt_previous * f in
  let len := sqrt (du * du + dv * dv) in
  uu * (du / len) + vv * (dv / len).

(** The walk breaks at index [i] and reports [T] and the projection [Duv]:
    the line [i] is the first with [dt <= 0], or the last of the table;
    [f] is the interpolation fraction and the blended reciprocal
    temperature is positive. *)
Definition robertson_break_at (u v : R) (i : nat) (f T Duv : R) : Prop :=
  exists wr_ruvt wr_ruvt_previous : ROBERTSON_ISOTEMPERATURE_LINES_RUVT,
    ROBERTSON_ISOTEMPERATURE_LINES !! i = Some wr_ruvt /\
    ROBERTSON_ISOTEMPERATURE_LINES !! (i - 1)%nat = Some wr_ruvt_previous /\
    (line_dt u v wr_ruvt <= 0 \/ i = 30%nat) /\
    let dt := - (if decide (0 < line_dt u v wr_ruvt) then 0 else line_dt u v wr_ruvt) in
    let last_dt := line_dt u v wr_ruvt_previous in
    (i = 1%nat -> f = 0) /\
    (i <> 1%nat -> 0 < last_dt + dt /\ f = dt / (last_dt + dt)) /\
    0 <= f < 1 /\
    0 < ruvt_r wr_ruvt_previous * f + ruvt_r wr_ruvt * (1 - f) /\
    T = 1.0e6 / (ruvt_r wr_ruvt_previous * f + ruvt_r wr_ruvt * (1 - f)) /\
    Duv = walk_Duv u v wr_ruvt wr_ruvt_previous f.

(** The loop state of the forward walk: [(last_dt, last_du, last_dv)]. *)
Definition walk_state : Type := R * R * R.

(** What the loop state holds on entering index [i]: past the first
    index, it is the distance to the previous line, which is positive, and
    the direction of that line. *)
Definition walk_invariant (u v : R) (i : nat) (st : walk_state) : Prop :=
  i = 1%nat \/
  exists wr_ruvt_previous : ROBERTSON_ISOTEMPERATURE_LINES_RUVT,
    ROBERTSON_ISOTEMPERATURE_LINES !! (i - 1)%nat = Some wr_ruvt_previous /\
    st = (line_dt u v wr_ruvt_previous, line_du wr_ruvt_previous,
          line_dv wr_ruvt_previous) /\
    0 < line_dt u v wr_ruvt_previous.

(** The body of [for i in range(1, 31)] in [uv_to_CCT_robertson1968];
    [Break (T, Duv)] is the [break] with the values the function then uses. *)
Definition uv_to_CCT_robertson1968_body (u v : R) (i : nat) (st : walk_state)
  : result (loop_ctl walk_state (R * R)) :=
  let '(last_dt, last_du, last_dv) := st in
  wr_ruvt ← py_getitem_nat ROBERTSON_ISOTEMPERATURE_LINES i;
  wr_ruvt_previous ← py_getitem_nat ROBERTSON_ISOTEMPERATURE_LINES (i - 1);
  '(du, dv) ← line_direction (ruvt_t wr_ruvt);
  let uu := u - ruvt_u wr_ruvt in
  let vv := v - ruvt_v wr_ruvt in
  let dt := - uu * dv + vv * du in
  if decide (dt <= 0 \/ i = 30%nat) then
    let dt := if decide (0 < dt) then 0 else dt in
    let dt := - dt in
    f ← (if decide (i = 1%nat) then mret 0 else py_div dt (last_dt + dt));
    T ← py_div 1.0e6 (ruvt_r wr_ruvt_previous * f + ruvt_r wr_ruvt * (1 - f));
    let uu := u - (ruvt_u wr_ruvt_previous * f + ruvt_u wr_ruvt * (1 - f)) in
    let vv := v - (ruvt_v wr_ruvt_previous * f + ruvt_v wr_ruvt * (1 - f)) in
    let du := du * (1 - f) + last_du * f in
    let dv := dv * (1 - f) + last_dv * f in
    len ← math_sqrt (du * du + dv * dv);
    du ← py_div du len;
    dv ← py_div dv len;
    let Duv := uu * du + vv * dv in
    mret (Break (T, Duv))
  else
    mret (Continue (dt, du, dv)).

(** The [for] loop over the remaining indices; leaving it without [break]
    would leave [T] unbound at [return T, -Duv]. *)
Fixpoint uv_to_CCT_robertson1968_loop (u v : R) (indices : list nat) (st : walk_state)
  : result (R * R) :=
  match indices with
  | [] => Raise (UnboundLocalError "T")
  | i :: rest =>
      c ← uv_to_CCT_robertson1968_body u v i st;
      match c with
      | Continue st' => uv_to_CCT_robertson1968_loop u v rest st'
      | Break b => mret b
      end
  end.

Definition uv_to_CCT_robertson1968 (uv : R * R) : result (R * R) :=
  let '(u, v) := uv in
  '(T, Duv) ← uv_to_CCT_robertson1968_loop u v (py_range 1 31) (0, 0, 0);
  mret (T, - Duv).

(** The body of [for i in range(30)] in [CCT_to_uv_robertson1968]:
    [Some uv] is the [return u, v], [None] goes on with the next index. *)
Definition CCT_to_uv_robertson1968_body (r Duv : R) (i : nat) : result (option (R * R)) :=
  wr_ruvt ← py_getitem_nat ROBERTSON_ISOTEMPERATURE_LINES i;
  wr_ruvt_next ← py_getitem_nat ROBERTSON_ISOTEMPERATURE_LINES (i + 1);
  if decide (r < ruvt_r wr_ruvt_next \/ i = 29%nat) then
    f ← py_div (ruvt_r wr_ruvt_next - r) (ruvt_r wr_ruvt_next - ruvt_r wr_ruvt);
    let u := ruvt_u wr_ruvt * f + ruvt_u wr_ruvt_next * (1 - f) in
    let v := ruvt_v wr_ruvt * f + ruvt_v wr_ruvt_next * (1 - f) in
    '(uu1, vv1) ← line_direction (ruvt_t wr_ruvt);
    '(uu2, vv2) ← line_direction (ruvt_t wr_ruvt_next);
    let uu3 := uu1 * f + uu2 * (1 - f) in
    let vv3 := vv1 * f + vv2 * (1 - f) in
    len3 ← math_sqrt (uu3 * uu3 + vv3 * vv3);
    uu3 ← py_div uu3 len3;
    vv3 ← py_div vv3 len3;
    let u := u + uu3 * - Duv in
    let v := v + vv3 * - Duv in
    mret (Some (u, v))
  else
    mret None.

(** The [for] loop; falling off its end the function would return [None],
    which a caller unpacking the pair meets as a [TypeError]. *)
Fixpoint CCT_to_uv_robertson1968_loop (r Duv : R) (indices : list nat) : result (R * R) :=
  match indices with
  | [] => Raise (TypeError "'NoneType' object is not iterable")
  | i :: rest =>
      o ← CCT_to_uv_robertson1968_body r Duv i;
      match o with
      | Some uv => mret uv
      | None => CCT_to_uv_robertson1968_loop r Duv rest
      end
  end.

Definition CCT_to_uv_robertson1968 (CCT Duv : R) : result (R * R) :=
  r ← py_div 1.0e6 CCT;
  CCT_to_uv_robertson1968_loop r Duv (py_range 0 30).

(** ** Ohno (2013): planckian tables *)

(** An observer: the colour matching functions are an external
    collaborator, of which the module reads the [name]. *)
Record XYZ_ColourMatchingFunctions : Type := { name : string }.

Definition CIE_1931_2_Degree_Standard_Observer : XYZ_ColourMatchingFunctions :=
  {| name := "CIE 1931 2 Degree Standard Observer" |}.

Record PLANCKIAN_TABLE_TUVD : Type := PlanckianTable_Tuvdi {
  Ti : R;
  ui : R;
  vi : R;
  di : R
}.

Definition CCT_MINIMAL : R := 1000.
Definition CCT_MAXIMAL : R := 100000.
Definition CCT_SAMPLES : nat := 10.
Definition CCT_CALCULATION_ITERATIONS : Z := 6.

(** [np.linspace(start, end, count)]: [count] samples, both ends included. *)
Definition np_linspace (start end_ : R) (count : nat) : list R :=
  match count with
  | O => []
  | S O => [start]
  | _ => let step := (end_ - start) / INR (count - 1) in
         map (fun k => start + INR k * step) (seq 0 count)
  end.

(** [min(l)]: the first of the smallest items; an item replaces the
    running minimum when it is strictly below it. *)
Definition min_step (m y : R) : R := if decide (y < m) then y else m.

Definition py_min (l : list R) : result R :=
  match l with
  | [] => Raise (ValueError "min() arg is an empty sequence")
  | x :: rest => Ok (fold_left min_step rest x)
  end.

(** [l.index(x)]: the first position holding [x]. *)
Fixpoint py_list_index (x : R) (l : list R) : result nat :=
  match l with
  | [] => Raise (ValueError "x is not in list")
  | y :: rest => if decide (y = x) then Ok O else S <$> py_list_index x rest
  end.

Definition get_planckian_table_minimal_distance_index
    (planckian_table : list PLANCKIAN_TABLE_TUVD) : result nat :=
  let distances := map di planckian_table in
  m ← py_min distances;
  py_list_index m distances.

(** ** Warnings *)

(** A computation that may emit warnings ([colour.utilities.warning]) and
    may raise: the warnings emitted so far, and the outcome. *)
Definition logged (A : Type) : Type := (list string * result A)%type.

#[global] Instance logged_ret : MRet logged := fun _ a => ([], Ok a).
#[global] Instance logged_bind : MBind logged := fun _ _ f m =>
  match m with
  | (w, Ok a) => let '(w', r) := f a in (w ++ w', r)
  | (w, Raise e) => (w, Raise e)
  end.

Definition warning (msg : string) : logged unit := ([msg], Ok tt).
Definition lift {A} (m : result A) : logged A := ([], m).

Definition lowest_bound_warning : string :=
  "Minimal distance index is on lowest planckian table bound, unpredictable results may occur!".
Definition highest_bound_warning : string :=
  "Minimal distance index is on highest planckian table bound, unpredictable results may occur!".

(** ** Ohno (2013): the solver *)

Section Ohno.

(** The colorimetric primitives, an external collaborator: the uv
    chromaticity of the blackbody at a temperature under an observer
    ([blackbody_spectral_power_distribution], [spectral_to_XYZ], the
    division by the largest channel, [XYZ_to_UCS], [UCS_to_uv]). *)
Variable planckian_uv : XYZ_ColourMatchingFunctions -> R -> R * R.

(** One row of the planckian table. *)
Definition planckian_table_row (uv : R * R) (cmfs : XYZ_ColourMatchingFunctions) (Ti : R)
  : result PLANCKIAN_TABLE_TUVD :=
  let '(ux, vx) := uv in
  let '(ui, vi) := planckian_uv cmfs Ti in
  di ← math_sqrt ((ux - ui) ^ 2 + (vx - vi) ^ 2);
  mret (PlanckianTable_Tuvdi Ti ui vi di).

(** The row at a temperature as a value: [math.sqrt] never fails on a sum
    of two squares (see [planckian_table_row_Ok]). *)
Definition planckian_row (uv : R * R) (cmfs : XYZ_ColourMatchingFunctions) (T : R)
  : PLANCKIAN_TABLE_TUVD :=
  let '(ui, vi) := planckian_uv cmfs T in
  PlanckianTable_Tuvdi T ui vi (sqrt ((uv.1 - ui) ^ 2 + (uv.2 - vi) ^ 2)).

Definition get_planckian_table (uv : R * R) (cmfs : XYZ_ColourMatchingFunctions)
    (start end_ : R) (count : nat) : result (list PLANCKIAN_TABLE_TUVD) :=
  mapM (planckian_table_row uv cmfs) (np_linspace start end_ count).

(** The boundary policy on the minimal distance index. *)
Definition ohno_boundary_policy (planckian_table : list PLANCKIAN_TABLE_TUVD) (index : Z)
  : logged Z :=
  if decide (index = 0)%Z then
    _ ← warning lowest_bound_warning;
    mret (index + 1)%Z
  else if decide (index = Z.of_nat (length planckian_table) - 1)%Z then
    _ ← warning highest_bound_warning;
    mret (index - 1)%Z
  else mret index.

(** The rows at [index - 1] and [index + 1] are read at these very
    positions: neither index is negative (Python would count it from the
    end of the list) nor past the end. *)
Definition neighbours_in_range {A} (l : list A) (index : Z) : Prop :=
  (0 <= index - 1)%Z /\ (index + 1 < Z.of_nat (length l))%Z.

(** What the cascade keeps from one pass to the next. *)
Record cascade_state : Type := {
  cs_start : R;
  cs_end : R;
  cs_last : option (list PLANCKIAN_TABLE_TUVD * Z)  (* planckian_table, index *)
}.

(** The body of [for i in range(iterations)]. *)
Definition uv_to_CCT_ohno2013_body (uv : R * R) (cmfs : XYZ_ColourMatchingFunctions)
    (count : nat) (st : cascade_state) : logged cascade_state :=
  planckian_table ← lift (get_planckian_table uv cmfs (cs_start st) (cs_end st) count);
  index ← lift (Z.of_nat <$> get_planckian_table_minimal_distance_index planckian_table);
  index ← ohno_boundary_policy planckian_table index;
  Tuvdip ← lift (py_getitem planckian_table (index - 1));
  Tuvdin ← lift (py_getitem planckian_table (index + 1));
  mret {| cs_start := Ti Tuvdip; cs_end := Ti Tuvdin;
          cs_last := Some (planckian_table, index) |}.

Fixpoint uv_to_CCT_ohno2013_loop (uv : R * R) (cmfs : XYZ_ColourMatchingFunctions)
    (count : nat) (iterations : nat) (st : cascade_state) : logged cascade_state :=
  match iterations with
  | O => mret st
  | S n => st' ← uv_to_CCT_ohno2013_body uv cmfs count st;
           uv_to_CCT_ohno2013_loop uv cmfs count n st'
  end.

(** The triangular solution: [(T, Duv, sign)]. *)
Definition ohno_triangular_solution (uv : R * R)
    (Tuvdip Tuvdi Tuvdin : PLANCKIAN_TABLE_TUVD) : result (R * R * R) :=
  let '(ux, vx) := uv in
  let '(Tip, uip, vip, dip) := (Ti Tuvdip, ui Tuvdip, vi Tuvdip, di Tuvdip) in
  let '(Tin, uin, vin, din) := (Ti Tuvdin, ui Tuvdin, vi Tuvdin, di Tuvdin) in
  l ← math_sqrt ((uin - uip) ^ 2 + (vin - vip) ^ 2);
  x ← py_div (dip ^ 2 - din ^ 2 + l ^ 2) (2 * l);
  xl ← py_div x l;
  let T := Tip + (Tin - Tip) * xl in
  xl ← py_div x l;
  let vtx := vip + (vin - vip) * xl in
  let sign := if decide (0 <= vx - vtx) then 1 else -1 in
  h ← py_pow_half (dip ^ 2 - x ^ 2);
  let Duv := h * sign in
  mret (T, Duv, sign).

(** The parabolic solution: [(T, Duv)]. *)
Definition ohno_parabolic_solution (sign : R)
    (Tuvdip Tuvdi Tuvdin : PLANCKIAN_TABLE_TUVD) : result (R * R) :=
  let '(Tip, dip) := (Ti Tuvdip, di Tuvdip) in
  let '(Tin, din) := (Ti Tuvdin, di Tuvdin) in
  let '(Ti, di) := (Ti Tuvdi, di Tuvdi) in
  let X := (Tin - Ti) * (Tip - Tin) * (Ti - Tip) in
  Xinv ← np_pow_neg1 X;
  let a := (Tip * (din - di) + Ti * (dip - din) + Tin * (di - dip)) * Xinv in
  let b := - (Tip ^ 2 * (din - di) + Ti ^ 2 * (dip - din) + Tin ^ 2 * (di - dip)) * Xinv in
  let c := - (dip * (Tin - Ti) * Ti * Tin + di * (Tip - Tin) * Tip * Tin
              + din * (Ti - Tip) * Tip * Ti) * Xinv in
  T ← np_div (- b) (2 * a);
  let Duv := sign * (a * T ^ 2 + b * T + c) in
  mret (T, Duv).

(** The coefficients [(a, b, c)] of the parabola of the parabolic
    solution, as values. *)
Definition ohno_parabola (Tuvdip Tuvdi Tuvdin : PLANCKIAN_TABLE_TUVD) : R * R * R :=
  let '(Tip, dip) := (Ti Tuvdip, di Tuvdip) in
  let '(Tin, din) := (Ti Tuvdin, di Tuvdin) in
  let '(Ti, di) := (Ti Tuvdi, di Tuvdi) in
  let X := (Tin - Ti) * (Tip - Tin) * (Ti - Tip) in
  ((Tip * (din - di) + Ti * (dip - din) + Tin * (di - dip)) * / X,
   - (Tip ^ 2 * (din - di) + Ti ^ 2 * (dip - din) + Tin ^ 2 * (di - dip)) * / X,
   - (dip * (Tin - Ti) * Ti * Tin + di * (Tip - Tin) * Tip * Tin
      + din * (Ti - Tip) * Tip * Ti) * / X).

(** The code after the cascade, on the three rows around the index. *)
Definition uv_to_CCT_ohno2013_fit (uv : R * R)
    (Tuvdip Tuvdi Tuvdin : PLANCKIAN_TABLE_TUVD) : result (R * R) :=
  '(T, Duv, sign) ← ohno_triangular_solution uv Tuvdip Tuvdi Tuvdin;
  if decide (Duv < 0.002)
  then ohno_parabolic_solution sign Tuvdip Tuvdi Tuvdin
  else mret (T, Duv).

Definition uv_to_CCT_ohno2013 (uv : R * R) (cmfs : XYZ_ColourMatchingFunctions)
    (start end_ : R) (count : nat) (iterations : Z) : logged (R * R) :=
  let iterations := if decide (iterations <= 0)%Z then 1%Z else iterations in
  st ← uv_to_CCT_ohno2013_loop uv cmfs count (Z.to_nat iterations)
         {| cs_start := start; cs_end := end_; cs_last := None |};
  lift (match cs_last st with
        | None => Raise (UnboundLocalError "planckian_table")
        | Some (planckian_table, index) =>
            Tuvdip ← py_getitem planckian_table (index - 1);
            Tuvdi ← py_getitem planckian_table index;
            Tuvdin ← py_getitem planckian_table (index + 1);
            uv_to_CCT_ohno2013_fit uv Tuvdip Tuvdi Tuvdin
        end).

Definition CCT_to_uv_ohno2013 (CCT Duv : R) (cmfs : XYZ_ColourMatchingFunctions)
  : result (R * R) :=
  let delta := 0.01 in
  let '(u0, v0) := planckian_uv cmfs CCT in
  if decide (Duv = 0) then mret (u0, v0)
  else
    let '(u1, v1) := planckian_uv cmfs (CCT + delta) in
    let du := u0 - u1 in
    let dv := v0 - v1 in
    len ← math_sqrt (du ^ 2 + dv ^ 2);
    qv ← np_div dv len;
    let u := u0 - Duv * qv in
    len ← math_sqrt (du ^ 2 + dv ^ 2);
    qu ← np_div du len;
    let v := v0 + Duv * qu in
    mret (u, v).

End Ohno.

(** ** Method dispatch *)

(** The keyword arguments of a call ([**kwargs]): the keywords the
    implementations know, each given or not, and the names of any others. *)
Record keywords : Type := {
  kw_cmfs : option XYZ_ColourMatchingFunctions;
  kw_start : option R;
  kw_end : option R;
  kw_count : option nat;
  kw_iterations : option Z;
  kw_others : list string
}.

Definition no_keywords : keywords :=
  {| kw_cmfs := None; kw_start := None; kw_end := None; kw_count := None;
     kw_iterations := None; kw_others := [] |}.

Definition unexpected_keyword : exn :=
  TypeError "got an unexpected keyword argument".
Definition none_not_callable : exn :=
  TypeError "'NoneType' object is not callable".
Definition robertson_observer_msg : string :=
  "'Robertson (1968)' method is only valid for 'CIE 1931 2 Degree Standard Observer'!".

(** Calling what [dict.get] returned. *)
Definition py_call {A B} (callee : option (A -> B -> logged (R * R))) (a : A) (b : B)
  : logged (R * R) :=
  match callee with
  | Some f => f a b
  | None => lift (Raise none_not_callable)
  end.

Definition py_call1 {A B} (callee : option (A -> result B)) (a : A) : result B :=
  match callee with
  | Some f => f a
  | None => Raise none_not_callable
  end.

Section Dispatch.

Variable planckian_uv : XYZ_ColourMatchingFunctions -> R -> R * R.

(** The implementations as Python calls them: positional arguments, then
    keywords bound to the parameters, the missing ones to their defaults. *)
Definition uv_to_CCT_ohno2013_callable (uv : R * R) (kw : keywords) : logged (R * R) :=
  match kw_others kw with
  | _ :: _ => lift (Raise unexpected_keyword)
  | [] => uv_to_CCT_ohno2013 planckian_uv uv
            (default CIE_1931_2_Degree_Standard_Observer (kw_cmfs kw))
            (default CCT_MINIMAL (kw_start kw))
            (default CCT_MAXIMAL (kw_end kw))
            (default CCT_SAMPLES (kw_count kw))
            (default CCT_CALCULATION_ITERATIONS (kw_iterations kw))
  end.

Definition uv_to_CCT_robertson1968_callable (uv : R * R) (kw : keywords) : logged (R * R) :=
  match kw with
  | {| kw_cmfs := None; kw_start := None; kw_end := None; kw_count := None;
       kw_iterations := None; kw_others := [] |} => lift (uv_to_CCT_robertson1968 uv)
  | _ => lift (Raise unexpected_keyword)
  end.

Definition CCT_to_uv_ohno2013_callable (args : R * R) (kw : keywords) : logged (R * R) :=
  match kw with
  | {| kw_cmfs := cmfs; kw_start := None; kw_end := None; kw_count := None;
       kw_iterations := None; kw_others := [] |} =>
      lift (CCT_to_uv_ohno2013 planckian_uv args.1 args.2
              (default CIE_1931_2_Degree_Standard_Observer cmfs))
  | _ => lift (Raise unexpected_keyword)
  end.

Definition CCT_to_uv_robertson1968_callable (args : R * R) (kw : keywords) : logged (R * R) :=
  match kw with
  | {| kw_cmfs := None; kw_start := None; kw_end := None; kw_count := None;
       kw_iterations := None; kw_others := [] |} =>
      lift (CCT_to_uv_robertson1968 args.1 args.2)
  | _ => lift (Raise unexpected_keyword)
  end.

Definition UV_TO_CCT_METHODS : gmap string (R * R -> keywords -> logged (R * R)) :=
  {[ "Ohno 2013" := uv_to_CCT_ohno2013_callable;
     "Robertson 1968" := uv_to_CCT_robertson1968_callable ]}.

Definition CCT_TO_UV_METHODS : gmap string (R * R -> keywords -> logged (R * R)) :=
  {[ "Ohno 2013" := CCT_to_uv_ohno2013_callable;
     "Robertson 1968" := CCT_to_uv_robertson1968_callable ]}.

(** The observer check of the branch that is not Ohno's. *)
Definition robertson_observer_check (kw : keywords) : result unit :=
  match kw_cmfs kw with
  | Some cmfs =>
      if decide (name cmfs <> "CIE 1931 2 Degree Standard Observer")
      then Raise (ValueError robertson_observer_msg)
      else Ok tt
  | None => Ok tt
  end.

Definition uv_to_CCT (uv : R * R) (method : string) (kwargs : keywords) : logged (R * R) :=
  if decide (method = "Ohno 2013") then
    py_call (UV_TO_CCT_METHODS !! method) uv kwargs
  else
    _ ← lift (robertson_observer_check kwargs);
    py_call (UV_TO_CCT_METHODS !! method) uv no_keywords.

Definition CCT_to_uv (CCT Duv : R) (method : string) (kwargs : keywords) : logged (R * R) :=
  if decide (method = "Ohno 2013") then
    py_call (CCT_TO_UV_METHODS !! method) (CCT, Duv) kwargs
  else
    _ ← lift (robertson_observer_check kwargs);
    py_call (CCT_TO_UV_METHODS !! method) (CCT, Duv) no_keywords.

End Dispatch.

Definition XY_TO_CCT_METHODS : gmap string (R * R -> result R) :=
  {[ "McCamy 1992" := xy_to_CCT_mccamy1992;
     "Hernandez 1999" := xy_to_CCT_hernandez1999 ]}.

Definition xy_to_CCT (xy : R * R) (method : string) (kwargs : keywords) : result R :=
  py_call1 (XY_TO_CCT_METHODS !! method) xy.

Definition CCT_TO_XY_METHODS : gmap string (R -> result (R * R)) :=
  {[ "Kang 2002" := CCT_to_xy_kang2002;
     "CIE Illuminant D Series" := CCT_to_xy_illuminant_D ]}.

Definition CCT_to_xy (CCT : R) (method : string) : result (R * R) :=
  py_call1 (CCT_TO_XY_METHODS !! method) CCT.

(** ** Robertson (1968): the round trip *)

(** The length [len] of [(1, t)] for a line, the cross and the dot product
    of the directions of two lines. *)
Definition line_len (wr_ruvt : ROBERTSON_ISOTEMPERATURE_LINES_RUVT) : R :=
  sqrt (1 + ruvt_t wr_ruvt * ruvt_t wr_ruvt).
Definition lines_cross (w1 w2 : ROBERTSON_ISOTEMPERATURE_LINES_RUVT) : R :=
  - line_du w1 * line_dv w2 + line_dv w1 * line_du w2.
Definition lines_dot (w1 w2 : ROBERTSON_ISOTEMPERATURE_LINES_RUVT) : R :=
  line_du w1 * line_du w2 + line_dv w1 * line_dv w2.

(** The point that [CCT_to_uv_robertson1968] returns between the lines
    [wr_ruvt] and [wr_ruvt_next], at the fraction [f]. *)
Definition inverse_uv (wr_ruvt wr_ruvt_next : ROBERTSON_ISOTEMPERATURE_LINES_RUVT)
    (f Duv : R) : R * R :=
  let u := ruvt_u wr_ruvt * f + ruvt_u wr_ruvt_next * (1 - f) in
  let v := ruvt_v wr_ruvt * f + ruvt_v wr_ruvt_next * (1 - f) in
  let uu3 := line_du wr_ruvt * f + line_du wr_ruvt_next * (1 - f) in
  let vv3 := line_dv wr_ruvt * f + line_dv wr_ruvt_next * (1 - f) in
  let len3 := sqrt (uu3 * uu3 + vv3 * vv3) in
  (u + uu3 / len3 * - Duv, v + vv3 / len3 * - Duv).

(** The length of the blended direction of two lines. *)
Definition blend_len (wr wn : ROBERTSON_ISOTEMPERATURE_LINES_RUVT) (f : R) : R :=
  sqrt ((line_du wr * f + line_du wn * (1 - f)) * (line_du wr * f + line_du wn * (1 - f))
        + (line_dv wr * f + line_dv wn * (1 - f)) * (line_dv wr * f + line_dv wn * (1 - f))).

(** The reciprocal temperature of the line [k]. *)
Definition line_r_of (k : nat) : R :=
  if (k <=? 10)%nat then 10 * INR k else 25 * INR k - 150.

(** The distances between the anchors of [wr] and [wn] across the line
    [wn] and across the line [wr], each less what the offset [Duv] takes;
    and the fraction that the forward walk computes from them for the
    point [inverse_uv wr wn f Duv]. *)
Definition offset_a (wr wn : ROBERTSON_ISOTEMPERATURE_LINES_RUVT) (f Duv : R) : R :=
  - line_dt (ruvt_u wr) (ruvt_v wr) wn - Duv * lines_cross wn wr / blend_len wr wn f.
Definition offset_b (wr wn : ROBERTSON_ISOTEMPERATURE_LINES_RUVT) (f Duv : R) : R :=
  line_dt (ruvt_u wn) (ruvt_v wn) wr - Duv * lines_cross wn wr / blend_len wr wn f.
Definition forward_fraction (wr wn : ROBERTSON_ISOTEMPERATURE_LINES_RUVT) (f Duv : R) : R :=
  f * offset_a wr wn f Duv
  / ((1 - f) * offset_b wr wn f Duv + f * offset_a wr wn f Duv).

(** The bound on [|Duv|] for the round trip, and its tolerances on [T]
    (in kelvin) and on [Duv]. *)
Definition round_trip_Duv_bound : R := 0.05.
Definition round_trip_T_tolerance : R := 0.5.
Definition round_trip_Duv_tolerance : R := 5e-8.

(** A lower bound on the cosine of the angle between neighbouring lines. *)
Definition kappa0 : R := 0.99.

(** Lower bounds of [line_len], line by line, each within 1e-12. *)
Definition line_len_lo : list R := [
  1.029197953797;
  1.031948615048;
  1.035486329026;
  1.039926657077;
  1.045390879049;
  1.052029259336;
  1.059997374336;
  1.069464689692;
  1.080616121710;
  1.093642596280;
  1.108749770868;
  1.157052531910;
  1.223362654367;
  1.311799519781;
  1.427140932073;
  1.574992774586;
  1.762379482404;
  1.998051060408;
  2.293219939299;
  2.662990351090;
  3.128240529435;
  3.718390237723;
  4.476425682394;
  5.468411692621;
  6.800129884053;
  8.653474461162;
  11.368068261582;
  15.659961174919;
  23.346426386066;
  40.782262075564;
  116.454293609123
].

(** Two lines [wj] before [wk]: the anchor of [wk] lies on the positive
    side of [wj], farther than any offset within the bound can reach. *)
Definition pair_separated (wj wk : ROBERTSON_ISOTEMPERATURE_LINES_RUVT) : Prop :=
  round_trip_Duv_bound * Rabs (lines_cross wk wj)
  < kappa0 * line_dt (ruvt_u wk) (ruvt_v wk) wj.

(** What the round trip needs of two neighbouring lines [wr] and [wn]:
    [amin] bounds from below the distances between the anchors across
    either line, less the reach of an offset; [eta] bounds the difference
    of these two distances, [sigma] the sine of the angle between the
    lines, [mu] the projections of the chord on either line. *)
Definition segment_certificate (wr wn : ROBERTSON_ISOTEMPERATURE_LINES_RUVT)
    (amin eta mu sigma : R) : Prop :=
  let a := - line_dt (ruvt_u wr) (ruvt_v wr) wn in
  let b := line_dt (ruvt_u wn) (ruvt_v wn) wr in
  let eps := eta / (4 * amin) in
  0 < amin /\
  0 < ruvt_r wr < ruvt_r wn /\
  kappa0 <= lines_dot wr wn /\
  Rabs (lines_cross wn wr) <= sigma /\
  amin <= a - round_trip_Duv_bound * sigma / kappa0 /\
  amin <= b - round_trip_Duv_bound * sigma / kappa0 /\
  Rabs (a - b) <= eta /\
  Rabs ((ruvt_u wr - ruvt_u wn) * line_du wr + (ruvt_v wr - ruvt_v wn) * line_dv wr) <= mu /\
  Rabs ((ruvt_u wr - ruvt_u wn) * line_du wn + (ruvt_v wr - ruvt_v wn) * line_dv wn) <= mu /\
  1.0e6 * eps * (ruvt_r wn - ruvt_r wr) / (ruvt_r wr * ruvt_r wr)
    <= round_trip_T_tolerance /\
  round_trip_Duv_bound * ((eps * sigma / (kappa0 * kappa0)) * (eps * sigma / (kappa0 * kappa0)))
    + eps * mu / kappa0 <= round_trip_Duv_tolerance.

(** ** Sample data for the examples *)

(** A stand-in for the colorimetric primitives: a locus that is the
    straight line [v = 0], at [u = T]. *)
Definition line_locus (cmfs : XYZ_ColourMatchingFunctions) (T : R) : R * R := (T, 0).

(** Two tables of two rows: the smallest distance first, and last. *)
Definition two_rows_lowest : list PLANCKIAN_TABLE_TUVD :=
  [PlanckianTable_Tuvdi 1 1 0 1; PlanckianTable_Tuvdi 2 2 0 2].
Definition two_rows_highest : list PLANCKIAN_TABLE_TUVD :=
  [PlanckianTable_Tuvdi 1 1 0 2; PlanckianTable_Tuvdi 2 2 0 1].

(** A table of four rows with the smallest distance twice. *)
Definition four_rows : list PLANCKIAN_TABLE_TUVD :=
  [PlanckianTable_Tuvdi 1000 0.4 0.3 3; PlanckianTable_Tuvdi 2000 0.3 0.3 1;
   PlanckianTable_Tuvdi 3000 0.2 0.3 2; PlanckianTable_Tuvdi 4000 0.1 0.3 1].

(** Three rows on a straight locus around the target (0.2, 0.2976), which
    lies 0.0024 below it. *)
Definition below_locus_uv : R * R := (0.2, 0.2976).
Definition below_locus_p : PLANCKIAN_TABLE_TUVD := PlanckianTable_Tuvdi 1000 0.1982 0.3 0.0030.
Definition below_locus_c : PLANCKIAN_TABLE_TUVD := PlanckianTable_Tuvdi 2000 0.2007 0.3 0.0025.
Definition below_locus_n : PLANCKIAN_TABLE_TUVD := PlanckianTable_Tuvdi 3000 0.2032 0.3 0.0040.

(** An observer other than the CIE 1931 2 degree one, and a call that
    passes it as [cmfs]. *)
Definition CIE_1964_10_Degree_Standard_Observer : XYZ_ColourMatchingFunctions :=
  {| name := "CIE 1964 10 Degree Standard Observer" |}.

Definition cmfs_10_degree_keywords : keywords :=
  {| kw_cmfs := Some CIE_1964_10_Degree_Standard_Observer; kw_start := None;
     kw_end := None; kw_count := None; kw_iterations := None; kw_others := [] |}.

(** The lines of the table at 100 and at 125 mired, the rows 10 and 11. *)
Definition line_100 : ROBERTSON_ISOTEMPERATURE_LINES_RUVT :=
  WyszeckiRobertson_ruvt 100 0.19032 0.29326 (-0.47888).
Definition line_125 : ROBERTSON_ISOTEMPERATURE_LINES_RUVT :=
  WyszeckiRobertson_ruvt 125 0.19462 0.30141 (-0.58204).

(** ** The closed forms as values *)

(** The two cubics in [1 / CCT] that give [x] for the D series, and the
    parabola that gives [y]. *)
Definition illuminant_D_x_low (CCT : R) : R :=
  -4.607 * 10 ^ 9 / CCT ^ 3 + 2.9678 * 10 ^ 6 / CCT ^ 2 + 0.09911 * 10 ^ 3 / CCT + 0.244063.
Definition illuminant_D_x_high (CCT : R) : R :=
  -2.0064 * 10 ^ 9 / CCT ^ 3 + 1.9018 * 10 ^ 6 / CCT ^ 2 + 0.24748 * 10 ^ 3 / CCT + 0.23704.
Definition illuminant_D_y (x : R) : R := -3 * x ^ 2 + 2.87 * x - 0.275.

(** The two cubics in [1 / CCT] that give [x] in Kang et al. (2002). *)
Definition kang2002_x_low (CCT : R) : R :=
  -0.2661239 * 10 ^ 9 / CCT ^ 3 - 0.2343589 * 10 ^ 6 / CCT ^ 2
  + 0.8776956 * 10 ^ 3 / CCT + 0.179910.
Definition kang2002_x_high (CCT : R) : R :=
  -3.0258469 * 10 ^ 9 / CCT ^ 3 + 2.1070379 * 10 ^ 6 / CCT ^ 2
  + 0.2226347 * 10 ^ 3 / CCT + 0.24039.

(** ** More rows of the table, and a call with keywords *)

(** The first two and the last two lines of the table: the rows 0, 1, 29
    and 30. *)
Definition line_0 : ROBERTSON_ISOTEMPERATURE_LINES_RUVT :=
  WyszeckiRobertson_ruvt 0 0.18006 0.26352 (-0.24341).
Definition line_10 : ROBERTSON_ISOTEMPERATURE_LINES_RUVT :=
  WyszeckiRobertson_ruvt 10 0.18066 0.26589 (-0.25479).
Definition line_575 : ROBERTSON_ISOTEMPERATURE_LINES_RUVT :=
  WyszeckiRobertson_ruvt 575 0.32931 0.36038 (-40.770).
Definition line_600 : ROBERTSON_ISOTEMPERATURE_LINES_RUVT :=
  WyszeckiRobertson_ruvt 600 0.33724 0.36051 (-116.45).

(** A call that passes the keywords of the Ohno solver and one that no
    implementation knows. *)
Definition cascade_keywords : keywords :=
  {| kw_cmfs := Some CIE_1931_2_Degree_Standard_Observer; kw_start := Some 2000;
     kw_end := Some 8000; kw_count := Some 20%nat; kw_iterations := Some 3%Z;
     kw_others := ["precision"] |}.

(** * Properties *)

(** ** Helper lemmas on the numeric primitives *)

Lemma py_div_ok (a b : R) : b <> 0 -> py_div a b = Ok (a / b).
Proof. intros Hb. unfold py_div. case_decide; [contradiction | reflexivity]. Qed.

Lemma py_div_zero (a b : R) : b = 0 -> py_div a b = Raise ZeroDivisionError.
Proof. intros Hb. unfold py_div. case_decide; [reflexivity | contradiction]. Qed.

Lemma math_sqrt_ok (a : R) : 0 <= a -> math_sqrt a = Ok (sqrt a).
Proof. intros Ha. unfold math_sqrt. case_decide; [lra | reflexivity]. Qed.

Lemma bind_Ok {A B} (f : A -> result B) (a : A) : (Ok a ≫= f) = f a.
Proof. reflexivity. Qed.

Lemma bind_Raise {A B} (f : A -> result B) (e : exn) : (Raise e ≫= f) = Raise e.
Proof. reflexivity. Qed.

(** ** Kang (2002) *)

Lemma kang2002_raises (CCT : R) :
  ~ (1667 <= CCT <= 25000) ->
  CCT_to_xy_kang2002 CCT = Raise (ValueError kang2002_domain_msg).
Proof.
  intros Hout. unfold CCT_to_xy_kang2002.
  repeat case_decide; try lra; reflexivity.
Qed.

(** Inside the domain the pair is returned; [y] is the first cubic whose
    closed range holds [CCT]. *)
Lemma kang2002_returns (CCT : R) :
  1667 <= CCT <= 25000 ->
  exists x : R,
    CCT_to_xy_kang2002 CCT =
      Ok (x, if decide (CCT <= 2222) then kang2002_y_low x
             else if decide (CCT <= 4000) then kang2002_y_mid x
             else kang2002_y_high x).
Proof.
  intros Hin. unfold CCT_to_xy_kang2002.
  assert (H1 : CCT <> 0) by lra.
  assert (H2 : CCT ^ 2 <> 0) by (apply pow_nonzero; exact H1).
  assert (H3 : CCT ^ 3 <> 0) by (apply pow_nonzero; exact H1).
  rewrite !(py_div_ok _ _ H1), !(py_div_ok _ _ H2), !(py_div_ok _ _ H3).
  repeat case_decide; try lra; eexists; reflexivity.
Qed.

(** C3.  [CCT_to_xy_kang2002] raises the domain error, with nothing
    computed and no pair returned, for every CCT outside [1667, 25000],
    among them 500 and 30000; for every CCT inside it returns a pair. *)
Theorem CCT_to_xy_kang2002_domain :
  (forall CCT : R,
     (1667 <= CCT <= 25000 /\ exists x y, CCT_to_xy_kang2002 CCT = Ok (x, y)) \/
     (~ (1667 <= CCT <= 25000) /\
      CCT_to_xy_kang2002 CCT = Raise (ValueError kang2002_domain_msg))) /\
  CCT_to_xy_kang2002 500 = Raise (ValueError kang2002_domain_msg) /\
  CCT_to_xy_kang2002 30000 = Raise (ValueError kang2002_domain_msg).
Proof.
  split; [| split; apply kang2002_raises; lra].
  intros CCT. destruct (decide (1667 <= CCT <= 25000)) as [Hin | Hout].
  - left. split; [exact Hin |].
    destruct (kang2002_returns CCT Hin) as [x Hx]. eauto.
  - right. split; [exact Hout | apply kang2002_raises; exact Hout].
Qed.

(** C7 (as amended).  The ranges that select the [y] cubic are closed and
    tried in order: [1667, 2222] takes the first cubic, (2222, 4000] the
    second, (4000, 25000] the third. *)
Theorem CCT_to_xy_kang2002_y_selection (CCT : R) :
  1667 <= CCT <= 25000 ->
  exists x y : R,
    CCT_to_xy_kang2002 CCT = Ok (x, y) /\
    (CCT <= 2222 -> y = kang2002_y_low x) /\
    (2222 < CCT <= 4000 -> y = kang2002_y_mid x) /\
    (4000 < CCT -> y = kang2002_y_high x).
Proof.
  intros Hin. destruct (kang2002_returns CCT Hin) as [x Hx].
  exists x. eexists. split; [exact Hx |].
  repeat case_decide; repeat split; intros; first [reflexivity | lra].
Qed.

Lemma CCT_to_xy_kang2002_y_selection_witness :
  exists x y : R,
    CCT_to_xy_kang2002 2222 = Ok (x, y) /\
    (2222 <= 2222 -> y = kang2002_y_low x) /\
    (2222 < 2222 <= 4000 -> y = kang2002_y_mid x) /\
    (4000 < 2222 -> y = kang2002_y_high x).
Proof. apply (CCT_to_xy_kang2002_y_selection 2222). lra. Defined.

Lemma kang2002_low_mid_differ (x : R) :
  0.50318 < x < 0.50319 -> kang2002_y_low x < kang2002_y_mid x.
Proof.
  intros [Hlo Hhi]. unfold kang2002_y_low, kang2002_y_mid.
  assert (H2 : x ^ 2 < 0.50319 ^ 2) by nra.
  assert (H3 : 0.50318 ^ 3 < x ^ 3) by nra.
  lra.
Qed.

Lemma kang2002_mid_high_differ (x : R) :
  0.380528 < x < 0.380529 -> kang2002_y_high x < kang2002_y_mid x.
Proof.
  intros [Hlo Hhi]. unfold kang2002_y_high, kang2002_y_mid.
  assert (H2 : 0.380528 ^ 2 < x ^ 2) by nra.
  assert (H3 : x ^ 3 < 0.380529 ^ 3) by nra.
  lra.
Qed.

(** At 2222 the first cubic gives [y], and the second would give another
    value; at 4000 the second cubic gives [y], and the third would give
    another value. *)
Lemma CCT_to_xy_kang2002_boundaries :
  (exists x : R,
     CCT_to_xy_kang2002 2222 = Ok (x, kang2002_y_low x) /\
     kang2002_y_low x <> kang2002_y_mid x) /\
  (exists x : R,
     CCT_to_xy_kang2002 4000 = Ok (x, kang2002_y_mid x) /\
     kang2002_y_mid x <> kang2002_y_high x).
Proof.
  split.
  - unfold CCT_to_xy_kang2002. rewrite !py_div_ok by lra.
    repeat case_decide; try lra.
    eexists. split; [reflexivity |].
    apply Rlt_not_eq, kang2002_low_mid_differ. lra.
  - unfold CCT_to_xy_kang2002. rewrite !py_div_ok by lra.
    repeat case_decide; try lra.
    eexists. split; [reflexivity |].
    apply Rgt_not_eq, Rlt_gt, kang2002_mid_high_differ. lra.
Qed.

(** ** McCamy (1992) *)

(** [math.pow] on a base of absolute value at most [b], where the power
    of [b] is a float. *)
Lemma math_pow_ok (a b : R) (k : nat) :
  Rabs a <= b -> b ^ k <= float_max -> math_pow a k = Ok (a ^ k).
Proof.
  intros Ha Hb. unfold math_pow.
  destruct (decide (float_max < Rabs (a ^ k))) as [Hbig | _]; [| reflexivity].
  exfalso. rewrite <- RPow_abs in Hbig.
  pose proof (pow_incr (Rabs a) b k (conj (Rabs_pos a) Ha)). lra.
Qed.

(** [math.pow] either returns or raises [OverflowError]. *)
Lemma math_pow_cases (a : R) (k : nat) :
  math_pow a k = Ok (a ^ k) \/ math_pow a k = Raise OverflowError.
Proof. unfold math_pow. case_decide; [right | left]; reflexivity. Qed.

(** C8 (as amended).  [xy_to_CCT_mccamy1992] has no domain check, and it
    does not return for every pair.  At [y = 0.1858] the division raises
    [ZeroDivisionError].  For [y] other than 0.1858 it returns a value
    whenever [n = (x - 0.3320) / (y - 0.1858)] is at most 1e100 in
    absolute value; for a greater [n] it returns a value or [math.pow]
    raises [OverflowError], and nothing else is raised. *)
Theorem xy_to_CCT_mccamy1992_total_off_pole :
  forall x y : R,
    (y = 0.1858 /\ xy_to_CCT_mccamy1992 (x, y) = Raise ZeroDivisionError) \/
    (y <> 0.1858 /\ Rabs ((x - 0.3320) / (y - 0.1858)) <= 1e100 /\
     exists CCT, xy_to_CCT_mccamy1992 (x, y) = Ok CCT) \/
    (y <> 0.1858 /\ 1e100 < Rabs ((x - 0.3320) / (y - 0.1858)) /\
     ((exists CCT, xy_to_CCT_mccamy1992 (x, y) = Ok CCT) \/
      xy_to_CCT_mccamy1992 (x, y) = Raise OverflowError)).
Proof.
  intros x y. unfold xy_to_CCT_mccamy1992.
  destruct (decide (y = 0.1858)) as [Heq | Hne].
  - left. split; [exact Heq |]. rewrite py_div_zero by lra. reflexivity.
  - right. rewrite py_div_ok by lra. rewrite bind_Ok.
    set (n := (x - 0.3320) / (y - 0.1858)).
    destruct (Rle_lt_dec (Rabs n) 1e100) as [Hsmall | Hbig].
    + left. split; [exact Hne |]. split; [exact Hsmall |].
      rewrite (math_pow_ok n 1e100 3 Hsmall) by (unfold float_max; lra).
      rewrite bind_Ok.
      rewrite (math_pow_ok n 1e100 2 Hsmall) by (unfold float_max; lra).
      rewrite bind_Ok. eexists. reflexivity.
    + right. split; [exact Hne |]. split; [exact Hbig |].
      destruct (math_pow_cases n 3) as [-> | ->]; [| right; reflexivity].
      rewrite bind_Ok.
      destruct (math_pow_cases n 2) as [-> | ->]; [| right; reflexivity].
      left. eexists. reflexivity.
Qed.

(** With [y = 0.1858] the call raises. *)
Lemma xy_to_CCT_mccamy1992_raises :
  xy_to_CCT_mccamy1992 (0.3, 0.1858) = Raise ZeroDivisionError.
Proof. unfold xy_to_CCT_mccamy1992. rewrite py_div_zero by lra. reflexivity. Qed.

(** With [n] about 1.2e200 the cube is beyond the largest float and
    [math.pow] raises. *)
Lemma xy_to_CCT_mccamy1992_overflows :
  xy_to_CCT_mccamy1992 (1e200, 1) = Raise OverflowError.
Proof.
  unfold xy_to_CCT_mccamy1992. rewrite py_div_ok by lra. rewrite bind_Ok.
  set (n := (1e200 - 0.3320) / (1 - 0.1858)).
  assert (Hn : 1e199 <= n).
  { unfold n, Rdiv. replace (/ (1 - 0.1858)) with (/ 0.8142) by (f_equal; lra). lra. }
  assert (H3 : math_pow n 3 = Raise OverflowError).
  { unfold math_pow.
    destruct (decide (float_max < Rabs (n ^ 3))) as [_ | Hno]; [reflexivity |].
    exfalso. apply Hno.
    pose proof (pow_incr 1e199 n 3 ltac:(lra)) as Hcube.
    rewrite Rabs_pos_eq by (apply pow_le; lra).
    unfold float_max. lra. }
  rewrite H3. reflexivity.
Qed.

(** ** The minimal distance index *)

Lemma fold_min_le_acc (l : list R) (m : R) : fold_left min_step l m <= m.
Proof.
  revert m. induction l as [| y l IH]; intros m; simpl.
  - lra.
  - specialize (IH (min_step m y)). unfold min_step in *.
    case_decide; lra.
Qed.

Lemma fold_min_le_all (l : list R) (m y : R) :
  In y l -> fold_left min_step l m <= y.
Proof.
  revert m. induction l as [| z l IH]; intros m Hin; simpl in *.
  - contradiction.
  - destruct Hin as [-> | Hin].
    + pose proof (fold_min_le_acc l (min_step m y)) as H.
      unfold min_step in *. case_decide; lra.
    + apply IH. exact Hin.
Qed.

Lemma fold_min_in (l : list R) (m : R) :
  fold_left min_step l m = m \/ In (fold_left min_step l m) l.
Proof.
  revert m. induction l as [| y l IH]; intros m; simpl.
  - left. reflexivity.
  - destruct (IH (min_step m y)) as [Heq | Hin].
    + rewrite Heq. unfold min_step. case_decide; [right; left | left]; reflexivity.
    + right. right. exact Hin.
Qed.

Lemma py_min_spec (l : list R) :
  l <> [] ->
  exists m, py_min l = Ok m /\ In m l /\ forall y, In y l -> m <= y.
Proof.
  destruct l as [| x rest]; [congruence | intros _].
  exists (fold_left min_step rest x). split; [reflexivity |]. split.
  - destruct (fold_min_in rest x) as [Heq | Hin]; [left; symmetry; exact Heq | right; exact Hin].
  - intros y [<- | Hin]; [apply fold_min_le_acc | apply fold_min_le_all; exact Hin].
Qed.

Lemma py_list_index_spec (x : R) (l : list R) :
  In x l ->
  exists i : nat,
    py_list_index x l = Ok i /\ l !! i = Some x /\
    forall (j : nat) (y : R), (j < i)%nat -> l !! j = Some y -> y <> x.
Proof.
  induction l as [| y l IH]; intros Hin; [destruct Hin |].
  simpl. case_decide as Hyx.
  - exists O. subst y. split; [reflexivity |]. split; [reflexivity |].
    intros j z Hj. lia.
  - destruct Hin as [Heq | Hin]; [congruence |].
    destruct (IH Hin) as (i & Hi & Hlook & Hfirst).
    exists (S i). rewrite Hi. split; [reflexivity |]. split; [exact Hlook |].
    intros [| j] z Hj Hz; simpl in Hz.
    + congruence.
    + apply (Hfirst j z); [lia | exact Hz].
Qed.

(** C6.  On a non-empty table the index returned holds a distance that no
    row undercuts, and every row before it holds a strictly larger one. *)
Theorem get_planckian_table_minimal_distance_index_spec
    (planckian_table : list PLANCKIAN_TABLE_TUVD) :
  planckian_table <> [] ->
  exists (i : nat) (row : PLANCKIAN_TABLE_TUVD),
    get_planckian_table_minimal_distance_index planckian_table = Ok i /\
    planckian_table !! i = Some row /\
    (forall (j : nat) (other : PLANCKIAN_TABLE_TUVD),
       planckian_table !! j = Some other -> di row <= di other) /\
    (forall (j : nat) (other : PLANCKIAN_TABLE_TUVD),
       (j < i)%nat -> planckian_table !! j = Some other -> di row < di other).
Proof.
  intros Hne. unfold get_planckian_table_minimal_distance_index.
  assert (Hne' : map di planckian_table <> []) by (destruct planckian_table; simpl; congruence).
  destruct (py_min_spec _ Hne') as (m & Hmin & Hin & Hle).
  rewrite Hmin. simpl.
  destruct (py_list_index_spec m _ Hin) as (i & Hi & Hlook & Hfirst).
  rewrite list_lookup_fmap in Hlook.
  destruct (planckian_table !! i) as [row |] eqn:Hrow; [| discriminate].
  simpl in Hlook. injection Hlook as Hdi.
  exists i, row. rewrite Hdi. split; [exact Hi |]. split; [exact Hrow |].
  assert (Hall : forall j other, planckian_table !! j = Some other -> m <= di other).
  { intros j other Hj. apply Hle, in_map, list_elem_of_In.
    eapply list_elem_of_lookup_2. exact Hj. }
  split; [exact Hall |].
  intros j other Hlt Hj.
  assert (Hneq : di other <> m).
  { apply (Hfirst j); [exact Hlt |]. rewrite list_lookup_fmap, Hj. reflexivity. }
  specialize (Hall j other Hj). lra.
Qed.

(** ** Planckian tables and list access *)

Lemma np_linspace_length (start end_ : R) (count : nat) :
  length (np_linspace start end_ count) = count.
Proof.
  destruct count as [| [| n]]; [reflexivity | reflexivity |].
  unfold np_linspace. rewrite length_map, length_seq. reflexivity.
Qed.

Lemma mapM_Ok {A B} (f : A -> result B) (g : A -> B) (l : list A) :
  (forall a, f a = Ok (g a)) -> mapM f l = Ok (map g l).
Proof.
  intros Hf. induction l as [| a l IH]; [reflexivity |].
  simpl. rewrite Hf. simpl. rewrite IH. reflexivity.
Qed.

Lemma py_getitem_in_range {A} (l : list A) (i : Z) (a : A) :
  (0 <= i)%Z -> l !! Z.to_nat i = Some a -> py_getitem l i = Ok a.
Proof.
  intros Hi Hlook. unfold py_getitem.
  apply lookup_lt_Some in Hlook as Hlt.
  destruct (decide (i < 0)%Z); [lia |].
  destruct (decide (0 <= i < Z.of_nat (length l))%Z); [| lia].
  rewrite Hlook. reflexivity.
Qed.

Lemma minimal_distance_index_in_range (planckian_table : list PLANCKIAN_TABLE_TUVD) :
  planckian_table <> [] ->
  exists i : nat,
    get_planckian_table_minimal_distance_index planckian_table = Ok i /\
    (i < length planckian_table)%nat.
Proof.
  intros Hne. unfold get_planckian_table_minimal_distance_index.
  assert (Hne' : map di planckian_table <> []) by (destruct planckian_table; simpl; congruence).
  destruct (py_min_spec _ Hne') as (m & Hmin & Hin & _).
  rewrite Hmin. simpl.
  destruct (py_list_index_spec m _ Hin) as (i & Hi & Hlook & _).
  exists i. split; [exact Hi |].
  apply lookup_lt_Some in Hlook. rewrite length_map in Hlook. exact Hlook.
Qed.

Section OhnoProperties.

Variable planckian_uv : XYZ_ColourMatchingFunctions -> R -> R * R.

Lemma planckian_table_row_Ok uv cmfs T :
  planckian_table_row planckian_uv uv cmfs T = Ok (planckian_row planckian_uv uv cmfs T).
Proof.
  unfold planckian_table_row, planckian_row. destruct uv as [ux vx].
  destruct (planckian_uv cmfs T) as [ui vi]. simpl fst; simpl snd.
  rewrite math_sqrt_ok by (apply Rplus_le_le_0_compat; apply pow2_ge_0).
  reflexivity.
Qed.

Lemma get_planckian_table_Ok uv cmfs start end_ count :
  get_planckian_table planckian_uv uv cmfs start end_ count =
    Ok (map (planckian_row planckian_uv uv cmfs) (np_linspace start end_ count)).
Proof.
  unfold get_planckian_table. apply mapM_Ok. intros T. apply planckian_table_row_Ok.
Qed.

Lemma get_planckian_table_length uv cmfs start end_ count table :
  get_planckian_table planckian_uv uv cmfs start end_ count = Ok table ->
  length table = count.
Proof.
  rewrite get_planckian_table_Ok. intros [= <-].
  rewrite length_map. apply np_linspace_length.
Qed.


Lemma logged_bind_Ok {A B} (m : logged A) (f : A -> logged B) w a w' r :
  m = (w, Ok a) -> f a = (w', r) -> (m ≫= f) = (w ++ w', r).
Proof. intros -> Hf. simpl. rewrite Hf. reflexivity. Qed.

Lemma lift_bind_Ok {A B} (m : result A) (f : A -> logged B) a :
  m = Ok a -> (lift m ≫= f) = f a.
Proof. intros ->. simpl. destruct (f a). reflexivity. Qed.

Lemma ohno_boundary_policy_spec (planckian_table : list PLANCKIAN_TABLE_TUVD) (idx : nat) :
  (3 <= length planckian_table)%nat -> (idx < length planckian_table)%nat ->
  exists (ws : list string) (index : Z),
    ohno_boundary_policy planckian_table (Z.of_nat idx) = (ws, Ok index) /\
    neighbours_in_range planckian_table index /\
    (idx = 0%nat -> ws = [lowest_bound_warning] /\ index = 1%Z) /\
    (idx = (length planckian_table - 1)%nat ->
       ws = [highest_bound_warning] /\ index = (Z.of_nat idx - 1)%Z) /\
    ((0 < idx < length planckian_table - 1)%nat -> ws = [] /\ index = Z.of_nat idx).
Proof.
  intros Hlen Hidx. unfold ohno_boundary_policy, neighbours_in_range.
  destruct (decide (Z.of_nat idx = 0)%Z) as [H0 | H0];
    [| destruct (decide (Z.of_nat idx = Z.of_nat (length planckian_table) - 1)%Z) as [H1 | H1]].
  - exists [lowest_bound_warning], (Z.of_nat idx + 1)%Z.
    split; [reflexivity |]. repeat split; intros; try lia.
  - exists [highest_bound_warning], (Z.of_nat idx - 1)%Z.
    split; [reflexivity |]. repeat split; intros; try lia.
  - exists [], (Z.of_nat idx).
    split; [reflexivity |]. repeat split; intros; try lia.
Qed.

(** One pass of the cascade on a table of at least three samples. *)
Lemma uv_to_CCT_ohno2013_body_spec uv cmfs (count : nat) (st : cascade_state) :
  (3 <= count)%nat ->
  exists (ws : list string) (planckian_table : list PLANCKIAN_TABLE_TUVD)
         (idx : nat) (index : Z) (Tuvdip Tuvdi Tuvdin : PLANCKIAN_TABLE_TUVD),
    uv_to_CCT_ohno2013_body planckian_uv uv cmfs count st =
      (ws, Ok {| cs_start := Ti Tuvdip; cs_end := Ti Tuvdin;
                 cs_last := Some (planckian_table, index) |}) /\
    length planckian_table = count /\
    get_planckian_table_minimal_distance_index planckian_table = Ok idx /\
    ohno_boundary_policy planckian_table (Z.of_nat idx) = (ws, Ok index) /\
    neighbours_in_range planckian_table index /\
    planckian_table !! Z.to_nat (index - 1) = Some Tuvdip /\
    planckian_table !! Z.to_nat index = Some Tuvdi /\
    planckian_table !! Z.to_nat (index + 1) = Some Tuvdin /\
    py_getitem planckian_table (index - 1) = Ok Tuvdip /\
    py_getitem planckian_table index = Ok Tuvdi /\
    py_getitem planckian_table (index + 1) = Ok Tuvdin.
Proof.
  intros Hcount.
  pose proof (get_planckian_table_Ok uv cmfs (cs_start st) (cs_end st) count) as Htable.
  set (table := map (planckian_row planckian_uv uv cmfs)
                    (np_linspace (cs_start st) (cs_end st) count)) in *.
  pose proof (get_planckian_table_length _ _ _ _ _ _ Htable) as Hlen.
  assert (Hne : table <> []) by (destruct table; simpl in Hlen; [lia | congruence]).
  destruct (minimal_distance_index_in_range table Hne) as (idx & Hidx & Hlt).
  destruct (ohno_boundary_policy_spec table idx) as (ws & index & Hpol & Hrange & _); [lia | exact Hlt |].
  destruct Hrange as [Hlo Hhi].
  destruct (lookup_lt_is_Some_2 table (Z.to_nat (index - 1))) as [Tuvdip Hp]; [lia |].
  destruct (lookup_lt_is_Some_2 table (Z.to_nat index)) as [Tuvdi Hc]; [lia |].
  destruct (lookup_lt_is_Some_2 table (Z.to_nat (index + 1))) as [Tuvdin Hn]; [lia |].
  pose proof (py_getitem_in_range table (index - 1) Tuvdip Hlo Hp) as Gp.
  pose proof (py_getitem_in_range table index Tuvdi ltac:(lia) Hc) as Gc.
  pose proof (py_getitem_in_range table (index + 1) Tuvdin ltac:(lia) Hn) as Gn.
  exists ws, table, idx, index, Tuvdip, Tuvdi, Tuvdin.
  split; [| repeat split; assumption].
  unfold uv_to_CCT_ohno2013_body.
  rewrite (lift_bind_Ok _ _ table Htable).
  rewrite (lift_bind_Ok _ _ (Z.of_nat idx)) by (rewrite Hidx; reflexivity).
  erewrite logged_bind_Ok; [| exact Hpol |].
  2:{ rewrite (lift_bind_Ok _ _ Tuvdip Gp), (lift_bind_Ok _ _ Tuvdin Gn). reflexivity. }
  rewrite app_nil_r. reflexivity.
Qed.

(** The cascade of at least one pass ends on a table and an index whose
    neighbours are in range. *)
Lemma uv_to_CCT_ohno2013_loop_spec uv cmfs (count n : nat) (st : cascade_state) :
  (3 <= count)%nat ->
  exists (ws : list string) (st' : cascade_state)
         (planckian_table : list PLANCKIAN_TABLE_TUVD) (index : Z)
         (Tuvdip Tuvdi Tuvdin : PLANCKIAN_TABLE_TUVD),
    uv_to_CCT_ohno2013_loop planckian_uv uv cmfs count (S n) st = (ws, Ok st') /\
    cs_last st' = Some (planckian_table, index) /\
    length planckian_table = count /\
    neighbours_in_range planckian_table index /\
    py_getitem planckian_table (index - 1) = Ok Tuvdip /\
    py_getitem planckian_table index = Ok Tuvdi /\
    py_getitem planckian_table (index + 1) = Ok Tuvdin.
Proof.
  intros Hcount. revert st. induction n as [| n IH]; intros st.
  - destruct (uv_to_CCT_ohno2013_body_spec uv cmfs count st Hcount)
      as (ws & table & idx & index & p & c & q & Hbody & Hlen & _ & _ & Hrange & _ & _ & _ & Gp & Gc & Gq).
    exists ws, {| cs_start := Ti p; cs_end := Ti q; cs_last := Some (table, index) |},
      table, index, p, c, q.
    split.
    { simpl. erewrite logged_bind_Ok; [| exact Hbody | reflexivity].
      rewrite app_nil_r. reflexivity. }
    split; [reflexivity |]. split; [exact Hlen |]. split; [exact Hrange |].
    split; [exact Gp |]. split; [exact Gc | exact Gq].
  - destruct (uv_to_CCT_ohno2013_body_spec uv cmfs count st Hcount)
      as (ws & table & idx & index & p & c & q & Hbody & _).
    destruct (IH {| cs_start := Ti p; cs_end := Ti q; cs_last := Some (table, index) |})
      as (ws' & st' & table' & index' & p' & c' & q' & Hloop & Hrest).
    exists (ws ++ ws'), st', table', index', p', c', q'.
    split; [| exact Hrest].
    change (uv_to_CCT_ohno2013_loop planckian_uv uv cmfs count (S (S n)) st)
      with (uv_to_CCT_ohno2013_body planckian_uv uv cmfs count st ≫=
              uv_to_CCT_ohno2013_loop planckian_uv uv cmfs count (S n)).
    erewrite logged_bind_Ok; [reflexivity | exact Hbody | exact Hloop].
Qed.

(** C5 (as amended).  With at least three samples, every pass of the
    cascade finds the minimal distance index, warns and moves it inward by
    one when it is the first or the last row, and then reads the rows at
    [index - 1] and [index + 1] in range; the triple of the final fit is
    read in range too. *)
Theorem uv_to_CCT_ohno2013_neighbours_in_range
    (uv : R * R) (cmfs : XYZ_ColourMatchingFunctions) (count : nat) :
  (3 <= count)%nat ->
  (forall st : cascade_state,
     exists (ws : list string) (st' : cascade_state)
            (planckian_table : list PLANCKIAN_TABLE_TUVD) (idx : nat) (index : Z),
       uv_to_CCT_ohno2013_body planckian_uv uv cmfs count st = (ws, Ok st') /\
       cs_last st' = Some (planckian_table, index) /\
       length planckian_table = count /\
       get_planckian_table_minimal_distance_index planckian_table = Ok idx /\
       (idx = 0%nat -> ws = [lowest_bound_warning] /\ index = 1%Z) /\
       (idx = (count - 1)%nat ->
          ws = [highest_bound_warning] /\ index = (Z.of_nat count - 2)%Z) /\
       ((0 < idx < count - 1)%nat -> ws = [] /\ index = Z.of_nat idx) /\
       neighbours_in_range planckian_table index /\
       is_Ok (py_getitem planckian_table (index - 1)) /\
       is_Ok (py_getitem planckian_table (index + 1))) /\
  (forall (start end_ : R) (iterations : Z),
     exists (ws : list string) (st : cascade_state)
            (planckian_table : list PLANCKIAN_TABLE_TUVD) (index : Z),
       uv_to_CCT_ohno2013_loop planckian_uv uv cmfs count
         (Z.to_nat (if decide (iterations <= 0)%Z then 1%Z else iterations))
         {| cs_start := start; cs_end := end_; cs_last := None |} = (ws, Ok st) /\
       cs_last st = Some (planckian_table, index) /\
       length planckian_table = count /\
       neighbours_in_range planckian_table index /\
       is_Ok (py_getitem planckian_table (index - 1)) /\
       is_Ok (py_getitem planckian_table index) /\
       is_Ok (py_getitem planckian_table (index + 1))).
Proof.
  intros Hcount. split.
  - intros st.
    destruct (uv_to_CCT_ohno2013_body_spec uv cmfs count st Hcount)
      as (ws & table & idx & index & p & c & q & Hbody & Hlen & Hidx & Hpol & Hrange
          & _ & _ & _ & Gp & _ & Gq).
    destruct (minimal_distance_index_in_range table) as (idx' & Hidx' & Hlt).
    { destruct table; simpl in Hlen; [lia | congruence]. }
    rewrite Hidx in Hidx'. injection Hidx' as <-.
    destruct (ohno_boundary_policy_spec table idx) as (ws' & index' & Hpol' & _ & H0 & H1 & H2);
      [lia | exact Hlt |].
    rewrite Hpol in Hpol'. injection Hpol' as <- <-.
    exists ws, {| cs_start := Ti p; cs_end := Ti q; cs_last := Some (table, index) |},
      table, idx, index.
    split; [exact Hbody |]. split; [reflexivity |]. split; [exact Hlen |].
    split; [exact Hidx |]. split; [exact H0 |].
    split; [intros Hi; destruct H1 as [-> ->]; [lia | split; [reflexivity | lia]] |].
    split; [intros Hi; apply H2; lia |]. split; [exact Hrange |].
    split; eexists; eassumption.
  - intros start end_ iterations.
    assert (Hn : exists n, Z.to_nat (if decide (iterations <= 0)%Z then 1%Z else iterations) = S n).
    { case_decide; [exists O; reflexivity |].
      exists (Z.to_nat iterations - 1)%nat. lia. }
    destruct Hn as [n ->].
    destruct (uv_to_CCT_ohno2013_loop_spec uv cmfs count n
                {| cs_start := start; cs_end := end_; cs_last := None |} Hcount)
      as (ws & st & table & index & p & c & q & Hloop & Hlast & Hlen & Hrange & Gp & Gc & Gq).
    exists ws, st, table, index.
    split; [exact Hloop |]. split; [exact Hlast |]. split; [exact Hlen |].
    split; [exact Hrange |]. repeat split; eexists; eassumption.
Qed.

End OhnoProperties.

Lemma uv_to_CCT_ohno2013_neighbours_in_range_witness :
  exists (ws : list string) (st : cascade_state)
         (planckian_table : list PLANCKIAN_TABLE_TUVD) (index : Z),
    uv_to_CCT_ohno2013_loop line_locus (0, 0) CIE_1931_2_Degree_Standard_Observer 3
      (Z.to_nat (if decide (6 <= 0)%Z then 1%Z else 6%Z))
      {| cs_start := 1000; cs_end := 100000; cs_last := None |} = (ws, Ok st) /\
    cs_last st = Some (planckian_table, index) /\
    length planckian_table = 3%nat /\
    neighbours_in_range planckian_table index /\
    is_Ok (py_getitem planckian_table (index - 1)) /\
    is_Ok (py_getitem planckian_table index) /\
    is_Ok (py_getitem planckian_table (index + 1)).
Proof.
  apply (uv_to_CCT_ohno2013_neighbours_in_range line_locus (0, 0)
           CIE_1931_2_Degree_Standard_Observer 3).
  lia.
Defined.

(** *** Two samples *)

Lemma two_rows_lowest_index :
  get_planckian_table_minimal_distance_index two_rows_lowest = Ok 0%nat.
Proof.
  unfold get_planckian_table_minimal_distance_index, two_rows_lowest. simpl.
  unfold min_step. repeat case_decide; try lra; reflexivity.
Qed.

Lemma two_rows_highest_index :
  get_planckian_table_minimal_distance_index two_rows_highest = Ok 1%nat.
Proof.
  unfold get_planckian_table_minimal_distance_index, two_rows_highest. simpl.
  unfold min_step. repeat case_decide; try lra; reflexivity.
Qed.

(** On the straight locus, the table of the two samples 1 and 2 for the
    target (0, 0) is [two_rows_lowest]. *)
Lemma line_locus_two_rows :
  get_planckian_table line_locus (0, 0) CIE_1931_2_Degree_Standard_Observer 1 2 2
    = Ok two_rows_lowest.
Proof.
  rewrite get_planckian_table_Ok.
  unfold np_linspace, planckian_row, line_locus, two_rows_lowest. simpl.
  assert (H1 : 1 + 0 * ((2 - 1) / 1) = 1) by lra.
  assert (H2 : 1 + 1 * ((2 - 1) / 1) = 2) by lra.
  rewrite H1, H2.
  assert (S1 : sqrt ((0 - 1) * ((0 - 1) * 1) + (0 - 0) * ((0 - 0) * 1)) = 1)
    by (apply sqrt_lem_1; lra).
  assert (S2 : sqrt ((0 - 2) * ((0 - 2) * 1) + (0 - 0) * ((0 - 0) * 1)) = 2)
    by (apply sqrt_lem_1; lra).
  rewrite S1, S2. reflexivity.
Qed.

Lemma line_locus_two_rows_body :
  uv_to_CCT_ohno2013_body line_locus (0, 0) CIE_1931_2_Degree_Standard_Observer 2
    {| cs_start := 1; cs_end := 2; cs_last := None |}
    = ([lowest_bound_warning], Raise IndexError).
Proof.
  unfold uv_to_CCT_ohno2013_body. simpl cs_start; simpl cs_end.
  rewrite (lift_bind_Ok _ _ two_rows_lowest line_locus_two_rows).
  rewrite (lift_bind_Ok _ _ 0%Z) by (rewrite two_rows_lowest_index; reflexivity).
  reflexivity.
Qed.

(** With two samples the neighbours are not in range.  When the smallest
    distance is first, the index moves to 1 and the row at [1 + 1] does not
    exist; when it is last, the index moves to 0 and [0 - 1] is read from
    the end of the list, the same row as [0 + 1].  The solver itself, on
    two samples, stops with [IndexError] in its first pass. *)
Lemma uv_to_CCT_ohno2013_two_samples :
  (length two_rows_lowest = 2%nat /\
   get_planckian_table_minimal_distance_index two_rows_lowest = Ok 0%nat /\
   ohno_boundary_policy two_rows_lowest 0 = ([lowest_bound_warning], Ok 1%Z) /\
   py_getitem two_rows_lowest (1 + 1) = Raise IndexError) /\
  (length two_rows_highest = 2%nat /\
   get_planckian_table_minimal_distance_index two_rows_highest = Ok 1%nat /\
   ohno_boundary_policy two_rows_highest 1 = ([highest_bound_warning], Ok 0%Z) /\
   ~ neighbours_in_range two_rows_highest 0 /\
   py_getitem two_rows_highest (0 - 1) = py_getitem two_rows_highest (0 + 1)) /\
  uv_to_CCT_ohno2013 line_locus (0, 0) CIE_1931_2_Degree_Standard_Observer 1 2 2 6
    = ([lowest_bound_warning], Raise IndexError).
Proof.
  split; [| split].
  - split; [reflexivity |]. split; [exact two_rows_lowest_index |].
    split; reflexivity.
  - split; [reflexivity |]. split; [exact two_rows_highest_index |].
    split; [reflexivity |]. split; [| reflexivity].
    unfold neighbours_in_range. lia.
  - unfold uv_to_CCT_ohno2013.
    change (Z.to_nat (if decide (6 <= 0)%Z then 1%Z else 6%Z)) with 6%nat.
    cbn [uv_to_CCT_ohno2013_loop]. rewrite line_locus_two_rows_body. reflexivity.
Qed.

(** *** The minimal distance index on an example *)

Lemma get_planckian_table_minimal_distance_index_spec_witness :
  exists (i : nat) (row : PLANCKIAN_TABLE_TUVD),
    get_planckian_table_minimal_distance_index four_rows = Ok i /\
    four_rows !! i = Some row /\
    (forall (j : nat) (other : PLANCKIAN_TABLE_TUVD),
       four_rows !! j = Some other -> di row <= di other) /\
    (forall (j : nat) (other : PLANCKIAN_TABLE_TUVD),
       (j < i)%nat -> four_rows !! j = Some other -> di row < di other).
Proof.
  apply (get_planckian_table_minimal_distance_index_spec four_rows).
  discriminate.
Defined.

Example four_rows_index :
  get_planckian_table_minimal_distance_index four_rows = Ok 1%nat.
Proof.
  unfold get_planckian_table_minimal_distance_index, four_rows. simpl.
  unfold min_step. repeat case_decide; try lra; reflexivity.
Qed.

(** ** The triangular and the parabolic solution *)

Lemma np_div_Ok_inv (a b q : R) : np_div a b = Ok q -> b <> 0 /\ q = a / b.
Proof. unfold np_div. case_decide; [discriminate | intros [= <-]; auto]. Qed.

Lemma np_pow_neg1_Ok_inv (a q : R) : np_pow_neg1 a = Ok q -> a <> 0 /\ q = / a.
Proof. unfold np_pow_neg1. case_decide; [discriminate | intros [= <-]; auto]. Qed.

(** What the parabolic solution returns: the vertex of the parabola of
    [ohno_parabola] and the signed value there. *)
Lemma ohno_parabolic_solution_Ok (sign : R) (p c n : PLANCKIAN_TABLE_TUVD) (T Duv : R) :
  ohno_parabolic_solution sign p c n = Ok (T, Duv) ->
  let '(a, b, c0) := ohno_parabola p c n in
  (Ti n - Ti c) * (Ti p - Ti n) * (Ti c - Ti p) <> 0 /\ a <> 0 /\
  T = - b / (2 * a) /\ Duv = sign * (a * T ^ 2 + b * T + c0).
Proof.
  unfold ohno_parabolic_solution, ohno_parabola.
  destruct (np_pow_neg1 _) as [Xinv |] eqn:HX; [| discriminate].
  apply np_pow_neg1_Ok_inv in HX as [HX ->]. simpl.
  destruct (np_div _ _) as [T' |] eqn:HT; [| discriminate].
  apply np_div_Ok_inv in HT as [Ha ->]. simpl.
  intros [= <- <-].
  split; [exact HX |]. split; [intros H0; apply Ha; rewrite H0; ring |].
  split; reflexivity.
Qed.

(** The parabola goes through the three points [(Ti, di)]. *)
Lemma ohno_parabola_interpolates (p c n : PLANCKIAN_TABLE_TUVD) :
  (Ti n - Ti c) * (Ti p - Ti n) * (Ti c - Ti p) <> 0 ->
  let '(a, b, c0) := ohno_parabola p c n in
  a * Ti p ^ 2 + b * Ti p + c0 = di p /\
  a * Ti c ^ 2 + b * Ti c + c0 = di c /\
  a * Ti n ^ 2 + b * Ti n + c0 = di n.
Proof.
  intros HX. unfold ohno_parabola.
  repeat split; field; repeat split; intros H0; apply HX; rewrite H0; ring.
Qed.

(** C2 (as amended).  The parabolic solution replaces the triangular one
    exactly when the signed triangular Duv is below 0.002, so for every
    negative Duv too; from 0.002 on, the triangular pair is returned as it
    is.  The parabolic pair is the vertex of the parabola through the three
    [(Ti, di)] and the signed value there. *)
Theorem uv_to_CCT_ohno2013_fit_selection
    (uv : R * R) (p c n : PLANCKIAN_TABLE_TUVD) (T Duv sign : R) :
  ohno_triangular_solution uv p c n = Ok (T, Duv, sign) ->
  (Duv < 0.002 ->
     uv_to_CCT_ohno2013_fit uv p c n = ohno_parabolic_solution sign p c n) /\
  (0.002 <= Duv -> uv_to_CCT_ohno2013_fit uv p c n = Ok (T, Duv)) /\
  (forall T' Duv' : R,
     ohno_parabolic_solution sign p c n = Ok (T', Duv') ->
     let '(a, b, c0) := ohno_parabola p c n in
     T' = - b / (2 * a) /\ Duv' = sign * (a * T' ^ 2 + b * T' + c0) /\
     a * Ti p ^ 2 + b * Ti p + c0 = di p /\
     a * Ti c ^ 2 + b * Ti c + c0 = di c /\
     a * Ti n ^ 2 + b * Ti n + c0 = di n).
Proof.
  intros Htri. split; [| split].
  - intros Hlt. unfold uv_to_CCT_ohno2013_fit. rewrite Htri. simpl.
    case_decide; [reflexivity | lra].
  - intros Hge. unfold uv_to_CCT_ohno2013_fit. rewrite Htri. simpl.
    case_decide; [lra | reflexivity].
  - intros T' Duv' Hpar.
    pose proof (ohno_parabolic_solution_Ok sign p c n T' Duv' Hpar) as H1.
    destruct (ohno_parabola p c n) as [[a b] c0] eqn:Hcoef.
    destruct H1 as (HX & Ha & HT & HD).
    pose proof (ohno_parabola_interpolates p c n HX) as H2.
    rewrite Hcoef in H2. destruct H2 as (Hp & Hc & Hn).
    repeat split; assumption.
Qed.

(** *** A target below the locus *)

Lemma sqrt_value (x y : R) : 0 <= y -> y * y = x -> sqrt x = y.
Proof. intros Hy Hx. apply sqrt_lem_1; [rewrite <- Hx; nra | exact Hy | exact Hx]. Qed.

Lemma pair_eq (a b a' b' : R) : a = a' -> b = b' -> (a, b) = (a', b').
Proof. intros -> ->. reflexivity. Qed.

Lemma triple_eq (a b c a' b' c' : R) :
  a = a' -> b = b' -> c = c' -> (a, b, c) = (a', b', c').
Proof. intros -> -> ->. reflexivity. Qed.

Lemma below_locus_triangular :
  ohno_triangular_solution below_locus_uv below_locus_p below_locus_c below_locus_n
    = Ok (1720, -0.0024, -1).
Proof.
  unfold ohno_triangular_solution, below_locus_uv, below_locus_p, below_locus_n.
  cbn [Ti ui vi di].
  rewrite math_sqrt_ok by nra.
  rewrite (sqrt_value _ 0.005) by lra.
  rewrite bind_Ok.
  rewrite (py_div_ok _ (2 * 0.005)) by lra. rewrite bind_Ok.
  rewrite !(py_div_ok _ 0.005) by lra. rewrite !bind_Ok.
  unfold py_pow_half.
  rewrite (sqrt_value _ 0.0024) by lra.
  repeat case_decide; try (exfalso; lra).
  rewrite bind_Ok.
  unfold mret, result_ret. apply f_equal. apply triple_eq; lra.
Qed.

Lemma below_locus_parabolic :
  ohno_parabolic_solution (-1) below_locus_p below_locus_c below_locus_n
    = Ok (1750, -0.0024375).
Proof.
  unfold ohno_parabolic_solution, below_locus_p, below_locus_c, below_locus_n.
  cbn [Ti ui vi di].
  unfold np_pow_neg1. case_decide; [exfalso; lra |]. rewrite bind_Ok.
  unfold np_div. case_decide; [exfalso; lra |]. rewrite bind_Ok.
  unfold mret, result_ret. apply f_equal. apply pair_eq; lra.
Qed.

(** The triangular Duv is -0.0024, of absolute value at least 0.002, and
    the pair returned is the parabolic one, not the triangular one. *)
Lemma uv_to_CCT_ohno2013_fit_negative_Duv :
  ohno_triangular_solution below_locus_uv below_locus_p below_locus_c below_locus_n
    = Ok (1720, -0.0024, -1) /\
  0.002 <= Rabs (-0.0024) /\
  uv_to_CCT_ohno2013_fit below_locus_uv below_locus_p below_locus_c below_locus_n
    = Ok (1750, -0.0024375) /\
  (1750, -0.0024375) <> (1720, -0.0024).
Proof.
  split; [exact below_locus_triangular |].
  split; [rewrite Rabs_left; lra |].
  split.
  - unfold uv_to_CCT_ohno2013_fit. rewrite below_locus_triangular. simpl.
    case_decide; [exact below_locus_parabolic | lra].
  - intros [= H _]. lra.
Qed.

Lemma uv_to_CCT_ohno2013_fit_selection_witness :
  (-0.0024 < 0.002 ->
     uv_to_CCT_ohno2013_fit below_locus_uv below_locus_p below_locus_c below_locus_n
       = ohno_parabolic_solution (-1) below_locus_p below_locus_c below_locus_n) /\
  (0.002 <= -0.0024 ->
     uv_to_CCT_ohno2013_fit below_locus_uv below_locus_p below_locus_c below_locus_n
       = Ok (1720, -0.0024)).
Proof.
  pose proof (uv_to_CCT_ohno2013_fit_selection below_locus_uv below_locus_p
                below_locus_c below_locus_n 1720 (-0.0024) (-1) below_locus_triangular)
    as (H1 & H2 & _).
  split; [exact H1 | exact H2].
Defined.

(** ** Method dispatch *)

Section DispatchProperties.

Variable planckian_uv : XYZ_ColourMatchingFunctions -> R -> R * R.

Lemma UV_TO_CCT_METHODS_Ohno :
  UV_TO_CCT_METHODS planckian_uv !! "Ohno 2013"
    = Some (uv_to_CCT_ohno2013_callable planckian_uv).
Proof. reflexivity. Qed.

Lemma CCT_TO_UV_METHODS_Ohno :
  CCT_TO_UV_METHODS planckian_uv !! "Ohno 2013"
    = Some (CCT_to_uv_ohno2013_callable planckian_uv).
Proof. reflexivity. Qed.

Lemma robertson_observer_check_rejects (kwargs : keywords) (cmfs : XYZ_ColourMatchingFunctions) :
  kw_cmfs kwargs = Some cmfs ->
  name cmfs <> "CIE 1931 2 Degree Standard Observer" ->
  robertson_observer_check kwargs = Raise (ValueError robertson_observer_msg).
Proof.
  intros Hkw Hname. unfold robertson_observer_check. rewrite Hkw.
  case_decide; [reflexivity | contradiction].
Qed.

Lemma robertson_observer_check_accepts (kwargs : keywords) :
  (kw_cmfs kwargs = None \/
   exists cmfs, kw_cmfs kwargs = Some cmfs /\
                name cmfs = "CIE 1931 2 Degree Standard Observer") ->
  robertson_observer_check kwargs = Ok tt.
Proof.
  intros [Hkw | (cmfs & Hkw & Hname)]; unfold robertson_observer_check; rewrite Hkw.
  - reflexivity.
  - case_decide; [contradiction | reflexivity].
Qed.

(** C9.  In [uv_to_CCT] and [CCT_to_uv] every method name other than
    "Ohno 2013" takes the Robertson branch: with a [cmfs] keyword whose name
    is not the CIE 1931 2 degree observer the call raises the observer
    [ValueError], whatever the method name and with no warning emitted, the
    registry not yet consulted. *)
Theorem robertson_branch_observer_validation
    (method : string) (kwargs : keywords) (cmfs : XYZ_ColourMatchingFunctions)
    (uv : R * R) (CCT Duv : R) :
  method <> "Ohno 2013" ->
  kw_cmfs kwargs = Some cmfs ->
  name cmfs <> "CIE 1931 2 Degree Standard Observer" ->
  uv_to_CCT planckian_uv uv method kwargs
    = ([], Raise (ValueError robertson_observer_msg)) /\
  CCT_to_uv planckian_uv CCT Duv method kwargs
    = ([], Raise (ValueError robertson_observer_msg)).
Proof.
  intros Hmethod Hkw Hname.
  pose proof (robertson_observer_check_rejects kwargs cmfs Hkw Hname) as Hcheck.
  unfold uv_to_CCT, CCT_to_uv.
  destruct (decide (method = "Ohno 2013")) as [Heq | _]; [contradiction |].
  rewrite Hcheck. split; reflexivity.
Qed.

(** C4 (as amended).  With a method name that the registry does not hold,
    each of the four dispatch functions fails.  [xy_to_CCT] and
    [CCT_to_xy] fail on calling the [None] that the lookup returned, and so
    do [uv_to_CCT] and [CCT_to_uv] when no [cmfs] keyword is given or it
    names the CIE 1931 2 degree observer; given a [cmfs] keyword of another
    name, these two fail with the observer [ValueError] first. *)
Theorem dispatch_unknown_method (method : string) :
  (UV_TO_CCT_METHODS planckian_uv !! method = None ->
   forall (uv : R * R) (kwargs : keywords),
     ((kw_cmfs kwargs = None \/
       exists cmfs, kw_cmfs kwargs = Some cmfs /\
                    name cmfs = "CIE 1931 2 Degree Standard Observer") ->
      uv_to_CCT planckian_uv uv method kwargs = ([], Raise none_not_callable)) /\
     ((exists cmfs, kw_cmfs kwargs = Some cmfs /\
                    name cmfs <> "CIE 1931 2 Degree Standard Observer") ->
      uv_to_CCT planckian_uv uv method kwargs
        = ([], Raise (ValueError robertson_observer_msg))) /\
     is_Raise (uv_to_CCT planckian_uv uv method kwargs).2) /\
  (CCT_TO_UV_METHODS planckian_uv !! method = None ->
   forall (CCT Duv : R) (kwargs : keywords),
     ((kw_cmfs kwargs = None \/
       exists cmfs, kw_cmfs kwargs = Some cmfs /\
                    name cmfs = "CIE 1931 2 Degree Standard Observer") ->
      CCT_to_uv planckian_uv CCT Duv method kwargs = ([], Raise none_not_callable)) /\
     ((exists cmfs, kw_cmfs kwargs = Some cmfs /\
                    name cmfs <> "CIE 1931 2 Degree Standard Observer") ->
      CCT_to_uv planckian_uv CCT Duv method kwargs
        = ([], Raise (ValueError robertson_observer_msg))) /\
     is_Raise (CCT_to_uv planckian_uv CCT Duv method kwargs).2) /\
  (XY_TO_CCT_METHODS !! method = None ->
   forall (xy : R * R) (kwargs : keywords),
     xy_to_CCT xy method kwargs = Raise none_not_callable) /\
  (CCT_TO_XY_METHODS !! method = None ->
   forall CCT : R, CCT_to_xy CCT method = Raise none_not_callable).
Proof.
  split; [| split; [| split]].
  - intros Hnone uv kwargs. unfold uv_to_CCT.
    destruct (decide (method = "Ohno 2013")) as [-> | _];
      [rewrite UV_TO_CCT_METHODS_Ohno in Hnone; discriminate |].
    rewrite Hnone. split; [| split].
    + intros Hok. rewrite (robertson_observer_check_accepts kwargs Hok). reflexivity.
    + intros (cmfs & Hkw & Hname).
      rewrite (robertson_observer_check_rejects kwargs cmfs Hkw Hname). reflexivity.
    + destruct (robertson_observer_check kwargs) as [[] | e]; eexists; reflexivity.
  - intros Hnone CCT Duv kwargs. unfold CCT_to_uv.
    destruct (decide (method = "Ohno 2013")) as [-> | _];
      [rewrite CCT_TO_UV_METHODS_Ohno in Hnone; discriminate |].
    rewrite Hnone. split; [| split].
    + intros Hok. rewrite (robertson_observer_check_accepts kwargs Hok). reflexivity.
    + intros (cmfs & Hkw & Hname).
      rewrite (robertson_observer_check_rejects kwargs cmfs Hkw Hname). reflexivity.
    + destruct (robertson_observer_check kwargs) as [[] | e]; eexists; reflexivity.
  - intros Hnone xy kwargs. unfold xy_to_CCT. rewrite Hnone. reflexivity.
  - intros Hnone CCT. unfold CCT_to_xy. rewrite Hnone. reflexivity.
Qed.

End DispatchProperties.

(** *** An unknown method name *)

Lemma bogus_1900_unknown :
  UV_TO_CCT_METHODS line_locus !! "Bogus 1900" = None /\
  CCT_TO_UV_METHODS line_locus !! "Bogus 1900" = None /\
  XY_TO_CCT_METHODS !! "Bogus 1900" = None /\
  CCT_TO_XY_METHODS !! "Bogus 1900" = None.
Proof. repeat split; reflexivity. Qed.

Lemma robertson_branch_observer_validation_witness :
  uv_to_CCT line_locus (0.2, 0.3) "Bogus 1900" cmfs_10_degree_keywords
    = ([], Raise (ValueError robertson_observer_msg)) /\
  CCT_to_uv line_locus 6500 0 "Bogus 1900" cmfs_10_degree_keywords
    = ([], Raise (ValueError robertson_observer_msg)).
Proof.
  apply (robertson_branch_observer_validation line_locus "Bogus 1900"
           cmfs_10_degree_keywords CIE_1964_10_Degree_Standard_Observer
           (0.2, 0.3) 6500 0).
  - discriminate.
  - reflexivity.
  - discriminate.
Defined.

(** With the unknown name "Bogus 1900" and a [cmfs] keyword naming the
    10 degree observer, [uv_to_CCT] and [CCT_to_uv] fail with the observer
    [ValueError], which is not the error of the missing method. *)
Lemma dispatch_unknown_method_observer_error :
  UV_TO_CCT_METHODS line_locus !! "Bogus 1900" = None /\
  uv_to_CCT line_locus (0.2, 0.3) "Bogus 1900" cmfs_10_degree_keywords
    = ([], Raise (ValueError robertson_observer_msg)) /\
  CCT_TO_UV_METHODS line_locus !! "Bogus 1900" = None /\
  CCT_to_uv line_locus 6500 0 "Bogus 1900" cmfs_10_degree_keywords
    = ([], Raise (ValueError robertson_observer_msg)) /\
  ValueError robertson_observer_msg <> none_not_callable.
Proof.
  split; [reflexivity |]. split; [reflexivity |].
  split; [reflexivity |]. split; [reflexivity |]. discriminate.
Qed.

Lemma dispatch_unknown_method_witness :
  uv_to_CCT line_locus (0.2, 0.3) "Bogus 1900" no_keywords = ([], Raise none_not_callable) /\
  CCT_to_uv line_locus 6500 0 "Bogus 1900" no_keywords = ([], Raise none_not_callable) /\
  xy_to_CCT (0.31271, 0.32902) "Bogus 1900" no_keywords = Raise none_not_callable /\
  CCT_to_xy 6500 "Bogus 1900" = Raise none_not_callable.
Proof.
  destruct (dispatch_unknown_method line_locus "Bogus 1900") as (Huv & Hcct & Hxy & Hxy').
  split; [apply (Huv ltac:(reflexivity) (0.2, 0.3) no_keywords); left; reflexivity |].
  split; [apply (Hcct ltac:(reflexivity) 6500 0 no_keywords); left; reflexivity |].
  split; [apply (Hxy ltac:(reflexivity)) | apply (Hxy' ltac:(reflexivity))].
Defined.

(** ** Robertson (1968): the forward walk *)

Lemma robertson_lines_lookup (i : nat) :
  (i <= 30)%nat ->
  exists wr, ROBERTSON_ISOTEMPERATURE_LINES !! i = Some wr /\
             0 <= ruvt_r wr /\ ((1 <= i)%nat -> 10 <= ruvt_r wr).
Proof.
  intros Hi.
  do 31 (destruct i as [| i];
         [eexists; split; [reflexivity | simpl; split; [lra | intros; first [lia | lra]]] |]).
  lia.
Qed.

Lemma slope_length_pos (t : R) : 0 < sqrt (1 + t * t).
Proof. apply sqrt_lt_R0. nra. Qed.

Lemma line_du_pos (wr : ROBERTSON_ISOTEMPERATURE_LINES_RUVT) : 0 < line_du wr.
Proof. unfold line_du. apply Rdiv_lt_0_compat; [lra | apply slope_length_pos]. Qed.

Lemma line_direction_Ok (wr : ROBERTSON_ISOTEMPERATURE_LINES_RUVT) :
  line_direction (ruvt_t wr) = Ok (line_du wr, line_dv wr).
Proof.
  unfold line_direction, line_du, line_dv.
  pose proof (slope_length_pos (ruvt_t wr)) as Hlen.
  rewrite math_sqrt_ok by nra. rewrite bind_Ok.
  rewrite !py_div_ok by lra. reflexivity.
Qed.

Lemma uv_to_CCT_robertson1968_body_spec (u v : R) (i : nat) (st : walk_state) :
  (1 <= i <= 30)%nat -> walk_invariant u v i st ->
  (exists wr st',
     ROBERTSON_ISOTEMPERATURE_LINES !! i = Some wr /\
     0 < line_dt u v wr /\ i <> 30%nat /\
     uv_to_CCT_robertson1968_body u v i st = Ok (Continue st') /\
     walk_invariant u v (S i) st') \/
  (exists f T Duv,
     uv_to_CCT_robertson1968_body u v i st = Ok (Break (T, Duv)) /\
     robertson_break_at u v i f T Duv).
Proof.
  intros Hi Hinv. destruct st as [[last_dt last_du] last_dv].
  destruct (robertson_lines_lookup i) as (wr & Hwr & Hr0 & Hr10); [lia |].
  destruct (robertson_lines_lookup (i - 1)) as (wp & Hwp & Hp0 & _); [lia |].
  specialize (Hr10 ltac:(lia)).
  unfold uv_to_CCT_robertson1968_body, py_getitem_nat.
  rewrite Hwr, Hwp. rewrite !bind_Ok. rewrite line_direction_Ok, bind_Ok.
  cbv zeta.
  change (- (u - ruvt_u wr) * line_dv wr + (v - ruvt_v wr) * line_du wr)
    with (line_dt u v wr).
  pose proof (line_du_pos wr) as Hdu. pose proof (line_du_pos wp) as Hdup.
  destruct (decide (line_dt u v wr <= 0 \/ i = 30%nat)) as [Hbreak | Hgo].
  - right.
    set (dt := - (if decide (0 < line_dt u v wr) then 0 else line_dt u v wr)).
    assert (Hdt : 0 <= dt) by (unfold dt; case_decide; lra).
    assert (Hf : exists f,
               (if decide (i = 1%nat) then mret 0 else py_div dt (last_dt + dt)) = Ok f /\
               (i = 1%nat -> f = 0) /\
               (i <> 1%nat -> 0 < line_dt u v wp + dt /\ f = dt / (line_dt u v wp + dt)) /\
               0 <= f < 1 /\
               last_du * f = line_du wp * f /\ last_dv * f = line_dv wp * f).
    { destruct (decide (i = 1%nat)) as [H1 | H1].
      - exists 0. split; [reflexivity |].
        split; [reflexivity |]. split; [contradiction |].
        split; [lra |]. split; ring.
      - destruct Hinv as [? | (wp' & Hwp' & Hst & Hpos)]; [contradiction |].
        rewrite Hwp in Hwp'. injection Hwp' as <-.
        injection Hst as -> -> ->.
        exists (dt / (line_dt u v wp + dt)). rewrite py_div_ok by lra.
        split; [reflexivity |]. split; [contradiction |].
        split; [intros _; split; [lra | reflexivity] |].
        assert (Hfm : dt / (line_dt u v wp + dt) * (line_dt u v wp + dt) = dt)
          by (field; lra).
        assert (Hf0 : 0 <= dt / (line_dt u v wp + dt)).
        { apply Rmult_le_pos; [exact Hdt |]. left. apply Rinv_0_lt_compat. lra. }
        split; [split; [exact Hf0 | nra] |]. split; reflexivity. }
    destruct Hf as (f & Hfeq & Hf1 & Hfn & Hfrange & Hlu & Hlv).
    rewrite Hfeq, bind_Ok. rewrite Hlu, Hlv.
    assert (Hr : 0 < ruvt_r wp * f + ruvt_r wr * (1 - f)) by nra.
    rewrite py_div_ok by lra. rewrite bind_Ok.
    set (du' := line_du wr * (1 - f) + line_du wp * f).
    set (dv' := line_dv wr * (1 - f) + line_dv wp * f).
    assert (Hdu' : 0 < du') by (unfold du'; nra).
    assert (Hsq : 0 < du' * du' + dv' * dv') by nra.
    rewrite math_sqrt_ok by lra. rewrite bind_Ok.
    pose proof (sqrt_lt_R0 _ Hsq) as Hlen'.
    rewrite !py_div_ok by lra. rewrite !bind_Ok.
    eexists f, _, _. split; [reflexivity |].
    exists wr, wp. split; [exact Hwr |]. split; [exact Hwp |]. split; [exact Hbreak |].
    cbv zeta. fold dt. split; [exact Hf1 |]. split; [exact Hfn |].
    split; [exact Hfrange |]. split; [exact Hr |]. split; reflexivity.
  - left. exists wr, (line_dt u v wr, line_du wr, line_dv wr).
    split; [reflexivity |].
    assert (Hpos : 0 < line_dt u v wr).
    { destruct (Rlt_le_dec 0 (line_dt u v wr)) as [Hlt | Hle]; [exact Hlt |].
      exfalso. apply Hgo. left. exact Hle. }
    split; [exact Hpos |].
    split; [intros H30; apply Hgo; right; exact H30 |].
    split; [reflexivity |].
    right. exists wr. replace (S i - 1)%nat with i by lia.
    split; [exact Hwr |]. split; [reflexivity | exact Hpos].
Qed.

Lemma uv_to_CCT_robertson1968_loop_spec (u v : R) (n : nat) :
  forall (k : nat) (st : walk_state),
    (1 <= k <= 30)%nat -> (k + n = 31)%nat ->
    walk_invariant u v k st ->
    (forall j wj, (1 <= j < k)%nat ->
                  ROBERTSON_ISOTEMPERATURE_LINES !! j = Some wj -> 0 < line_dt u v wj) ->
    exists (i : nat) (f T Duv : R),
      (k <= i <= 30)%nat /\
      uv_to_CCT_robertson1968_loop u v (seq k n) st = Ok (T, Duv) /\
      robertson_break_at u v i f T Duv /\
      (forall j wj, (1 <= j < i)%nat ->
                    ROBERTSON_ISOTEMPERATURE_LINES !! j = Some wj -> 0 < line_dt u v wj).
Proof.
  induction n as [| n IH]; intros k st Hk Hkn Hinv Hbefore; [lia |].
  simpl seq. cbn [uv_to_CCT_robertson1968_loop].
  destruct (uv_to_CCT_robertson1968_body_spec u v k st Hk Hinv)
    as [(wr & st' & Hwr & Hpos & H30 & Hbody & Hinv') | (f & T & Duv & Hbody & Hbreak)].
  - rewrite Hbody, bind_Ok.
    destruct (IH (S k) st') as (i & f & T & Duv & Hi & Hloop & Hbreak & Hall);
      [lia | lia | exact Hinv' | |].
    + intros j wj Hj Hlook.
      destruct (decide (j = k)) as [-> | Hne].
      * rewrite Hwr in Hlook. injection Hlook as <-. exact Hpos.
      * apply (Hbefore j wj); [lia | exact Hlook].
    + exists i, f, T, Duv. split; [lia |]. split; [exact Hloop |].
      split; [exact Hbreak | exact Hall].
  - rewrite Hbody, bind_Ok.
    exists k, f, T, Duv. split; [lia |]. split; [reflexivity |].
    split; [exact Hbreak | exact Hbefore].
Qed.

(** C10.  [uv_to_CCT_robertson1968] returns for every [uv].  The walk
    breaks at an index between 1 and 30, the first line with [dt <= 0] or
    else the last of the table; where the fraction is a quotient its
    denominator [last_dt + dt] is positive, and at index 1 the fraction is
    0; the fraction lies in [0, 1); the blended reciprocal temperature is
    positive, and [T] is its quotient into 1e6. *)
Theorem uv_to_CCT_robertson1968_total (u v : R) :
  exists (i : nat) (wr_ruvt wr_ruvt_previous : ROBERTSON_ISOTEMPERATURE_LINES_RUVT)
         (f T Duv : R),
    (1 <= i <= 30)%nat /\
    ROBERTSON_ISOTEMPERATURE_LINES !! i = Some wr_ruvt /\
    ROBERTSON_ISOTEMPERATURE_LINES !! (i - 1)%nat = Some wr_ruvt_previous /\
    (forall j wj, (1 <= j < i)%nat ->
                  ROBERTSON_ISOTEMPERATURE_LINES !! j = Some wj -> 0 < line_dt u v wj) /\
    (line_dt u v wr_ruvt <= 0 \/ i = 30%nat) /\
    (i = 1%nat -> f = 0) /\
    (i <> 1%nat ->
       let dt := - (if decide (0 < line_dt u v wr_ruvt) then 0 else line_dt u v wr_ruvt) in
       let last_dt := line_dt u v wr_ruvt_previous in
       0 < last_dt + dt /\ f = dt / (last_dt + dt)) /\
    0 <= f < 1 /\
    0 < ruvt_r wr_ruvt_previous * f + ruvt_r wr_ruvt * (1 - f) /\
    T = 1.0e6 / (ruvt_r wr_ruvt_previous * f + ruvt_r wr_ruvt * (1 - f)) /\
    0 < T /\
    uv_to_CCT_robertson1968 (u, v) = Ok (T, Duv).
Proof.
  destruct (uv_to_CCT_robertson1968_loop_spec u v 30 1 (0, 0, 0))
    as (i & f & T & Duv & Hi & Hloop & Hbreak & Hall);
    [lia | lia | left; reflexivity | intros j wj Hj; lia |].
  destruct Hbreak as (wr & wp & Hwr & Hwp & Hstop & Hf1 & Hfn & Hfrange & Hr & HT & _).
  exists i, wr, wp, f, T, (- Duv).
  split; [exact Hi |]. split; [exact Hwr |]. split; [exact Hwp |].
  split; [exact Hall |]. split; [exact Hstop |]. split; [exact Hf1 |].
  split; [exact Hfn |]. split; [exact Hfrange |]. split; [exact Hr |].
  split; [exact HT |].
  split; [rewrite HT; apply Rdiv_lt_0_compat; lra |].
  unfold uv_to_CCT_robertson1968, py_range. simpl Nat.sub.
  rewrite Hloop. reflexivity.
Qed.

(** ** Robertson (1968): the round trip *)

(** *** Real analysis of one segment *)

(** Two unit vectors and their blend. *)
Section Blend.

Variables d1 d2 e1 e2 : R.
Hypothesis Hd : d1 * d1 + d2 * d2 = 1.
Hypothesis He : e1 * e1 + e2 * e2 = 1.
Variable kappa0 : R.
Hypothesis Hk0 : 0 < kappa0.
Hypothesis Hkappa : kappa0 <= d1 * e1 + d2 * e2.

Lemma kappa_le_1 : d1 * e1 + d2 * e2 <= 1.
Proof.
  pose proof (Rle_0_sqr (d1 - e1)) as H1. pose proof (Rle_0_sqr (d2 - e2)) as H2.
  unfold Rsqr in *. lra.
Qed.

Variable f : R.
Hypothesis Hf : 0 <= f <= 1.

Let w1 := d1 * f + e1 * (1 - f).
Let w2 := d2 * f + e2 * (1 - f).

Lemma blend_sq_bounds : kappa0 * kappa0 <= w1 * w1 + w2 * w2 <= 1.
Proof.
  pose proof kappa_le_1 as Hk1.
  assert (Hsq : w1 * w1 + w2 * w2
                = f * f + (1 - f) * (1 - f) + 2 * f * (1 - f) * (d1 * e1 + d2 * e2)).
  { unfold w1, w2. 
    replace (f * f) with (f * f * (d1 * d1 + d2 * d2)) by (rewrite Hd; ring).
    replace ((1 - f) * (1 - f)) with ((1 - f) * (1 - f) * (e1 * e1 + e2 * e2))
      by (rewrite He; ring).
    ring. }
  rewrite Hsq. set (k := d1 * e1 + d2 * e2) in *.
  assert (H0 : 0 <= f * (1 - f)) by nra.
  split.
  - assert (Hkk : kappa0 * kappa0 <= kappa0) by nra.
    assert (Hq : f * (1 - f) <= 1 / 4).
    { pose proof (Rle_0_sqr (f - 1 / 2)) as Hs. unfold Rsqr in Hs. lra. }
    assert (Hp : f * (1 - f) * (1 - k) <= 1 / 4 * (1 - k)).
    { apply Rmult_le_compat_r; lra. }
    lra.
  - assert (Hp : 0 <= f * (1 - f) * (1 - k)) by (apply Rmult_le_pos; lra).
    lra.
Qed.

Lemma blend_norm_bounds : kappa0 <= sqrt (w1 * w1 + w2 * w2) <= 1.
Proof.
  destruct blend_sq_bounds as [Hlo Hhi]. split.
  - rewrite <- (sqrt_square kappa0) by lra. apply sqrt_le_1_alt. exact Hlo.
  - rewrite <- sqrt_1. apply sqrt_le_1_alt. exact Hhi.
Qed.

End Blend.

(** One segment of the table: the inverse offsets a point of the chord,
    the forward walk brackets it between the same two lines. *)
Section Segment.

Variables ua va ub vb : R.        (* the anchors of the lines i and i+1 *)
Variables d1 d2 e1 e2 : R.        (* their unit directions *)
Hypothesis Hd : d1 * d1 + d2 * d2 = 1.
Hypothesis He : e1 * e1 + e2 * e2 = 1.

Variables f Duv n : R.
Hypothesis Hn : 0 < n.

Let w1 := d1 * f + e1 * (1 - f).
Let w2 := d2 * f + e2 * (1 - f).
Let pu := ua * f + ub * (1 - f) + w1 / n * - Duv.
Let pv := va * f + vb * (1 - f) + w2 / n * - Duv.

Let a := - (ub - ua) * e2 + (vb - va) * e1.
Let b := - (ub - ua) * d2 + (vb - va) * d1.
Let s := - e1 * d2 + e2 * d1.

Lemma segment_dt_prev :
  - (pu - ua) * d2 + (pv - va) * d1 = (1 - f) * (b - Duv * s / n).
Proof. unfold pu, pv, w1, w2, b, s. field. lra. Qed.

Lemma segment_dt_next :
  - (pu - ub) * e2 + (pv - vb) * e1 = - (f * (a - Duv * s / n)).
Proof. unfold pu, pv, w1, w2, a, s. field. lra. Qed.

(** The distance to any other line [(uj, vj)] of direction [(g1, g2)]. *)
Lemma segment_dt_other (uj vj g1 g2 : R) :
  - (pu - uj) * g2 + (pv - vj) * g1
  = f * ((- (ua - uj) * g2 + (va - vj) * g1) - Duv * (- d1 * g2 + d2 * g1) / n)
    + (1 - f) * ((- (ub - uj) * g2 + (vb - vj) * g1) - Duv * (- e1 * g2 + e2 * g1) / n).
Proof. unfold pu, pv, w1, w2. field. lra. Qed.

End Segment.

(** The forward fraction against the inverse one. *)
Section Fraction.

Variables f a' b' amin eta : R.
Hypothesis Hf : 0 <= f <= 1.
Hypothesis Hamin : 0 < amin.
Hypothesis Ha : amin <= a'.
Hypothesis Hb : amin <= b'.
Hypothesis Heta : Rabs (a' - b') <= eta.

Let den := (1 - f) * b' + f * a'.
Let f' := f * a' / den.

Lemma fraction_den : amin <= den.
Proof.
  unfold den.
  assert (H1 : (1 - f) * amin <= (1 - f) * b') by (apply Rmult_le_compat_l; lra).
  assert (H2 : f * amin <= f * a') by (apply Rmult_le_compat_l; lra).
  lra.
Qed.

Lemma fraction_diff : f' - f = f * (1 - f) * (a' - b') / den.
Proof.
  pose proof fraction_den as Hden. unfold f'. unfold den in *. field. lra.
Qed.

Lemma fraction_range : 0 <= f' <= 1.
Proof.
  pose proof fraction_den as Hden.
  assert (Hinv : 0 < / den) by (apply Rinv_0_lt_compat; lra).
  assert (Hfa : 0 <= f * a') by (apply Rmult_le_pos; lra).
  assert (Hfb : 0 <= (1 - f) * b') by (apply Rmult_le_pos; lra).
  unfold f', Rdiv. split.
  - apply Rmult_le_pos; lra.
  - assert (Hone : den * / den = 1) by (field; lra).
    assert (Hle : f * a' * / den <= den * / den).
    { apply Rmult_le_compat_r; [lra | unfold den; lra]. }
    lra.
Qed.

Lemma fraction_lt_1 : f < 1 -> f' < 1.
Proof.
  intros Hlt. pose proof fraction_den as Hden.
  assert (Hinv : 0 < / den) by (apply Rinv_0_lt_compat; lra).
  assert (Hfb : 0 < (1 - f) * b') by (apply Rmult_lt_0_compat; lra).
  assert (Hone : den * / den = 1) by (field; lra).
  assert (Hlt' : f * a' * / den < den * / den).
  { apply Rmult_lt_compat_r; [lra | unfold den; lra]. }
  unfold f', Rdiv. lra.
Qed.

Lemma fraction_close : Rabs (f' - f) <= eta / (4 * amin).
Proof.
  pose proof fraction_den as Hden.
  rewrite fraction_diff.
  assert (Hq : 0 <= f * (1 - f) <= 1 / 4).
  { split; [apply Rmult_le_pos; lra |].
    pose proof (Rle_0_sqr (f - 1 / 2)) as Hs. unfold Rsqr in Hs. lra. }
  assert (Heta0 : 0 <= eta) by (pose proof (Rabs_pos (a' - b')); lra).
  unfold Rdiv. rewrite (Rabs_mult _ (/ den)), (Rabs_mult (f * (1 - f))).
  rewrite (Rabs_pos_eq (f * (1 - f))) by lra.
  rewrite (Rabs_pos_eq (/ den)) by (left; apply Rinv_0_lt_compat; lra).
  assert (Hinv : / den <= / amin) by (apply Rinv_le_contravar; lra).
  assert (Hinv0 : 0 < / den) by (apply Rinv_0_lt_compat; lra).
  assert (Hinva : 0 < / amin) by (apply Rinv_0_lt_compat; lra).
  assert (H1 : f * (1 - f) * Rabs (a' - b') <= 1 / 4 * eta).
  { apply Rmult_le_compat; try lra. apply Rabs_pos. }
  assert (H2 : f * (1 - f) * Rabs (a' - b') * / den <= 1 / 4 * eta * / amin).
  { apply Rmult_le_compat; try lra.
    apply Rmult_le_pos; [lra | apply Rabs_pos]. }
  replace (eta * / (4 * amin)) with (1 / 4 * eta * / amin) by (field; lra).
  exact H2.
Qed.

End Fraction.

(** The projection the forward walk reports against the offset the inverse
    applied. *)
Section Projection.

Variables ua va ub vb : R.
Variables d1 d2 e1 e2 : R.
Hypothesis Hd : d1 * d1 + d2 * d2 = 1.
Hypothesis He : e1 * e1 + e2 * e2 = 1.
Hypothesis Hde : 0 <= d1 * e1 + d2 * e2.

Variables f f' Duv n n' : R.
Hypothesis Hf : 0 <= f <= 1.
Hypothesis Hf' : 0 <= f' <= 1.

Let w1 := d1 * f + e1 * (1 - f).
Let w2 := d2 * f + e2 * (1 - f).
Let w1' := e1 * (1 - f') + d1 * f'.
Let w2' := e2 * (1 - f') + d2 * f'.

Variable kappa0 : R.
Hypothesis Hk0 : 0 < kappa0.
Hypothesis Hn : kappa0 <= n.
Hypothesis Hn' : kappa0 <= n'.
Hypothesis Hnn : n * n = w1 * w1 + w2 * w2.
Hypothesis Hnn' : n' * n' = w1' * w1' + w2' * w2'.

Let pu := ua * f + ub * (1 - f) + w1 / n * - Duv.
Let pv := va * f + vb * (1 - f) + w2 / n * - Duv.
Let s := - e1 * d2 + e2 * d1.

Let Duv_walk :=
  (pu - (ua * f' + ub * (1 - f'))) * (w1' / n')
  + (pv - (va * f' + vb * (1 - f'))) * (w2' / n').

Let c := (w1 * w1' + w2 * w2') / (n * n').
Let G := (ua - ub) * w1' + (va - vb) * w2'.

Lemma projection_split : - Duv_walk - Duv = - Duv * (1 - c) - (f - f') * G / n'.
Proof.
  unfold Duv_walk, pu, pv, c, G. field. lra.
Qed.

Lemma blend_dot_nonneg : 0 <= w1 * w1' + w2 * w2'.
Proof.
  assert (Heq : w1 * w1' + w2 * w2'
                = f * f' + (1 - f) * (1 - f')
                  + (f * (1 - f') + (1 - f) * f') * (d1 * e1 + d2 * e2)).
  { unfold w1, w2, w1', w2'.
    replace (f * f') with (f * f' * (d1 * d1 + d2 * d2)) by (rewrite Hd; ring).
    replace ((1 - f) * (1 - f')) with ((1 - f) * (1 - f') * (e1 * e1 + e2 * e2))
      by (rewrite He; ring).
    ring. }
  rewrite Heq.
  assert (0 <= f * f') by (apply Rmult_le_pos; lra).
  assert (0 <= (1 - f) * (1 - f')) by (apply Rmult_le_pos; lra).
  assert (0 <= f * (1 - f')) by (apply Rmult_le_pos; lra).
  assert (0 <= (1 - f) * f') by (apply Rmult_le_pos; lra).
  assert (0 <= (f * (1 - f') + (1 - f) * f') * (d1 * e1 + d2 * e2))
    by (apply Rmult_le_pos; lra).
  lra.
Qed.

Lemma blend_cross : w1 * w2' - w2 * w1' = (f - f') * s.
Proof. unfold w1, w2, w1', w2', s. ring. Qed.

Lemma blend_lagrange :
  (w1 * w1' + w2 * w2') * (w1 * w1' + w2 * w2')
  + (w1 * w2' - w2 * w1') * (w1 * w2' - w2 * w1') = (n * n) * (n' * n').
Proof. rewrite Hnn, Hnn'. unfold w1, w2, w1', w2'. ring. Qed.

Lemma cosine_defect : 0 <= 1 - c <= ((f - f') * s / (n * n')) * ((f - f') * s / (n * n')).
Proof.
  pose proof blend_dot_nonneg as Hdot. pose proof blend_lagrange as Hlag.
  rewrite blend_cross in Hlag.
  assert (Hp : 0 < n * n') by (apply Rmult_lt_0_compat; lra).
  set (q := / (n * n')).
  assert (Hq : 0 < q) by (apply Rinv_0_lt_compat; exact Hp).
  assert (Hqp : q * (n * n') = 1) by (unfold q; field; lra).
  assert (Hc : c = (w1 * w1' + w2 * w2') * q) by reflexivity.
  set (x := (f - f') * s * q).
  assert (Hx : (f - f') * s / (n * n') = x) by reflexivity.
  rewrite Hx.
  assert (Hc0 : 0 <= c) by (rewrite Hc; apply Rmult_le_pos; lra).
  assert (Hcx : c * c + x * x = 1).
  { rewrite Hc. unfold x.
    replace ((w1 * w1' + w2 * w2') * q * ((w1 * w1' + w2 * w2') * q)
             + (f - f') * s * q * ((f - f') * s * q))
      with (((w1 * w1' + w2 * w2') * (w1 * w1' + w2 * w2')
             + (f - f') * s * ((f - f') * s)) * (q * q)) by ring.
    rewrite Hlag.
    replace (n * n * (n' * n') * (q * q)) with ((q * (n * n')) * (q * (n * n'))) by ring.
    rewrite Hqp. ring. }
  assert (Hc1 : c <= 1) by nra.
  split; nra.
Qed.

Variables D eps sigma mu : R.
Hypothesis HDuv : Rabs Duv <= D.
Hypothesis Heps : Rabs (f - f') <= eps.
Hypothesis Hsigma : Rabs s <= sigma.
Hypothesis Hmud : Rabs ((ua - ub) * d1 + (va - vb) * d2) <= mu.
Hypothesis Hmue : Rabs ((ua - ub) * e1 + (va - vb) * e2) <= mu.

Lemma chord_projection_bound : Rabs G <= mu.
Proof.
  assert (HG : G = f' * ((ua - ub) * d1 + (va - vb) * d2)
                   + (1 - f') * ((ua - ub) * e1 + (va - vb) * e2))
    by (unfold G, w1', w2'; ring).
  rewrite HG.
  eapply Rle_trans; [apply Rabs_triang |].
  rewrite !Rabs_mult.
  rewrite (Rabs_pos_eq f') by lra. rewrite (Rabs_pos_eq (1 - f')) by lra.
  assert (H1 : f' * Rabs ((ua - ub) * d1 + (va - vb) * d2) <= f' * mu)
    by (apply Rmult_le_compat_l; lra).
  assert (H2 : (1 - f') * Rabs ((ua - ub) * e1 + (va - vb) * e2) <= (1 - f') * mu)
    by (apply Rmult_le_compat_l; lra).
  lra.
Qed.

Lemma projection_close :
  Rabs (- Duv_walk - Duv)
  <= D * ((eps * sigma / (kappa0 * kappa0)) * (eps * sigma / (kappa0 * kappa0)))
     + eps * mu / kappa0.
Proof.
  rewrite projection_split.
  pose proof cosine_defect as [Hc0 Hc1].
  pose proof chord_projection_bound as HG.
  assert (HD0 : 0 <= D) by (pose proof (Rabs_pos Duv); lra).
  assert (He0 : 0 <= eps) by (pose proof (Rabs_pos (f - f')); lra).
  assert (Hs0 : 0 <= sigma) by (pose proof (Rabs_pos s); lra).
  assert (Hm0 : 0 <= mu) by (pose proof (Rabs_pos G); lra).
  assert (Hp : 0 < n * n') by (apply Rmult_lt_0_compat; lra).
  assert (Hkk : 0 < kappa0 * kappa0) by (apply Rmult_lt_0_compat; lra).
  assert (Hkp : kappa0 * kappa0 <= n * n') by (apply Rmult_le_compat; lra).
  set (x := (f - f') * s / (n * n')) in *.
  set (B := eps * sigma / (kappa0 * kappa0)).
  assert (HB0 : 0 <= B).
  { unfold B, Rdiv. apply Rmult_le_pos; [apply Rmult_le_pos; lra |].
    left. apply Rinv_0_lt_compat. exact Hkk. }
  assert (Hx : Rabs x <= B).
  { unfold x, B, Rdiv. rewrite !Rabs_mult.
    rewrite (Rabs_pos_eq (/ (n * n'))) by (left; apply Rinv_0_lt_compat; exact Hp).
    apply Rmult_le_compat.
    - apply Rmult_le_pos; apply Rabs_pos.
    - left. apply Rinv_0_lt_compat. exact Hp.
    - apply Rmult_le_compat; try apply Rabs_pos; assumption.
    - apply Rinv_le_contravar; assumption. }
  assert (Hxx : x * x <= B * B).
  { replace (x * x) with (Rabs x * Rabs x).
    - apply Rmult_le_compat; try apply Rabs_pos; exact Hx.
    - rewrite <- Rabs_mult. apply Rabs_pos_eq. nra. }
  assert (H1 : Rabs (- Duv * (1 - c)) <= D * (B * B)).
  { rewrite Rabs_mult, Rabs_Ropp. rewrite (Rabs_pos_eq (1 - c)) by lra.
    apply Rmult_le_compat; try lra. apply Rabs_pos. }
  assert (H2 : Rabs ((f - f') * G / n') <= eps * mu / kappa0).
  { unfold Rdiv. rewrite !Rabs_mult.
    rewrite (Rabs_pos_eq (/ n')) by (left; apply Rinv_0_lt_compat; lra).
    apply Rmult_le_compat.
    - apply Rmult_le_pos; apply Rabs_pos.
    - left. apply Rinv_0_lt_compat. lra.
    - apply Rmult_le_compat; try apply Rabs_pos; assumption.
    - apply Rinv_le_contravar; lra. }
  unfold Rminus at 1.
  eapply Rle_trans; [apply Rabs_triang |].
  rewrite Rabs_Ropp. lra.
Qed.

End Projection.

(** The temperatures of two fractions between two reciprocal temperatures. *)
Section Temperature.

Variables ra rb f f' eps : R.
Hypothesis Hr : 0 < ra < rb.
Hypothesis Hf : 0 <= f <= 1.
Hypothesis Hf' : 0 <= f' <= 1.
Hypothesis Heps : Rabs (f' - f) <= eps.

Lemma blend_reciprocal_ge (g : R) : 0 <= g <= 1 -> ra <= ra * g + rb * (1 - g).
Proof. intros Hg. nra. Qed.

Lemma temperature_close :
  Rabs (1.0e6 / (ra * f' + rb * (1 - f')) - 1.0e6 / (ra * f + rb * (1 - f)))
  <= 1.0e6 * eps * (rb - ra) / (ra * ra).
Proof.
  pose proof (blend_reciprocal_ge f Hf) as Hrf.
  pose proof (blend_reciprocal_ge f' Hf') as Hrf'.
  assert (HM : 0 < 1.0e6) by lra.
  set (M := 1.0e6) in *. clearbody M.
  set (r := ra * f + rb * (1 - f)) in *.
  set (r' := ra * f' + rb * (1 - f')) in *.
  assert (Hdiff : M / r' - M / r = M * (((f' - f) * (rb - ra)) * / (r * r'))).
  { unfold r, r' in *. field. split; lra. }
  rewrite Hdiff.
  assert (Hrr : ra * ra <= r * r') by (apply Rmult_le_compat; lra).
  assert (Hpos : 0 < ra * ra) by (apply Rmult_lt_0_compat; lra).
  assert (Hinv : / (r * r') <= / (ra * ra)) by (apply Rinv_le_contravar; lra).
  assert (Hinv0 : 0 < / (r * r')) by (apply Rinv_0_lt_compat; lra).
  assert (He0 : 0 <= eps) by (pose proof (Rabs_pos (f' - f)); lra).
  rewrite (Rabs_mult M), (Rabs_mult _ (/ (r * r'))), (Rabs_mult (f' - f)).
  rewrite (Rabs_pos_eq M) by lra.
  rewrite (Rabs_pos_eq (rb - ra)) by lra.
  rewrite (Rabs_pos_eq (/ (r * r'))) by lra.
  replace (M * eps * (rb - ra) / (ra * ra)) with (M * (eps * (rb - ra) * / (ra * ra)))
    by (unfold Rdiv; ring).
  apply Rmult_le_compat_l; [lra |].
  apply Rmult_le_compat; try lra.
  - apply Rmult_le_pos; [apply Rabs_pos | lra].
  - apply Rmult_le_compat_r; lra.
Qed.

End Temperature.

(** *** The table: lengths, pairs of lines, neighbouring lines *)

Lemma sqrt_enclosure (x lo hi : R) :
  0 <= lo -> lo * lo <= x -> x <= hi * hi -> 0 <= hi -> lo <= sqrt x <= hi.
Proof.
  intros Hlo Hlx Hxh Hhi. split.
  - rewrite <- (sqrt_square lo) by exact Hlo. apply sqrt_le_1_alt. exact Hlx.
  - rewrite <- (sqrt_square hi) by exact Hhi. apply sqrt_le_1_alt. exact Hxh.
Qed.

Lemma line_len_enclosure (k : nat) (wk : ROBERTSON_ISOTEMPERATURE_LINES_RUVT) (lo : R) :
  ROBERTSON_ISOTEMPERATURE_LINES !! k = Some wk ->
  line_len_lo !! k = Some lo ->
  1 <= lo /\ lo <= line_len wk <= lo + 1e-12.
Proof.
  intros Hk Hlo.
  do 31 (destruct k as [| k];
         [ injection Hk as <-; injection Hlo as <-;
           split; [lra |]; unfold line_len; cbn [ruvt_t];
           apply sqrt_enclosure; lra |]).
  discriminate.
Qed.

Lemma line_len_pos (w : ROBERTSON_ISOTEMPERATURE_LINES_RUVT) : 0 < line_len w.
Proof. apply slope_length_pos. Qed.

Lemma line_du_eq (w : ROBERTSON_ISOTEMPERATURE_LINES_RUVT) : line_du w = / line_len w.
Proof. unfold line_du. fold (line_len w). unfold Rdiv. ring. Qed.

Lemma line_dv_eq (w : ROBERTSON_ISOTEMPERATURE_LINES_RUVT) :
  line_dv w = ruvt_t w * / line_len w.
Proof. reflexivity. Qed.

Lemma lines_cross_eq (wk wj : ROBERTSON_ISOTEMPERATURE_LINES_RUVT) :
  lines_cross wk wj = (ruvt_t wk - ruvt_t wj) * (/ line_len wk * / line_len wj).
Proof. unfold lines_cross. rewrite !line_du_eq, !line_dv_eq. ring. Qed.

Lemma lines_dot_eq (wk wj : ROBERTSON_ISOTEMPERATURE_LINES_RUVT) :
  lines_dot wk wj = (1 + ruvt_t wk * ruvt_t wj) * (/ line_len wk * / line_len wj).
Proof. unfold lines_dot. rewrite !line_du_eq, !line_dv_eq. ring. Qed.

Lemma line_dt_eq (u v : R) (w : ROBERTSON_ISOTEMPERATURE_LINES_RUVT) :
  line_dt u v w = (- (u - ruvt_u w) * ruvt_t w + (v - ruvt_v w)) * / line_len w.
Proof. unfold line_dt. rewrite line_du_eq, line_dv_eq. ring. Qed.

Lemma line_direction_unit (w : ROBERTSON_ISOTEMPERATURE_LINES_RUVT) :
  line_du w * line_du w + line_dv w * line_dv w = 1.
Proof.
  rewrite line_du_eq, line_dv_eq. pose proof (line_len_pos w) as Hpos.
  assert (Hsq : line_len w * line_len w = 1 + ruvt_t w * ruvt_t w).
  { unfold line_len. apply sqrt_sqrt. nra. }
  replace (/ line_len w * / line_len w + ruvt_t w * / line_len w * (ruvt_t w * / line_len w))
    with ((1 + ruvt_t w * ruvt_t w) * / (line_len w * line_len w)) by (field; lra).
  rewrite Hsq. field. nra.
Qed.

Lemma pair_separated_from (wj wk : ROBERTSON_ISOTEMPERATURE_LINES_RUVT) (lo : R) :
  0 < lo -> lo <= line_len wk ->
  ruvt_t wk <= ruvt_t wj ->
  round_trip_Duv_bound * (ruvt_t wj - ruvt_t wk)
  < kappa0 * (- (ruvt_u wk - ruvt_u wj) * ruvt_t wj + (ruvt_v wk - ruvt_v wj)) * lo ->
  pair_separated wj wk.
Proof.
  intros Hlo Hlen Ht Hnum. unfold pair_separated.
  rewrite lines_cross_eq, line_dt_eq.
  set (N := - (ruvt_u wk - ruvt_u wj) * ruvt_t wj + (ruvt_v wk - ruvt_v wj)) in *.
  pose proof (line_len_pos wj) as Hlj. pose proof (line_len_pos wk) as Hlk.
  assert (Hij : 0 < / line_len wj) by (apply Rinv_0_lt_compat; exact Hlj).
  assert (Hik : 0 < / line_len wk) by (apply Rinv_0_lt_compat; exact Hlk).
  assert (Hik' : / line_len wk <= / lo) by (apply Rinv_le_contravar; assumption).
  assert (Hilo : 0 < / lo) by (apply Rinv_0_lt_compat; exact Hlo).
  rewrite Rabs_mult. rewrite (Rabs_left1 (ruvt_t wk - ruvt_t wj)) by lra.
  rewrite (Rabs_pos_eq (/ line_len wk * / line_len wj))
    by (apply Rmult_le_pos; lra).
  unfold round_trip_Duv_bound, kappa0 in *.
  assert (HD : 0 <= 0.05 * (ruvt_t wj - ruvt_t wk)) by lra.
  assert (H1 : 0.05 * (ruvt_t wj - ruvt_t wk) * / line_len wk
               <= 0.05 * (ruvt_t wj - ruvt_t wk) * / lo)
    by (apply Rmult_le_compat_l; lra).
  assert (H2 : 0.05 * (ruvt_t wj - ruvt_t wk) * / lo < 0.99 * N).
  { apply (Rmult_lt_reg_r lo); [exact Hlo |].
    replace (0.05 * (ruvt_t wj - ruvt_t wk) * / lo * lo)
      with (0.05 * (ruvt_t wj - ruvt_t wk)) by (field; lra).
    exact Hnum. }
  assert (H3 : 0.05 * (ruvt_t wj - ruvt_t wk) * / line_len wk * / line_len wj
               < 0.99 * N * / line_len wj)
    by (apply Rmult_lt_compat_r; lra).
  lra.
Qed.

Lemma pair_separated_all (j k : nat) (wj wk : ROBERTSON_ISOTEMPERATURE_LINES_RUVT) :
  (1 <= j < k)%nat ->
  ROBERTSON_ISOTEMPERATURE_LINES !! j = Some wj ->
  ROBERTSON_ISOTEMPERATURE_LINES !! k = Some wk ->
  pair_separated wj wk.
Proof.
  intros Hjk Hj Hk.
  destruct (line_len_lo !! k) as [lo |] eqn:Hlo.
  2:{ apply lookup_ge_None in Hlo. apply lookup_lt_Some in Hk.
      simpl in Hlo, Hk. lia. }
  destruct (line_len_enclosure k wk lo Hk Hlo) as (H1 & Hlen & _).
  apply (pair_separated_from wj wk lo); [lra | exact Hlen | |];
    clear Hlen H1;
    (do 31 (destruct j as [| j];
       [ try lia; injection Hj as <-;
         do 31 (destruct k as [| k];
                [ try lia; injection Hk as <-; injection Hlo as <-;
                  unfold round_trip_Duv_bound, kappa0; cbn [ruvt_t ruvt_u ruvt_v]; lra |]);
         discriminate Hk |]);
     discriminate Hj).
Qed.

Lemma segment_inverse_bounds (wr wn : ROBERTSON_ISOTEMPERATURE_LINES_RUVT) (lr ln : R) :
  1 <= lr /\ lr <= line_len wr <= lr + 1e-12 ->
  1 <= ln /\ ln <= line_len wn <= ln + 1e-12 ->
  / (lr + 1e-12) <= / line_len wr <= / lr /\
  / (ln + 1e-12) <= / line_len wn <= / ln /\
  / (lr + 1e-12) * / (ln + 1e-12) <= / line_len wr * / line_len wn <= / lr * / ln.
Proof.
  intros (Hr1 & Hr2 & Hr3) (Hn1 & Hn2 & Hn3).
  assert (Hir : / (lr + 1e-12) <= / line_len wr <= / lr)
    by (split; apply Rinv_le_contravar; lra).
  assert (Hin : / (ln + 1e-12) <= / line_len wn <= / ln)
    by (split; apply Rinv_le_contravar; lra).
  assert (Hpr : 0 < / (lr + 1e-12)) by (apply Rinv_0_lt_compat; lra).
  assert (Hpn : 0 < / (ln + 1e-12)) by (apply Rinv_0_lt_compat; lra).
  split; [exact Hir |]. split; [exact Hin |].
  split; apply Rmult_le_compat; lra.
Qed.

Ltac segment_case i Hr Hn amin eta mu sigma :=
  let Hir := fresh "Hir" in
  let Hin := fresh "Hin" in
  let Hp := fresh "Hp" in
  let ir := fresh "ir" in
  let inn := fresh "inn" in
  let p := fresh "p" in
  destruct (segment_inverse_bounds _ _ _ _
              (line_len_enclosure i _ _ Hr eq_refl)
              (line_len_enclosure (S i) _ _ Hn eq_refl)) as (Hir & Hin & Hp);
  unfold segment_certificate;
  rewrite !line_dt_eq, lines_dot_eq, lines_cross_eq, !line_du_eq, !line_dv_eq;
  match type of Hr with
  | _ = Some ?wr =>
      match type of Hn with
      | _ = Some ?wn =>
          replace (/ line_len wn * / line_len wr)
            with (/ line_len wr * / line_len wn) by ring;
          set (ir := / line_len wr) in *; set (inn := / line_len wn) in *;
          set (p := ir * inn) in *; clearbody p inn ir
      end
  end;
  injection Hr as <-; injection Hn as <-;
  cbn [ruvt_r ruvt_t ruvt_u ruvt_v]; cbv zeta;
  exists amin, eta, mu, sigma;
  unfold round_trip_Duv_bound, round_trip_T_tolerance, round_trip_Duv_tolerance, kappa0;
  repeat split; try (apply Rabs_le; split); lra.

Lemma segment_certificate_all (i : nat)
    (wr wn : ROBERTSON_ISOTEMPERATURE_LINES_RUVT) :
  (1 <= i <= 29)%nat ->
  ROBERTSON_ISOTEMPERATURE_LINES !! i = Some wr ->
  ROBERTSON_ISOTEMPERATURE_LINES !! (i + 1)%nat = Some wn ->
  exists amin eta mu sigma : R, segment_certificate wr wn amin eta mu sigma.
Proof.
  intros Hi Hr Hn.
  destruct i as [| i]; [lia |].
  destruct i as [| i]; [segment_case 1%nat Hr Hn 0.0019955 0.0000000346 0.00002001 0.013074 |].
  destruct i as [| i]; [segment_case 2%nat Hr Hn 0.0020509 0.0000000948 0.00002800 0.015444 |].
  destruct i as [| i]; [segment_case 3%nat Hr Hn 0.0021055 0.0000000059 0.00002700 0.017763 |].
  destruct i as [| i]; [segment_case 4%nat Hr Hn 0.0021530 0.0000000648 0.00003497 0.020050 |].
  destruct i as [| i]; [segment_case 5%nat Hr Hn 0.0021712 0.0000000418 0.00003854 0.022249 |].
  destruct i as [| i]; [segment_case 6%nat Hr Hn 0.0021870 0.0000000593 0.00004402 0.024338 |].
  destruct i as [| i]; [segment_case 7%nat Hr Hn 0.0021770 0.0000001145 0.00005047 0.026305 |].
  destruct i as [| i]; [segment_case 8%nat Hr Hn 0.0021549 0.0000000455 0.00005189 0.028119 |].
  destruct i as [| i]; [segment_case 9%nat Hr Hn 0.0021200 0.0000001157 0.00005784 0.029772 |].
  destruct i as [| i]; [segment_case 10%nat Hr Hn 0.0051455 0.0000010163 0.00038342 0.080413 |].
  destruct i as [| i]; [segment_case 11%nat Hr Hn 0.0048791 0.0000003650 0.00040605 0.086663 |].
  destruct i as [| i]; [segment_case 12%nat Hr Hn 0.0046362 0.0000005885 0.00042000 0.089918 |].
  destruct i as [| i]; [segment_case 13%nat Hr Hn 0.0044973 0.0000009794 0.00042115 0.090374 |].
  destruct i as [| i]; [segment_case 14%nat Hr Hn 0.0044652 0.0000004565 0.00040035 0.088356 |].
  destruct i as [| i]; [segment_case 15%nat Hr Hn 0.0045390 0.0000002379 0.00037522 0.084447 |].
  destruct i as [| i]; [segment_case 16%nat Hr Hn 0.0047030 0.0000002019 0.00034722 0.079119 |].
  destruct i as [| i]; [segment_case 17%nat Hr Hn 0.0049471 0.0000004622 0.00032112 0.072873 |].
  destruct i as [| i]; [segment_case 18%nat Hr Hn 0.0052059 0.0000002603 0.00028736 0.066222 |].
  destruct i as [| i]; [segment_case 19%nat Hr Hn 0.0055096 0.0000001931 0.00025702 0.059541 |].
  destruct i as [| i]; [segment_case 20%nat Hr Hn 0.0057811 0.0000001110 0.00022678 0.053070 |].
  destruct i as [| i]; [segment_case 21%nat Hr Hn 0.0060628 0.0000003714 0.00020614 0.046975 |].
  destruct i as [| i]; [segment_case 22%nat Hr Hn 0.0062924 0.0000001456 0.00017702 0.041379 |].
  destruct i as [| i]; [segment_case 23%nat Hr Hn 0.0065179 0.0000003010 0.00015994 0.036305 |].
  destruct i as [| i]; [segment_case 24%nat Hr Hn 0.0066864 0.0000000341 0.00013280 0.031767 |].
  destruct i as [| i]; [segment_case 25%nat Hr Hn 0.0068412 0.0000000306 0.00011543 0.027737 |].
  destruct i as [| i]; [segment_case 26%nat Hr Hn 0.0069509 0.0000002535 0.00010929 0.024177 |].
  destruct i as [| i]; [segment_case 27%nat Hr Hn 0.0070376 0.0000000464 0.00008749 0.021053 |].
  destruct i as [| i]; [segment_case 28%nat Hr Hn 0.0070987 0.0000000047 0.00007378 0.018323 |].
  destruct i as [| i]; [segment_case 29%nat Hr Hn 0.0071259 0.0000000207 0.00006449 0.015936 |].
  lia.
Qed.

(** *** From the segment to the two functions *)


Lemma sum_squares_nonneg (x y : R) : 0 <= x * x + y * y.
Proof. nra. Qed.

Lemma kappa0_pos : 0 < kappa0.
Proof. unfold kappa0. lra. Qed.

Lemma blend_len_bounds wr wn f :
  kappa0 <= lines_dot wr wn -> 0 <= f <= 1 -> kappa0 <= blend_len wr wn f <= 1.
Proof.
  intros Hk Hf. unfold blend_len.
  apply (blend_norm_bounds (line_du wr) (line_dv wr) (line_du wn) (line_dv wn)
           (line_direction_unit wr) (line_direction_unit wn) kappa0 kappa0_pos Hk f Hf).
Qed.

Lemma blend_len_sqr wr wn f :
  blend_len wr wn f * blend_len wr wn f
  = (line_du wr * f + line_du wn * (1 - f)) * (line_du wr * f + line_du wn * (1 - f))
    + (line_dv wr * f + line_dv wn * (1 - f)) * (line_dv wr * f + line_dv wn * (1 - f)).
Proof. unfold blend_len. apply sqrt_sqrt. apply sum_squares_nonneg. Qed.

Lemma offset_reach (Duv x n D : R) :
  0 < kappa0 <= n -> Rabs Duv <= D -> Rabs (Duv * x / n) <= D * Rabs x / kappa0.
Proof.
  intros [Hk Hn] HD. unfold Rdiv. rewrite !Rabs_mult.
  rewrite (Rabs_pos_eq (/ n)) by (left; apply Rinv_0_lt_compat; lra).
  apply Rmult_le_compat.
  - apply Rmult_le_pos; apply Rabs_pos.
  - left. apply Rinv_0_lt_compat. lra.
  - apply Rmult_le_compat_r; [apply Rabs_pos | exact HD].
  - apply Rinv_le_contravar; lra.
Qed.

Lemma bracket_pos (Duv x n D m : R) :
  0 < kappa0 <= n -> Rabs Duv <= D -> D * Rabs x < kappa0 * m -> 0 < m - Duv * x / n.
Proof.
  intros Hn HD Hsep. pose proof (offset_reach Duv x n D Hn HD) as Hreach.
  assert (Hlt : D * Rabs x / kappa0 < m).
  { apply (Rmult_lt_reg_r kappa0); [lra |].
    replace (D * Rabs x / kappa0 * kappa0) with (D * Rabs x) by (field; lra). lra. }
  pose proof (Rle_abs (Duv * x / n)). lra.
Qed.

Lemma bracket_ge (Duv x n D m sigma amin : R) :
  0 < kappa0 <= n -> Rabs Duv <= D -> Rabs x <= sigma ->
  amin <= m - D * sigma / kappa0 -> amin <= m - Duv * x / n.
Proof.
  intros Hn HD Hx Ham. pose proof (offset_reach Duv x n D Hn HD) as Hreach.
  assert (HD0 : 0 <= D) by (pose proof (Rabs_pos Duv); lra).
  assert (Hle : D * Rabs x / kappa0 <= D * sigma / kappa0).
  { unfold Rdiv. apply Rmult_le_compat_r; [left; apply Rinv_0_lt_compat; lra |].
    apply Rmult_le_compat_l; assumption. }
  pose proof (Rle_abs (Duv * x / n)). lra.
Qed.

(** The distances from the lines to the point the inverse returns. *)
Lemma inverse_uv_dt (wr wn wj : ROBERTSON_ISOTEMPERATURE_LINES_RUVT) (f Duv : R) :
  0 < blend_len wr wn f ->
  line_dt (inverse_uv wr wn f Duv).1 (inverse_uv wr wn f Duv).2 wj
  = f * (line_dt (ruvt_u wr) (ruvt_v wr) wj - Duv * lines_cross wr wj / blend_len wr wn f)
    + (1 - f) * (line_dt (ruvt_u wn) (ruvt_v wn) wj
                 - Duv * lines_cross wn wj / blend_len wr wn f).
Proof.
  intros Hn.
  exact (segment_dt_other (ruvt_u wr) (ruvt_v wr) (ruvt_u wn) (ruvt_v wn)
           (line_du wr) (line_dv wr) (line_du wn) (line_dv wn) f Duv
           (blend_len wr wn f) Hn (ruvt_u wj) (ruvt_v wj) (line_du wj) (line_dv wj)).
Qed.

Lemma line_dt_self (w : ROBERTSON_ISOTEMPERATURE_LINES_RUVT) :
  line_dt (ruvt_u w) (ruvt_v w) w = 0.
Proof. unfold line_dt. ring. Qed.

Lemma lines_cross_self (w : ROBERTSON_ISOTEMPERATURE_LINES_RUVT) : lines_cross w w = 0.
Proof. unfold lines_cross. ring. Qed.

Lemma lines_cross_swap (w1 w2 : ROBERTSON_ISOTEMPERATURE_LINES_RUVT) :
  lines_cross w1 w2 = - lines_cross w2 w1.
Proof. unfold lines_cross. ring. Qed.

Lemma uv_to_CCT_robertson1968_break (u v : R) :
  exists (i : nat) (f T Duv : R),
    (1 <= i <= 30)%nat /\
    uv_to_CCT_robertson1968 (u, v) = Ok (T, - Duv) /\
    robertson_break_at u v i f T Duv /\
    (forall j wj, (1 <= j < i)%nat ->
                  ROBERTSON_ISOTEMPERATURE_LINES !! j = Some wj -> 0 < line_dt u v wj).
Proof.
  destruct (uv_to_CCT_robertson1968_loop_spec u v 30 1 (0, 0, 0))
    as (i & f & T & Duv & Hi & Hloop & Hbreak & Hall);
    [lia | lia | left; reflexivity | intros j wj Hj; lia |].
  exists i, f, T, Duv. split; [exact Hi |]. split; [| split; assumption].
  unfold uv_to_CCT_robertson1968, py_range. simpl Nat.sub.
  rewrite Hloop. reflexivity.
Qed.

(** The forward walk on the point that the inverse returns inside a
    segment: it breaks at the next line, with the fraction
    [forward_fraction]. *)
Lemma forward_of_inverse (i : nat) (wr wn : ROBERTSON_ISOTEMPERATURE_LINES_RUVT)
    (f Duv : R) :
  (1 <= i <= 29)%nat ->
  ROBERTSON_ISOTEMPERATURE_LINES !! i = Some wr ->
  ROBERTSON_ISOTEMPERATURE_LINES !! (i + 1)%nat = Some wn ->
  0 <= f < 1 -> Rabs Duv <= round_trip_Duv_bound ->
  exists T' Dint : R,
    uv_to_CCT_robertson1968 (inverse_uv wr wn f Duv) = Ok (T', - Dint) /\
    T' = 1.0e6 / (ruvt_r wr * forward_fraction wr wn f Duv
                  + ruvt_r wn * (1 - forward_fraction wr wn f Duv)) /\
    Dint = walk_Duv (inverse_uv wr wn f Duv).1 (inverse_uv wr wn f Duv).2 wn wr
             (forward_fraction wr wn f Duv).
Proof.
  intros Hi Hr Hn Hf HD.
  destruct (segment_certificate_all i wr wn Hi Hr Hn) as (amin & eta & mu & sigma & Hcert).
  unfold segment_certificate in Hcert. cbv zeta in Hcert.
  destruct Hcert as (Hamin & Hrr & Hkap & Hsig & Ha & Hb & _).
  assert (Hf01 : 0 <= f <= 1) by lra.
  pose proof (blend_len_bounds wr wn f Hkap Hf01) as Hnb.
  pose proof kappa0_pos as Hk0.
  unfold forward_fraction.
  set (a' := offset_a wr wn f Duv). set (b' := offset_b wr wn f Duv).
  unfold offset_a in a'. unfold offset_b in b'.
  set (n := blend_len wr wn f) in *.
  assert (Hn0 : 0 < n) by lra.
  set (pu := (inverse_uv wr wn f Duv).1).
  set (pv := (inverse_uv wr wn f Duv).2).
  change (inverse_uv wr wn f Duv) with (pu, pv).
  assert (Ha' : amin <= a').
  { apply (bracket_ge Duv _ n round_trip_Duv_bound _ sigma amin); try assumption. lra. }
  assert (Hb' : amin <= b').
  { apply (bracket_ge Duv _ n round_trip_Duv_bound _ sigma amin); try assumption. lra. }
  assert (Hprev : line_dt pu pv wr = (1 - f) * b').
  { unfold pu, pv. rewrite (inverse_uv_dt wr wn wr f Duv Hn0).
    rewrite line_dt_self, lines_cross_self. fold n. unfold b'. unfold Rdiv. ring. }
  assert (Hnext : line_dt pu pv wn = - (f * a')).
  { unfold pu, pv. rewrite (inverse_uv_dt wr wn wn f Duv Hn0).
    rewrite line_dt_self, lines_cross_self, (lines_cross_swap wr wn).
    fold n. unfold a'. unfold Rdiv. ring. }
  assert (Hbefore : forall j wj, (1 <= j < i)%nat ->
                      ROBERTSON_ISOTEMPERATURE_LINES !! j = Some wj ->
                      0 < line_dt pu pv wj).
  { intros j wj Hj Hwj. unfold pu, pv. rewrite (inverse_uv_dt wr wn wj f Duv Hn0). fold n.
    pose proof (pair_separated_all j i wj wr ltac:(lia) Hwj Hr) as Hs1.
    pose proof (pair_separated_all j (i + 1) wj wn ltac:(lia) Hwj Hn) as Hs2.
    unfold pair_separated in Hs1, Hs2.
    pose proof (bracket_pos Duv _ n _ _ ltac:(lra) HD Hs1) as H1.
    pose proof (bracket_pos Duv _ n _ _ ltac:(lra) HD Hs2) as H2.
    assert (0 <= f * (line_dt (ruvt_u wr) (ruvt_v wr) wj - Duv * lines_cross wr wj / n))
      by (apply Rmult_le_pos; lra).
    assert (0 < (1 - f) * (line_dt (ruvt_u wn) (ruvt_v wn) wj
                           - Duv * lines_cross wn wj / n))
      by (apply Rmult_lt_0_compat; lra).
    lra. }
  assert (Hprev_pos : 0 < line_dt pu pv wr).
  { rewrite Hprev. apply Rmult_lt_0_compat; lra. }
  assert (Hnext_le : line_dt pu pv wn <= 0).
  { rewrite Hnext. assert (0 <= f * a') by (apply Rmult_le_pos; lra). lra. }
  destruct (uv_to_CCT_robertson1968_break pu pv)
    as (i' & f' & T & Dint & Hi' & Hres & Hbreak & Hall).
  destruct Hbreak as (wr' & wp' & Hwr' & Hwp' & Hstop & Hf1 & Hfn & Hfrange & Hrpos & HTeq & HDeq).
  assert (Hi'eq : i' = S i).
  { destruct (Nat.lt_trichotomy i' (S i)) as [Hlt | [Heq | Hgt]]; [| exact Heq |].
    - exfalso. destruct Hstop as [Hle | H30]; [| lia].
      destruct (Nat.eq_dec i' i) as [-> | Hne].
      + rewrite Hr in Hwr'. injection Hwr' as <-. lra.
      + pose proof (Hbefore i' wr' ltac:(lia) Hwr'). lra.
    - exfalso. replace (i + 1)%nat with (S i) in Hn by lia.
      pose proof (Hall (S i) wn ltac:(lia) Hn). lra. }
  subst i'. replace (i + 1)%nat with (S i) in Hn by lia.
  rewrite Hn in Hwr'. injection Hwr' as <-.
  replace (S i - 1)%nat with i in Hwp' by lia.
  rewrite Hr in Hwp'. injection Hwp' as <-.
  clear Hf1 Hstop. specialize (Hfn ltac:(lia)). cbv zeta in Hfn.
  destruct Hfn as [_ Hf'eq].
  destruct (decide (0 < line_dt pu pv wn)) as [Hbad | _]; [lra |].
  rewrite Hprev, Hnext in Hf'eq.
  replace (- - (f * a')) with (f * a') in Hf'eq by ring.
  subst f'.
  exists T, Dint. split; [exact Hres |]. split; [exact HTeq | exact HDeq].
Qed.

(** The bounds on the offsets and on the forward fraction in a segment. *)
Lemma forward_fraction_close (i : nat) (wr wn : ROBERTSON_ISOTEMPERATURE_LINES_RUVT)
    (f Duv amin eta mu sigma : R) :
  segment_certificate wr wn amin eta mu sigma ->
  0 <= f <= 1 -> Rabs Duv <= round_trip_Duv_bound ->
  amin <= offset_a wr wn f Duv /\ amin <= offset_b wr wn f Duv /\
  0 <= forward_fraction wr wn f Duv <= 1 /\
  Rabs (forward_fraction wr wn f Duv - f) <= eta / (4 * amin).
Proof.
  intros Hcert Hf01 HD.
  unfold segment_certificate in Hcert. cbv zeta in Hcert.
  destruct Hcert as (Hamin & Hrr & Hkap & Hsig & Ha & Hb & Heta & _).
  pose proof (blend_len_bounds wr wn f Hkap Hf01) as Hnb.
  pose proof kappa0_pos as Hk0.
  assert (Ha' : amin <= offset_a wr wn f Duv).
  { unfold offset_a.
    apply (bracket_ge Duv _ _ round_trip_Duv_bound _ sigma amin); try assumption. lra. }
  assert (Hb' : amin <= offset_b wr wn f Duv).
  { unfold offset_b.
    apply (bracket_ge Duv _ _ round_trip_Duv_bound _ sigma amin); try assumption. lra. }
  split; [exact Ha' |]. split; [exact Hb' |].
  unfold forward_fraction. split.
  - apply (fraction_range f _ _ amin); assumption.
  - apply (fraction_close f _ _ amin eta); try assumption.
    replace (offset_a wr wn f Duv - offset_b wr wn f Duv)
      with (- line_dt (ruvt_u wr) (ruvt_v wr) wn - line_dt (ruvt_u wn) (ruvt_v wn) wr)
      by (unfold offset_a, offset_b; ring).
    exact Heta.
Qed.

Lemma round_trip_inside (i : nat) (wr wn : ROBERTSON_ISOTEMPERATURE_LINES_RUVT)
    (f Duv : R) :
  (1 <= i <= 29)%nat ->
  ROBERTSON_ISOTEMPERATURE_LINES !! i = Some wr ->
  ROBERTSON_ISOTEMPERATURE_LINES !! (i + 1)%nat = Some wn ->
  0 <= f < 1 -> Rabs Duv <= round_trip_Duv_bound ->
  exists T' Duv' : R,
    uv_to_CCT_robertson1968 (inverse_uv wr wn f Duv) = Ok (T', Duv') /\
    Rabs (T' - 1.0e6 / (ruvt_r wr * f + ruvt_r wn * (1 - f))) <= round_trip_T_tolerance /\
    Rabs (Duv' - Duv) <= round_trip_Duv_tolerance.
Proof.
  intros Hi Hr Hn Hf HD.
  destruct (forward_of_inverse i wr wn f Duv Hi Hr Hn Hf HD) as (T & Dint & Hres & HTeq & HDeq).
  destruct (segment_certificate_all i wr wn Hi Hr Hn) as (amin & eta & mu & sigma & Hcert).
  assert (Hf01 : 0 <= f <= 1) by lra.
  destruct (forward_fraction_close i wr wn f Duv amin eta mu sigma Hcert Hf01 HD)
    as (_ & _ & Hf'01 & Hclose).
  set (f' := forward_fraction wr wn f Duv) in *.
  unfold segment_certificate in Hcert. cbv zeta in Hcert.
  destruct Hcert as (Hamin & Hrr & Hkap & Hsig & Ha & Hb & Heta & Hmud & Hmue & HT & HDt).
  pose proof (blend_len_bounds wr wn f Hkap Hf01) as Hnb.
  pose proof kappa0_pos as Hk0.
  exists T, (- Dint). split; [exact Hres |]. split.
  - rewrite HTeq.
    eapply Rle_trans; [| exact HT].
    apply temperature_close; assumption.
  - rewrite HDeq.
    set (n' := sqrt ((line_du wn * (1 - f') + line_du wr * f')
                     * (line_du wn * (1 - f') + line_du wr * f')
                     + (line_dv wn * (1 - f') + line_dv wr * f')
                       * (line_dv wn * (1 - f') + line_dv wr * f'))).
    assert (Hn'eq : n' = blend_len wr wn f').
    { unfold n', blend_len. f_equal. ring. }
    pose proof (blend_len_bounds wr wn f' Hkap Hf'01) as Hn'b. rewrite <- Hn'eq in Hn'b.
    assert (Hnn' : n' * n'
                   = (line_du wn * (1 - f') + line_du wr * f')
                     * (line_du wn * (1 - f') + line_du wr * f')
                     + (line_dv wn * (1 - f') + line_dv wr * f')
                       * (line_dv wn * (1 - f') + line_dv wr * f')).
    { unfold n'. apply sqrt_sqrt. apply sum_squares_nonneg. }
    assert (Hde : 0 <= line_du wr * line_du wn + line_dv wr * line_dv wn).
    { unfold lines_dot in Hkap. lra. }
    assert (Heps : Rabs (f - f') <= eta / (4 * amin)).
    { rewrite Rabs_minus_sym. exact Hclose. }
    eapply Rle_trans; [| exact HDt].
    exact (projection_close (ruvt_u wr) (ruvt_v wr) (ruvt_u wn) (ruvt_v wn)
             (line_du wr) (line_dv wr) (line_du wn) (line_dv wn)
             (line_direction_unit wr) (line_direction_unit wn) Hde
             f f' Duv (blend_len wr wn f) n' Hf01 Hf'01 kappa0 Hk0 (proj1 Hnb) (proj1 Hn'b)
             (blend_len_sqr wr wn f) Hnn'
             round_trip_Duv_bound (eta / (4 * amin)) sigma mu
             HD Heps Hsig Hmud Hmue).
Qed.

Lemma blend_len_at_1 (wr wn : ROBERTSON_ISOTEMPERATURE_LINES_RUVT) : blend_len wr wn 1 = 1.
Proof.
  unfold blend_len.
  replace ((line_du wr * 1 + line_du wn * (1 - 1)) * (line_du wr * 1 + line_du wn * (1 - 1))
           + (line_dv wr * 1 + line_dv wn * (1 - 1)) * (line_dv wr * 1 + line_dv wn * (1 - 1)))
    with (line_du wr * line_du wr + line_dv wr * line_dv wr) by ring.
  rewrite line_direction_unit. apply sqrt_1.
Qed.

(** At a line of the table the round trip is exact. *)
Lemma round_trip_at_line (i : nat) (wr wn : ROBERTSON_ISOTEMPERATURE_LINES_RUVT) (Duv : R) :
  (1 <= i <= 29)%nat ->
  ROBERTSON_ISOTEMPERATURE_LINES !! i = Some wr ->
  ROBERTSON_ISOTEMPERATURE_LINES !! (i + 1)%nat = Some wn ->
  Rabs Duv <= round_trip_Duv_bound ->
  uv_to_CCT_robertson1968 (inverse_uv wr wn 1 Duv) = Ok (1.0e6 / ruvt_r wr, Duv).
Proof.
  intros Hi Hr Hn HD.
  pose proof (blend_len_at_1 wr wn) as Hn1.
  pose proof kappa0_pos as Hk0.
  assert (Hk1 : kappa0 <= 1) by (unfold kappa0; lra).
  set (pu := (inverse_uv wr wn 1 Duv).1).
  set (pv := (inverse_uv wr wn 1 Duv).2).
  change (inverse_uv wr wn 1 Duv) with (pu, pv).
  assert (Hdt : forall wj, line_dt pu pv wj
                           = line_dt (ruvt_u wr) (ruvt_v wr) wj - Duv * lines_cross wr wj / 1).
  { intros wj. unfold pu, pv. rewrite (inverse_uv_dt wr wn wj 1 Duv) by (rewrite Hn1; lra).
    rewrite Hn1. ring. }
  assert (Hat : line_dt pu pv wr = 0).
  { rewrite Hdt, line_dt_self, lines_cross_self. unfold Rdiv. ring. }
  assert (Hbefore : forall j wj, (1 <= j < i)%nat ->
                      ROBERTSON_ISOTEMPERATURE_LINES !! j = Some wj ->
                      0 < line_dt pu pv wj).
  { intros j wj Hj Hwj. rewrite Hdt.
    pose proof (pair_separated_all j i wj wr ltac:(lia) Hwj Hr) as Hs.
    apply (bracket_pos Duv _ 1 round_trip_Duv_bound); [lra | exact HD | exact Hs]. }
  destruct (uv_to_CCT_robertson1968_break pu pv)
    as (i' & f' & T & Dint & Hi' & Hres & Hbreak & Hall).
  destruct Hbreak as (wr' & wp' & Hwr' & Hwp' & Hstop & Hf1 & Hfn & Hfrange & Hrpos & HTeq & HDeq).
  assert (Hi'eq : i' = i).
  { destruct (Nat.lt_trichotomy i' i) as [Hlt | [Heq | Hgt]]; [| exact Heq |].
    - exfalso. destruct Hstop as [Hle | H30]; [| lia].
      pose proof (Hbefore i' wr' ltac:(lia) Hwr'). lra.
    - exfalso. pose proof (Hall i wr ltac:(lia) Hr). lra. }
  subst i'. rewrite Hr in Hwr'. injection Hwr' as <-.
  assert (Hf' : f' = 0).
  { destruct (Nat.eq_dec i 1%nat) as [H1 | H1]; [exact (Hf1 H1) |].
    destruct (Hfn H1) as [Hden Heq]. cbv zeta in Hden, Heq.
    rewrite Hat in Heq, Hden.
    destruct (decide (0 < 0)) as [Hbad | _]; [lra |].
    rewrite Heq. unfold Rdiv. ring. }
  subst f'.
  rewrite Hres. f_equal.
  assert (HT : T = 1.0e6 / ruvt_r wr).
  { rewrite HTeq. f_equal. ring. }
  assert (HDint : - Dint = Duv).
  { rewrite HDeq. unfold walk_Duv. cbv zeta.
    replace ((line_du wr * (1 - 0) + line_du wp' * 0) * (line_du wr * (1 - 0) + line_du wp' * 0)
             + (line_dv wr * (1 - 0) + line_dv wp' * 0) * (line_dv wr * (1 - 0) + line_dv wp' * 0))
      with (line_du wr * line_du wr + line_dv wr * line_dv wr) by ring.
    rewrite line_direction_unit, sqrt_1.
    unfold pu, pv, inverse_uv. cbv zeta. cbn [fst snd].
    fold (blend_len wr wn 1). rewrite Hn1.
    pose proof (line_direction_unit wr) as Hu.
    replace (- ((ruvt_u wr * 1 + ruvt_u wn * (1 - 1)
                 + (line_du wr * 1 + line_du wn * (1 - 1)) / 1 * - Duv
                 - (ruvt_u wp' * 0 + ruvt_u wr * (1 - 0)))
                * ((line_du wr * (1 - 0) + line_du wp' * 0) / 1)
                + (ruvt_v wr * 1 + ruvt_v wn * (1 - 1)
                   + (line_dv wr * 1 + line_dv wn * (1 - 1)) / 1 * - Duv
                   - (ruvt_v wp' * 0 + ruvt_v wr * (1 - 0)))
                  * ((line_dv wr * (1 - 0) + line_dv wp' * 0) / 1)))
      with (Duv * (line_du wr * line_du wr + line_dv wr * line_dv wr)) by (field).
    rewrite Hu. ring. }
  rewrite HT, HDint. reflexivity.
Qed.


Lemma lines_r (k : nat) (wk : ROBERTSON_ISOTEMPERATURE_LINES_RUVT) :
  ROBERTSON_ISOTEMPERATURE_LINES !! k = Some wk -> ruvt_r wk = line_r_of k.
Proof.
  intros Hk.
  do 31 (destruct k as [| k];
         [injection Hk as <-; unfold line_r_of; simpl; lra |]).
  discriminate.
Qed.

Lemma line_r_of_lt (j k : nat) : (j < k)%nat -> line_r_of j < line_r_of k.
Proof.
  intros Hjk. unfold line_r_of.
  pose proof (lt_INR j k Hjk) as Hlt.
  pose proof (pos_INR j) as Hj0.
  assert (H10 : INR 10 = 10) by (simpl; lra).
  destruct (Nat.leb_spec j 10) as [Hj | Hj]; destruct (Nat.leb_spec k 10) as [Hk | Hk].
  - lra.
  - apply le_INR in Hj. apply lt_INR in Hk. lra.
  - lia.
  - lra.
Qed.

Lemma line_r_of_le (j k : nat) : (j <= k)%nat -> line_r_of j <= line_r_of k.
Proof.
  intros Hjk. destruct (Nat.eq_dec j k) as [-> | Hne]; [lra |].
  left. apply line_r_of_lt. lia.
Qed.

Lemma inverse_body_skip (r Duv : R) (k : nat) (wn : ROBERTSON_ISOTEMPERATURE_LINES_RUVT) :
  (k < 29)%nat ->
  ROBERTSON_ISOTEMPERATURE_LINES !! (k + 1)%nat = Some wn ->
  ruvt_r wn <= r ->
  CCT_to_uv_robertson1968_body r Duv k = Ok None.
Proof.
  intros Hk Hn Hle.
  destruct (robertson_lines_lookup k) as (wr & Hr & _); [lia |].
  unfold CCT_to_uv_robertson1968_body, py_getitem_nat.
  rewrite Hr, Hn, !bind_Ok.
  destruct (decide (r < ruvt_r wn \/ k = 29%nat)) as [[Hlt | H29] | _];
    [lra | lia | reflexivity].
Qed.

Lemma inverse_body_return (r Duv : R) (i : nat)
    (wr wn : ROBERTSON_ISOTEMPERATURE_LINES_RUVT) :
  ROBERTSON_ISOTEMPERATURE_LINES !! i = Some wr ->
  ROBERTSON_ISOTEMPERATURE_LINES !! (i + 1)%nat = Some wn ->
  r < ruvt_r wn \/ i = 29%nat ->
  ruvt_r wr <= r <= ruvt_r wn -> ruvt_r wr < ruvt_r wn ->
  kappa0 <= lines_dot wr wn ->
  CCT_to_uv_robertson1968_body r Duv i
  = Ok (Some (inverse_uv wr wn ((ruvt_r wn - r) / (ruvt_r wn - ruvt_r wr)) Duv)).
Proof.
  intros Hr Hn Hguard Hrange Hlt Hkap.
  unfold CCT_to_uv_robertson1968_body, py_getitem_nat.
  rewrite Hr, Hn, !bind_Ok.
  destruct (decide (r < ruvt_r wn \/ i = 29%nat)) as [_ | Hno]; [| contradiction].
  rewrite py_div_ok by lra. rewrite bind_Ok.
  rewrite !line_direction_Ok, !bind_Ok.
  set (f := (ruvt_r wn - r) / (ruvt_r wn - ruvt_r wr)).
  assert (Hf : 0 <= f <= 1).
  { unfold f. assert (Hd : 0 < ruvt_r wn - ruvt_r wr) by lra.
    split.
    - apply Rmult_le_pos; [lra | left; apply Rinv_0_lt_compat; exact Hd].
    - apply (Rmult_le_reg_r (ruvt_r wn - ruvt_r wr)); [exact Hd |].
      replace ((ruvt_r wn - r) / (ruvt_r wn - ruvt_r wr) * (ruvt_r wn - ruvt_r wr))
        with (ruvt_r wn - r) by (field; lra).
      lra. }
  pose proof (blend_len_bounds wr wn f Hkap Hf) as Hnb.
  pose proof kappa0_pos as Hk0.
  rewrite math_sqrt_ok by apply sum_squares_nonneg.
  rewrite bind_Ok. fold (blend_len wr wn f).
  rewrite !py_div_ok by lra. reflexivity.
Qed.

Lemma inverse_loop_find (r Duv : R) (i : nat)
    (wr wn : ROBERTSON_ISOTEMPERATURE_LINES_RUVT) :
  (i <= 29)%nat ->
  ROBERTSON_ISOTEMPERATURE_LINES !! i = Some wr ->
  ROBERTSON_ISOTEMPERATURE_LINES !! (i + 1)%nat = Some wn ->
  r < ruvt_r wn \/ i = 29%nat ->
  ruvt_r wr <= r <= ruvt_r wn ->
  kappa0 <= lines_dot wr wn ->
  forall n k : nat,
    (k + n = 30)%nat -> (k <= i)%nat ->
    CCT_to_uv_robertson1968_loop r Duv (seq k n)
    = Ok (inverse_uv wr wn ((ruvt_r wn - r) / (ruvt_r wn - ruvt_r wr)) Duv).
Proof.
  intros Hi Hr Hn Hguard Hrange Hkap.
  assert (Hlt : ruvt_r wr < ruvt_r wn).
  { rewrite (lines_r _ _ Hr), (lines_r _ _ Hn). apply line_r_of_lt. lia. }
  induction n as [| n IH]; intros k Hkn Hki; [lia |].
  simpl seq. cbn [CCT_to_uv_robertson1968_loop].
  destruct (Nat.eq_dec k i) as [-> | Hne].
  - rewrite (inverse_body_return r Duv i wr wn Hr Hn Hguard Hrange Hlt Hkap).
    reflexivity.
  - destruct (robertson_lines_lookup (k + 1)) as (wk & Hwk & _); [lia |].
    rewrite (inverse_body_skip r Duv k wk); [| lia | exact Hwk |].
    + rewrite bind_Ok. apply IH; lia.
    + rewrite (lines_r _ _ Hwk).
      apply Rle_trans with (line_r_of i); [apply line_r_of_le; lia |].
      rewrite <- (lines_r _ _ Hr). lra.
Qed.

Lemma find_segment (r : R) :
  forall m : nat,
    (1 <= m)%nat -> line_r_of 1 <= r < line_r_of (m + 1) ->
    exists i : nat, (1 <= i <= m)%nat /\ line_r_of i <= r < line_r_of (i + 1).
Proof.
  induction m as [| m IH]; intros Hm Hr; [lia |].
  destruct (Rlt_le_dec r (line_r_of (m + 1))) as [Hlt | Hge].
  - destruct m as [| m].
    + exists 1%nat. split; [lia | exact Hr].
    + destruct IH as (i & Hi & Hir); [lia | lra |].
      exists i. split; [lia | exact Hir].
  - exists (S m). split; [lia |].
    replace (m + 1)%nat with (S m) in Hge by lia. lra.
Qed.

Lemma find_lines (r : R) :
  10 <= r <= 600 ->
  exists (i : nat) (wr wn : ROBERTSON_ISOTEMPERATURE_LINES_RUVT),
    (1 <= i <= 29)%nat /\
    ROBERTSON_ISOTEMPERATURE_LINES !! i = Some wr /\
    ROBERTSON_ISOTEMPERATURE_LINES !! (i + 1)%nat = Some wn /\
    ruvt_r wr <= r <= ruvt_r wn /\ ruvt_r wr < ruvt_r wn /\
    (r < ruvt_r wn \/ i = 29%nat).
Proof.
  intros Hr.
  assert (H1 : line_r_of 1 = 10) by (unfold line_r_of; simpl; lra).
  assert (H30 : line_r_of 30 = 600) by (unfold line_r_of; simpl; lra).
  assert (Hi : exists i : nat, (1 <= i <= 29)%nat /\ line_r_of i <= r <= line_r_of (i + 1)
                               /\ (r < line_r_of (i + 1) \/ i = 29%nat)).
  { destruct (Rlt_le_dec r 600) as [Hlt | Hge].
    - destruct (find_segment r 29) as (i & Hi & Hir); [lia | simpl Nat.add; lra |].
      exists i. split; [exact Hi |]. split; [lra |]. left. lra.
    - exists 29%nat. split; [lia |]. simpl Nat.add. rewrite H30.
      assert (H29 : line_r_of 29 = 575) by (unfold line_r_of; simpl; lra).
      rewrite H29. split; [lra |]. right. reflexivity. }
  destruct Hi as (i & Hi & Hir & Hguard).
  destruct (robertson_lines_lookup i) as (wr & Hwr & _); [lia |].
  destruct (robertson_lines_lookup (i + 1)) as (wn & Hwn & _); [lia |].
  exists i, wr, wn. split; [exact Hi |]. split; [exact Hwr |]. split; [exact Hwn |].
  rewrite (lines_r _ _ Hwr), (lines_r _ _ Hwn).
  split; [exact Hir |]. split; [apply line_r_of_lt; lia | exact Hguard].
Qed.

Lemma same_sign_of_close (x y tol : R) :
  Rabs (y - x) <= tol -> tol < Rabs x -> 0 < x * y.
Proof.
  intros Hclose Hbig.
  unfold Rabs in *.
  destruct (Rcase_abs (y - x)); destruct (Rcase_abs x); nra.
Qed.

(** ** The segment between 100 and 125 mired *)

Lemma line_100_lookup : ROBERTSON_ISOTEMPERATURE_LINES !! 10%nat = Some line_100.
Proof. reflexivity. Qed.
Lemma line_125_lookup : ROBERTSON_ISOTEMPERATURE_LINES !! (10 + 1)%nat = Some line_125.
Proof. reflexivity. Qed.

(** The numbers of the segment between the lines at 100 and 125 mired. *)
Lemma segment_100_125_bounds :
  let a := - line_dt (ruvt_u line_100) (ruvt_v line_100) line_125 in
  let b := line_dt (ruvt_u line_125) (ruvt_v line_125) line_100 in
  kappa0 <= lines_dot line_100 line_125 /\
  -0.081 <= lines_cross line_125 line_100 <= 0 /\
  0.0092 <= a /\ 0.0092 <= b <= 0.009208 /\ 1.0e-6 <= b - a /\
  -0.00036 <= (ruvt_u line_100 - ruvt_u line_125) * line_du line_100
              + (ruvt_v line_100 - ruvt_v line_125) * line_dv line_100 /\
  0.00038 <= (ruvt_u line_100 - ruvt_u line_125) * line_du line_125
              + (ruvt_v line_100 - ruvt_v line_125) * line_dv line_125.
Proof.
  destruct (segment_inverse_bounds _ _ _ _
              (line_len_enclosure 10%nat _ _ line_100_lookup eq_refl)
              (line_len_enclosure 11%nat _ _ line_125_lookup eq_refl)) as (Hir & Hin & Hp).
  cbv zeta.
  rewrite !line_dt_eq, lines_dot_eq, lines_cross_eq, !line_du_eq, !line_dv_eq.
  replace (/ line_len line_125 * / line_len line_100)
    with (/ line_len line_100 * / line_len line_125) by ring.
  set (ir := / line_len line_100) in *. set (inn := / line_len line_125) in *.
  set (p := ir * inn) in *. clearbody p inn ir.
  unfold line_100, line_125, kappa0. cbn [ruvt_r ruvt_t ruvt_u ruvt_v].
  repeat split; lra.
Qed.

Lemma quotient_ge (x y lo hi : R) : 0 < y <= hi -> 0 <= lo <= x -> lo / hi <= x / y.
Proof.
  intros [Hy Hhi] [Hlo Hx]. unfold Rdiv.
  apply Rmult_le_compat; [lra | | lra |].
  - left. apply Rinv_0_lt_compat. lra.
  - apply Rinv_le_contravar; lra.
Qed.

(** The forward walk on the point that the inverse returns for 118.75
    mired and [Duv = 1e-9] reports a negative [Duv]. *)
Lemma sign_flip_forward :
  exists T' Duv' : R,
    uv_to_CCT_robertson1968 (inverse_uv line_100 line_125 (1 / 4) 1.0e-9) = Ok (T', Duv') /\
    Duv' <= -2.0e-9.
Proof.
  assert (HD : Rabs 1.0e-9 <= round_trip_Duv_bound).
  { unfold round_trip_Duv_bound. rewrite Rabs_pos_eq; lra. }
  assert (Hi : (1 <= 10 <= 29)%nat) by lia.
  assert (Hf : 0 <= 1 / 4 < 1) by lra.
  destruct (forward_of_inverse 10%nat line_100 line_125 (1 / 4) 1.0e-9
              Hi line_100_lookup line_125_lookup Hf HD)
    as (T & Dint & Hres & _ & HDeq).
  exists T, (- Dint). split; [exact Hres |].
  destruct segment_100_125_bounds as (Hkap & Hs & Ha & Hb & Hba & Hgd & Hge).
  pose proof kappa0_pos as Hk0.
  pose proof (blend_len_bounds line_100 line_125 (1 / 4) Hkap ltac:(lra)) as Hnb.
  set (f' := forward_fraction line_100 line_125 (1 / 4) 1.0e-9) in *.
  (* the offsets *)
  assert (Hq : -1.0e-10 <= 1.0e-9 * lines_cross line_125 line_100
                           / blend_len line_100 line_125 (1 / 4) <= 0).
  { unfold kappa0 in Hnb.
    assert (Hinv : 1 <= / blend_len line_100 line_125 (1 / 4) <= / 0.99).
    { split.
      - rewrite <- Rinv_1 at 1. apply Rinv_le_contravar; lra.
      - apply Rinv_le_contravar; lra. }
    assert (/ 0.99 <= 1.02) by lra.
    set (s := lines_cross line_125 line_100) in *.
    set (n := blend_len line_100 line_125 (1 / 4)) in *.
    replace (1.0e-9 * s / n) with (1.0e-9 * (s * / n)) by (unfold Rdiv; ring).
    set (w := / n) in *. clearbody s w.
    assert (H1 : 0 <= (s + 0.081) * w) by (apply Rmult_le_pos; lra).
    assert (H2 : 0 <= (- s) * w) by (apply Rmult_le_pos; lra).
    lra. }
  assert (Ha' : 0.0092 <= offset_a line_100 line_125 (1 / 4) 1.0e-9 <= 0.00921)
    by (unfold offset_a; lra).
  assert (Hb' : 0.0092 <= offset_b line_100 line_125 (1 / 4) 1.0e-9 <= 0.00921)
    by (unfold offset_b; lra).
  assert (Hab : offset_b line_100 line_125 (1 / 4) 1.0e-9
                - offset_a line_100 line_125 (1 / 4) 1.0e-9 >= 1.0e-6)
    by (unfold offset_a, offset_b; lra).
  set (a' := offset_a line_100 line_125 (1 / 4) 1.0e-9) in *.
  set (b' := offset_b line_100 line_125 (1 / 4) 1.0e-9) in *.
  assert (Hf'01 : 0 <= f' <= 1).
  { apply (fraction_range (1 / 4) a' b' 0.0092); lra. }
  assert (Hff : 2.0e-5 <= 1 / 4 - f').
  { pose proof (fraction_diff (1 / 4) a' b' 0.0092 ltac:(lra) ltac:(lra)
                  ltac:(lra) ltac:(lra)) as Hdiff.
    fold a' b' in Hdiff. unfold forward_fraction in f'. fold a' b' in f'. fold f' in Hdiff.
    pose proof (quotient_ge (b' - a') ((1 - 1 / 4) * b' + 1 / 4 * a') 1.0e-6 0.00921
                  ltac:(lra) ltac:(lra)) as Hquot.
    replace (1 / 4 * (1 - 1 / 4) * (a' - b') / ((1 - 1 / 4) * b' + 1 / 4 * a'))
      with (- (3 / 16) * ((b' - a') / ((1 - 1 / 4) * b' + 1 / 4 * a')))
      in Hdiff by (field; lra).
    lra. }
  pose proof (blend_len_bounds line_100 line_125 f' Hkap Hf'01) as Hn'b.
  pose (n' := sqrt ((line_du line_125 * (1 - f') + line_du line_100 * f')
                    * (line_du line_125 * (1 - f') + line_du line_100 * f')
                    + (line_dv line_125 * (1 - f') + line_dv line_100 * f')
                      * (line_dv line_125 * (1 - f') + line_dv line_100 * f'))).
  assert (Hn'eq : n' = blend_len line_100 line_125 f').
  { unfold n', blend_len. f_equal. ring. }
  rewrite <- Hn'eq in Hn'b.
  assert (Hnn' : n' * n'
                 = (line_du line_125 * (1 - f') + line_du line_100 * f')
                   * (line_du line_125 * (1 - f') + line_du line_100 * f')
                   + (line_dv line_125 * (1 - f') + line_dv line_100 * f')
                     * (line_dv line_125 * (1 - f') + line_dv line_100 * f')).
  { unfold n'. apply sqrt_sqrt. apply sum_squares_nonneg. }
  assert (Hde : 0 <= line_du line_100 * line_du line_125
                     + line_dv line_100 * line_dv line_125).
  { unfold lines_dot in Hkap. lra. }
  pose (c := ((line_du line_100 * (1 / 4) + line_du line_125 * (1 - 1 / 4))
              * (line_du line_125 * (1 - f') + line_du line_100 * f')
              + (line_dv line_100 * (1 / 4) + line_dv line_125 * (1 - 1 / 4))
                * (line_dv line_125 * (1 - f') + line_dv line_100 * f'))
             / (blend_len line_100 line_125 (1 / 4) * n')).
  pose (G := (ruvt_u line_100 - ruvt_u line_125)
             * (line_du line_125 * (1 - f') + line_du line_100 * f')
             + (ruvt_v line_100 - ruvt_v line_125)
               * (line_dv line_125 * (1 - f') + line_dv line_100 * f')).
  assert (Hsplit : - Dint - 1.0e-9 = - (1.0e-9) * (1 - c) - (1 / 4 - f') * G / n').
  { rewrite HDeq.
    exact (projection_split
             (ruvt_u line_100) (ruvt_v line_100) (ruvt_u line_125) (ruvt_v line_125)
             (line_du line_100) (line_dv line_100) (line_du line_125) (line_dv line_125)
             (1 / 4) f' 1.0e-9 (blend_len line_100 line_125 (1 / 4)) n' kappa0
             Hk0 (proj1 Hnb) (proj1 Hn'b)). }
  assert (Hc : 0 <= 1 - c).
  { exact (proj1 (cosine_defect
             (line_du line_100) (line_dv line_100) (line_du line_125) (line_dv line_125)
             (line_direction_unit line_100) (line_direction_unit line_125) Hde
             (1 / 4) f' (blend_len line_100 line_125 (1 / 4)) n'
             ltac:(lra) Hf'01 kappa0 Hk0 (proj1 Hnb) (proj1 Hn'b)
             (blend_len_sqr line_100 line_125 (1 / 4)) Hnn')). }
  assert (HG : 0.00019 <= G).
  { unfold G.
    set (gd := (ruvt_u line_100 - ruvt_u line_125) * line_du line_100
               + (ruvt_v line_100 - ruvt_v line_125) * line_dv line_100) in *.
    set (ge := (ruvt_u line_100 - ruvt_u line_125) * line_du line_125
               + (ruvt_v line_100 - ruvt_v line_125) * line_dv line_125) in *.
    replace ((ruvt_u line_100 - ruvt_u line_125)
             * (line_du line_125 * (1 - f') + line_du line_100 * f')
             + (ruvt_v line_100 - ruvt_v line_125)
               * (line_dv line_125 * (1 - f') + line_dv line_100 * f'))
      with (ge * (1 - f') + gd * f') by (unfold ge, gd; ring).
    clearbody ge gd. nra. }
  assert (Hprod : 3.8e-9 <= (1 / 4 - f') * G / n').
  { assert (H1 : 3.8e-9 <= (1 / 4 - f') * G) by nra.
    unfold kappa0 in Hn'b.
    assert (Hinv : 1 <= / n').
    { rewrite <- Rinv_1 at 1. apply Rinv_le_contravar; lra. }
    unfold Rdiv. nra. }
  clearbody c G n'. lra.
Qed.

(** C1 (as amended).  For every [CCT] of the table's range, from
    1e6/600 K to 1e6/10 K, and every signed [Duv] with [|Duv| <= 0.05],
    [CCT_to_uv_robertson1968 CCT Duv] returns a point [uv] and
    [uv_to_CCT_robertson1968 uv] returns a pair [(T', Duv')] with [T']
    within 0.5 K of [CCT] and [Duv'] within 5e-8 of [Duv]; where [|Duv|]
    exceeds 5e-8, [Duv'] has the sign of [Duv]. *)
Theorem robertson1968_round_trip (CCT Duv : R) :
  1.0e6 / 600 <= CCT <= 1.0e6 / 10 ->
  Rabs Duv <= round_trip_Duv_bound ->
  exists (uv : R * R) (T' Duv' : R),
    CCT_to_uv_robertson1968 CCT Duv = Ok uv /\
    uv_to_CCT_robertson1968 uv = Ok (T', Duv') /\
    Rabs (T' - CCT) <= round_trip_T_tolerance /\
    Rabs (Duv' - Duv) <= round_trip_Duv_tolerance /\
    (round_trip_Duv_tolerance < Rabs Duv -> 0 < Duv * Duv').
Proof.
  intros HCCT HD.
  assert (Hpos : 0 < CCT) by lra.
  set (r := 1.0e6 / CCT).
  assert (HrC : r * CCT = 1.0e6) by (unfold r; field; lra).
  assert (Hr0 : 0 < r) by (unfold r; apply Rdiv_lt_0_compat; lra).
  assert (Hr : 10 <= r <= 600) by (split; nra).
  destruct (find_lines r Hr) as (i & wr & wn & Hi & Hwr & Hwn & Hrange & Hlt & Hguard).
  destruct (segment_certificate_all i wr wn Hi Hwr Hwn) as (amin & eta & mu & sigma & Hcert).
  assert (Hkap : kappa0 <= lines_dot wr wn).
  { unfold segment_certificate in Hcert. cbv zeta in Hcert. tauto. }
  clear Hcert.
  set (f := (ruvt_r wn - r) / (ruvt_r wn - ruvt_r wr)).
  assert (Hinv : CCT_to_uv_robertson1968 CCT Duv = Ok (inverse_uv wr wn f Duv)).
  { unfold CCT_to_uv_robertson1968. rewrite py_div_ok by lra. rewrite bind_Ok.
    fold r. unfold py_range. simpl Nat.sub.
    apply (inverse_loop_find r Duv i wr wn); try assumption; lia. }
  assert (Hblend : ruvt_r wr * f + ruvt_r wn * (1 - f) = r) by (unfold f; field; lra).
  assert (HCr : 1.0e6 / r = CCT) by (unfold r; field; lra).
  assert (Hf : 0 <= f <= 1).
  { assert (Hd : 0 < ruvt_r wn - ruvt_r wr) by lra.
    assert (Hfd : f * (ruvt_r wn - ruvt_r wr) = ruvt_r wn - r) by (unfold f; field; lra).
    split; nra. }
  assert (Htol : 0 <= round_trip_T_tolerance /\ 0 <= round_trip_Duv_tolerance)
    by (unfold round_trip_T_tolerance, round_trip_Duv_tolerance; lra).
  destruct (Req_dec_T f 1) as [Hf1 | Hf1].
  - exists (inverse_uv wr wn f Duv), (1.0e6 / ruvt_r wr), Duv.
    split; [exact Hinv |].
    assert (Hrr : ruvt_r wr = r) by (rewrite Hf1 in Hblend; lra).
    split; [rewrite Hf1; apply (round_trip_at_line i wr wn Duv Hi Hwr Hwn HD) |].
    rewrite Hrr, HCr.
    replace (CCT - CCT) with 0 by ring. replace (Duv - Duv) with 0 by ring.
    rewrite Rabs_R0. split; [lra |]. split; [lra |].
    intros Hbig. pose proof (Rabs_pos Duv).
    assert (Duv <> 0) by (intros ->; rewrite Rabs_R0 in Hbig; lra).
    nra.
  - destruct (round_trip_inside i wr wn f Duv Hi Hwr Hwn ltac:(lra) HD)
      as (T' & Duv' & Hfwd & HT & HDuv).
    exists (inverse_uv wr wn f Duv), T', Duv'.
    split; [exact Hinv |]. split; [exact Hfwd |].
    rewrite Hblend, HCr in HT.
    split; [exact HT |]. split; [exact HDuv |].
    intros Hbig. apply (same_sign_of_close Duv Duv' round_trip_Duv_tolerance); assumption.
Qed.

Lemma robertson1968_round_trip_witness :
  exists (uv : R * R) (T' Duv' : R),
    CCT_to_uv_robertson1968 6500 0.008 = Ok uv /\
    uv_to_CCT_robertson1968 uv = Ok (T', Duv') /\
    Rabs (T' - 6500) <= round_trip_T_tolerance /\
    Rabs (Duv' - 0.008) <= round_trip_Duv_tolerance /\
    (round_trip_Duv_tolerance < Rabs 0.008 -> 0 < 0.008 * Duv').
Proof.
  apply (robertson1968_round_trip 6500 0.008).
  - lra.
  - unfold round_trip_Duv_bound. rewrite Rabs_pos_eq; lra.
Defined.

(** At 118.75 mired, a quarter of the way from the line at 125 to the
    line at 100, the offset [Duv = 1e-9] comes back as a negative
    [Duv']: the interpolation error of the forward fraction outweighs
    the offset. *)
Lemma robertson1968_round_trip_sign_flip :
  exists (uv : R * R) (T' Duv' : R),
    1.0e6 / 600 <= 1.0e6 / 118.75 <= 1.0e6 / 10 /\
    0 < 1.0e-9 <= round_trip_Duv_bound /\
    CCT_to_uv_robertson1968 (1.0e6 / 118.75) 1.0e-9 = Ok uv /\
    uv_to_CCT_robertson1968 uv = Ok (T', Duv') /\
    Duv' <= -2.0e-9.
Proof.
  destruct sign_flip_forward as (T' & Duv' & Hfwd & Hneg).
  exists (inverse_uv line_100 line_125 (1 / 4) 1.0e-9), T', Duv'.
  split; [lra |]. split; [unfold round_trip_Duv_bound; lra |].
  split; [| split; assumption].
  destruct segment_100_125_bounds as (Hkap & _).
  unfold CCT_to_uv_robertson1968. rewrite py_div_ok by lra. rewrite bind_Ok.
  replace (1.0e6 / (1.0e6 / 118.75)) with 118.75 by (field; lra).
  unfold py_range. simpl Nat.sub.
  rewrite (inverse_loop_find 118.75 1.0e-9 10%nat line_100 line_125
             ltac:(lia) line_100_lookup line_125_lookup
             ltac:(left; cbn; lra) ltac:(cbn; lra) Hkap 30%nat 0%nat
             ltac:(lia) ltac:(lia)).
  replace ((ruvt_r line_125 - 118.75) / (ruvt_r line_125 - ruvt_r line_100))
    with (1 / 4) by (cbn [ruvt_r line_100 line_125]; lra).
  reflexivity.
Qed.

(** ** CIE Illuminant D Series *)

Lemma illuminant_D_returns (CCT : R) :
  4000 <= CCT <= 25000 ->
  CCT_to_xy_illuminant_D CCT
  = Ok (if decide (CCT <= 7000)
        then (illuminant_D_x_low CCT, illuminant_D_y (illuminant_D_x_low CCT))
        else (illuminant_D_x_high CCT, illuminant_D_y (illuminant_D_x_high CCT))).
Proof.
  intros Hin. unfold CCT_to_xy_illuminant_D.
  assert (H1 : CCT <> 0) by lra.
  assert (H2 : CCT ^ 2 <> 0) by (apply pow_nonzero; exact H1).
  assert (H3 : CCT ^ 3 <> 0) by (apply pow_nonzero; exact H1).
  rewrite !(py_div_ok _ _ H1), !(py_div_ok _ _ H2), !(py_div_ok _ _ H3).
  repeat case_decide; try lra; reflexivity.
Qed.

(** X1.  [CCT_to_xy_illuminant_D] returns a pair for every CCT of
    [4000, 25000], with [y = -3 x^2 + 2.87 x - 0.275], and raises the
    domain error for every other CCT. *)
Theorem CCT_to_xy_illuminant_D_domain (CCT : R) :
  (4000 <= CCT <= 25000 /\
   exists x : R, CCT_to_xy_illuminant_D CCT = Ok (x, -3 * x ^ 2 + 2.87 * x - 0.275)) \/
  (~ (4000 <= CCT <= 25000) /\
   CCT_to_xy_illuminant_D CCT = Raise (ValueError illuminant_D_domain_msg)).
Proof.
  destruct (decide (4000 <= CCT <= 25000)) as [Hin | Hout].
  - left. split; [exact Hin |]. rewrite (illuminant_D_returns CCT Hin).
    case_decide; eexists; reflexivity.
  - right. split; [exact Hout |]. unfold CCT_to_xy_illuminant_D.
    repeat case_decide; try lra; reflexivity.
Qed.

(** A cubic [A s^3 + B s^2 + C s + D] in [s = 1 / CCT] grows with [s]
    between [lo] and [hi] when its slope has a positive lower bound
    there. *)
Lemma cubic_in_reciprocal_decreasing (A B C D lo hi CCT1 CCT2 : R) :
  A <= 0 -> 0 <= B -> 0 < lo ->
  0 < 3 * A * (hi * hi) + 2 * B * lo + C ->
  lo <= / CCT2 -> / CCT1 <= hi -> 0 < CCT1 < CCT2 ->
  A / CCT2 ^ 3 + B / CCT2 ^ 2 + C / CCT2 + D < A / CCT1 ^ 3 + B / CCT1 ^ 2 + C / CCT1 + D.
Proof.
  intros HA HB Hlo Hslope Hs2 Hs1 HCCT.
  set (s1 := / CCT1) in *. set (s2 := / CCT2) in *.
  assert (Hs : s2 < s1) by (apply Rinv_lt_contravar; [nra | lra]).
  replace (A / CCT2 ^ 3 + B / CCT2 ^ 2 + C / CCT2 + D)
    with (A * s2 ^ 3 + B * s2 ^ 2 + C * s2 + D) by (unfold s2; field; lra).
  replace (A / CCT1 ^ 3 + B / CCT1 ^ 2 + C / CCT1 + D)
    with (A * s1 ^ 3 + B * s1 ^ 2 + C * s1 + D) by (unfold s1; field; lra).
  clearbody s1 s2.
  assert (H11 : s1 * s1 <= hi * hi) by nra.
  assert (H12 : s1 * s2 <= hi * hi) by nra.
  assert (H22 : s2 * s2 <= hi * hi) by nra.
  assert (Hq : 0 < A * (s1 * s1 + s1 * s2 + s2 * s2) + B * (s1 + s2) + C).
  { assert (A * (3 * (hi * hi)) <= A * (s1 * s1 + s1 * s2 + s2 * s2)).
    { replace (A * (3 * (hi * hi))) with (- A * - (3 * (hi * hi))) by ring.
      replace (A * (s1 * s1 + s1 * s2 + s2 * s2))
        with (- A * - (s1 * s1 + s1 * s2 + s2 * s2)) by ring.
      apply Rmult_le_compat_l; lra. }
    assert (B * (2 * lo) <= B * (s1 + s2)) by (apply Rmult_le_compat_l; lra).
    lra. }
  assert (Hprod : 0 < (s1 - s2) * (A * (s1 * s1 + s1 * s2 + s2 * s2) + B * (s1 + s2) + C))
    by (apply Rmult_lt_0_compat; lra).
  replace (A * s1 ^ 3 + B * s1 ^ 2 + C * s1 + D)
    with (A * s2 ^ 3 + B * s2 ^ 2 + C * s2 + D
          + (s1 - s2) * (A * (s1 * s1 + s1 * s2 + s2 * s2) + B * (s1 + s2) + C)) by ring.
  lra.
Qed.

Lemma reciprocal_bounds (lo hi CCT : R) :
  0 < lo -> lo <= CCT <= hi -> / hi <= / CCT <= / lo.
Proof. intros Hlo [H1 H2]. split; apply Rinv_le_contravar; lra. Qed.

Lemma illuminant_D_x_low_decreasing (CCT1 CCT2 : R) :
  4000 <= CCT1 -> CCT1 < CCT2 -> CCT2 <= 7000 ->
  illuminant_D_x_low CCT2 < illuminant_D_x_low CCT1.
Proof.
  intros H1 H12 H2. unfold illuminant_D_x_low.
  pose proof (reciprocal_bounds 4000 7000 CCT1 ltac:(lra) ltac:(lra)) as [_ Hs1].
  pose proof (reciprocal_bounds 4000 7000 CCT2 ltac:(lra) ltac:(lra)) as [Hs2 _].
  apply (cubic_in_reciprocal_decreasing _ _ _ _ (/ 7000) (/ 4000)); try lra.
Qed.

Lemma illuminant_D_x_high_decreasing (CCT1 CCT2 : R) :
  7000 <= CCT1 -> CCT1 < CCT2 -> CCT2 <= 25000 ->
  illuminant_D_x_high CCT2 < illuminant_D_x_high CCT1.
Proof.
  intros H1 H12 H2. unfold illuminant_D_x_high.
  pose proof (reciprocal_bounds 7000 25000 CCT1 ltac:(lra) ltac:(lra)) as [_ Hs1].
  pose proof (reciprocal_bounds 7000 25000 CCT2 ltac:(lra) ltac:(lra)) as [Hs2 _].
  apply (cubic_in_reciprocal_decreasing _ _ _ _ (/ 25000) (/ 7000)); try lra.
Qed.

Lemma illuminant_D_x_at_7000 : illuminant_D_x_high 7000 < illuminant_D_x_low 7000.
Proof. unfold illuminant_D_x_high, illuminant_D_x_low. lra. Qed.

(** The [x] that the function returns, over the whole domain. *)
Lemma illuminant_D_x_decreasing (CCT1 CCT2 : R) :
  4000 <= CCT1 -> CCT1 < CCT2 -> CCT2 <= 25000 ->
  (if decide (CCT2 <= 7000) then illuminant_D_x_low CCT2 else illuminant_D_x_high CCT2)
  < (if decide (CCT1 <= 7000) then illuminant_D_x_low CCT1 else illuminant_D_x_high CCT1).
Proof.
  intros H1 H12 H2. pose proof illuminant_D_x_at_7000 as H7.
  destruct (decide (CCT2 <= 7000)) as [Hc2 | Hc2];
    destruct (decide (CCT1 <= 7000)) as [Hc1 | Hc1]; try lra.
  - apply illuminant_D_x_low_decreasing; lra.
  - assert (Hhi : illuminant_D_x_high CCT2 < illuminant_D_x_high 7000)
      by (apply illuminant_D_x_high_decreasing; lra).
    destruct (Req_dec CCT1 7000) as [-> | Hne]; [lra |].
    assert (Hlo : illuminant_D_x_low 7000 < illuminant_D_x_low CCT1)
      by (apply illuminant_D_x_low_decreasing; lra).
    lra.
  - apply illuminant_D_x_high_decreasing; lra.
Qed.

Lemma illuminant_D_x_range (CCT : R) :
  4000 <= CCT <= 25000 ->
  (if decide (CCT <= 7000) then illuminant_D_x_low CCT else illuminant_D_x_high CCT) < 0.47.
Proof.
  intros Hin.
  assert (Hs : / 25000 <= / CCT <= / 4000) by (apply reciprocal_bounds; lra).
  set (s := / CCT) in *.
  assert (Hs3 : 0 <= s ^ 3) by (apply pow_le; lra).
  assert (Hs2 : s ^ 2 <= / 4000 * / 4000) by nra.
  case_decide.
  - unfold illuminant_D_x_low.
    replace (-4.607 * 10 ^ 9 / CCT ^ 3 + 2.9678 * 10 ^ 6 / CCT ^ 2 + 0.09911 * 10 ^ 3 / CCT
             + 0.244063)
      with (-4.607 * 10 ^ 9 * s ^ 3 + 2.9678 * 10 ^ 6 * s ^ 2 + 0.09911 * 10 ^ 3 * s + 0.244063)
      by (unfold s; field; lra).
    lra.
  - unfold illuminant_D_x_high.
    replace (-2.0064 * 10 ^ 9 / CCT ^ 3 + 1.9018 * 10 ^ 6 / CCT ^ 2 + 0.24748 * 10 ^ 3 / CCT
             + 0.23704)
      with (-2.0064 * 10 ^ 9 * s ^ 3 + 1.9018 * 10 ^ 6 * s ^ 2 + 0.24748 * 10 ^ 3 * s + 0.23704)
      by (unfold s; field; lra).
    lra.
Qed.

(** X2.  Over its domain [CCT_to_xy_illuminant_D] is strictly decreasing
    in both coordinates, across the change of cubic at 7000 K too: a
    greater CCT gives a smaller [x] and a smaller [y]. *)
Theorem CCT_to_xy_illuminant_D_decreasing (CCT1 CCT2 : R) :
  4000 <= CCT1 -> CCT1 < CCT2 -> CCT2 <= 25000 ->
  exists x1 y1 x2 y2 : R,
    CCT_to_xy_illuminant_D CCT1 = Ok (x1, y1) /\
    CCT_to_xy_illuminant_D CCT2 = Ok (x2, y2) /\
    x2 < x1 /\ y2 < y1.
Proof.
  intros H1 H12 H2.
  pose proof (illuminant_D_x_decreasing CCT1 CCT2 H1 H12 H2) as Hx.
  pose proof (illuminant_D_x_range CCT1 ltac:(lra)) as Hr1.
  pose proof (illuminant_D_x_range CCT2 ltac:(lra)) as Hr2.
  rewrite (illuminant_D_returns CCT1) by lra.
  rewrite (illuminant_D_returns CCT2) by lra.
  set (x1 := if decide (CCT1 <= 7000) then illuminant_D_x_low CCT1
             else illuminant_D_x_high CCT1) in *.
  set (x2 := if decide (CCT2 <= 7000) then illuminant_D_x_low CCT2
             else illuminant_D_x_high CCT2) in *.
  exists x1, (illuminant_D_y x1), x2, (illuminant_D_y x2).
  split; [unfold x1; case_decide; reflexivity |].
  split; [unfold x2; case_decide; reflexivity |].
  split; [exact Hx |].
  unfold illuminant_D_y. clearbody x1 x2. nra.
Qed.

Lemma CCT_to_xy_illuminant_D_decreasing_witness :
  exists x1 y1 x2 y2 : R,
    CCT_to_xy_illuminant_D 6500 = Ok (x1, y1) /\
    CCT_to_xy_illuminant_D 7500 = Ok (x2, y2) /\
    x2 < x1 /\ y2 < y1.
Proof. apply (CCT_to_xy_illuminant_D_decreasing 6500 7500); lra. Defined.

(** ** Hernandez-Andres, Lee and Romero (1999) *)

(** X4.  [xy_to_CCT_hernandez1999] raises [ZeroDivisionError] for every
    chromaticity with [y = 0.1735]; a value that it returns is never
    below -949.86315, the constant term of the first exponential sum. *)
Theorem xy_to_CCT_hernandez1999_pole_and_floor :
  (forall x : R, xy_to_CCT_hernandez1999 (x, 0.1735) = Raise ZeroDivisionError) /\
  (forall x y CCT : R,
     xy_to_CCT_hernandez1999 (x, y) = Ok CCT -> y <> 0.1735 /\ -949.86315 <= CCT).
Proof.
  split.
  - intros x. unfold xy_to_CCT_hernandez1999.
    rewrite (py_div_zero (x - 0.3366) (0.1735 - 0.1735)) by lra. reflexivity.
  - intros x y CCT. unfold xy_to_CCT_hernandez1999.
    destruct (Req_dec (y - 0.1735) 0) as [Hz | Hnz].
    + rewrite (py_div_zero (x - 0.3366) (y - 0.1735) Hz), bind_Raise.
      intros Hbad. discriminate Hbad.
    + rewrite (py_div_ok (x - 0.3366) (y - 0.1735) Hnz), bind_Ok.
      set (n := (x - 0.3366) / (y - 0.1735)).
      pose proof (exp_pos (- n / 0.92159)). pose proof (exp_pos (- n / 0.20039)).
      pose proof (exp_pos (- n / 0.07125)).
      assert (Hy : y <> 0.1735) by (intros Hy; apply Hnz; lra).
      case_decide.
      * destruct (Req_dec (y - 0.1691) 0) as [Hz2 | Hnz2].
        -- rewrite (py_div_zero (x - 0.3356) (y - 0.1691) Hz2), bind_Raise.
           intros Hbad. discriminate Hbad.
        -- rewrite (py_div_ok (x - 0.3356) (y - 0.1691) Hnz2), bind_Ok.
           set (m := (x - 0.3356) / (y - 0.1691)).
           pose proof (exp_pos (- m / 0.07861)). pose proof (exp_pos (- m / 0.01543)).
           intros [= <-]. split; [exact Hy |]. lra.
      * intros [= <-]. split; [exact Hy |]. lra.
Qed.

(** ** Kang (2002): the x coordinate *)

Lemma cubic_in_reciprocal_decreasing_neg (A B C D hi CCT1 CCT2 : R) :
  A <= 0 -> B <= 0 ->
  0 < 3 * A * (hi * hi) + 2 * B * hi + C ->
  / CCT1 <= hi -> 0 < CCT1 < CCT2 ->
  A / CCT2 ^ 3 + B / CCT2 ^ 2 + C / CCT2 + D < A / CCT1 ^ 3 + B / CCT1 ^ 2 + C / CCT1 + D.
Proof.
  intros HA HB Hslope Hs1 HCCT.
  assert (H2 : 0 < / CCT2) by (apply Rinv_0_lt_compat; lra).
  set (s1 := / CCT1) in *. set (s2 := / CCT2) in *.
  assert (Hs : s2 < s1) by (apply Rinv_lt_contravar; [nra | lra]).
  replace (A / CCT2 ^ 3 + B / CCT2 ^ 2 + C / CCT2 + D)
    with (A * s2 ^ 3 + B * s2 ^ 2 + C * s2 + D) by (unfold s2; field; lra).
  replace (A / CCT1 ^ 3 + B / CCT1 ^ 2 + C / CCT1 + D)
    with (A * s1 ^ 3 + B * s1 ^ 2 + C * s1 + D) by (unfold s1; field; lra).
  clearbody s1 s2.
  assert (H11 : s1 * s1 <= hi * hi) by nra.
  assert (H12 : s1 * s2 <= hi * hi) by nra.
  assert (H22 : s2 * s2 <= hi * hi) by nra.
  assert (Hq : 0 < A * (s1 * s1 + s1 * s2 + s2 * s2) + B * (s1 + s2) + C).
  { assert (A * (3 * (hi * hi)) <= A * (s1 * s1 + s1 * s2 + s2 * s2)).
    { replace (A * (3 * (hi * hi))) with (- A * - (3 * (hi * hi))) by ring.
      replace (A * (s1 * s1 + s1 * s2 + s2 * s2))
        with (- A * - (s1 * s1 + s1 * s2 + s2 * s2)) by ring.
      apply Rmult_le_compat_l; lra. }
    assert (B * (2 * hi) <= B * (s1 + s2)).
    { replace (B * (2 * hi)) with (- B * - (2 * hi)) by ring.
      replace (B * (s1 + s2)) with (- B * - (s1 + s2)) by ring.
      apply Rmult_le_compat_l; lra. }
    lra. }
  assert (Hprod : 0 < (s1 - s2) * (A * (s1 * s1 + s1 * s2 + s2 * s2) + B * (s1 + s2) + C))
    by (apply Rmult_lt_0_compat; lra).
  replace (A * s1 ^ 3 + B * s1 ^ 2 + C * s1 + D)
    with (A * s2 ^ 3 + B * s2 ^ 2 + C * s2 + D
          + (s1 - s2) * (A * (s1 * s1 + s1 * s2 + s2 * s2) + B * (s1 + s2) + C)) by ring.
  lra.
Qed.

Lemma kang2002_x_returns (CCT : R) :
  1667 <= CCT <= 25000 ->
  exists y : R,
    CCT_to_xy_kang2002 CCT
    = Ok (if decide (CCT <= 4000) then kang2002_x_low CCT else kang2002_x_high CCT, y).
Proof.
  intros Hin. unfold CCT_to_xy_kang2002.
  assert (H1 : CCT <> 0) by lra.
  assert (H2 : CCT ^ 2 <> 0) by (apply pow_nonzero; exact H1).
  assert (H3 : CCT ^ 3 <> 0) by (apply pow_nonzero; exact H1).
  rewrite !(py_div_ok _ _ H1), !(py_div_ok _ _ H2), !(py_div_ok _ _ H3).
  unfold kang2002_x_low, kang2002_x_high.
  repeat case_decide; try lra; eexists; reflexivity.
Qed.

Lemma kang2002_x_low_decreasing (CCT1 CCT2 : R) :
  1667 <= CCT1 -> CCT1 < CCT2 -> CCT2 <= 4000 ->
  kang2002_x_low CCT2 < kang2002_x_low CCT1.
Proof.
  intros H1 H12 H2. unfold kang2002_x_low.
  pose proof (reciprocal_bounds 1667 4000 CCT1 ltac:(lra) ltac:(lra)) as [_ Hs1].
  replace (-0.2661239 * 10 ^ 9 / CCT2 ^ 3 - 0.2343589 * 10 ^ 6 / CCT2 ^ 2
           + 0.8776956 * 10 ^ 3 / CCT2 + 0.179910)
    with (-0.2661239 * 10 ^ 9 / CCT2 ^ 3 + (- 0.2343589 * 10 ^ 6) / CCT2 ^ 2
          + 0.8776956 * 10 ^ 3 / CCT2 + 0.179910) by (unfold Rdiv; lra).
  replace (-0.2661239 * 10 ^ 9 / CCT1 ^ 3 - 0.2343589 * 10 ^ 6 / CCT1 ^ 2
           + 0.8776956 * 10 ^ 3 / CCT1 + 0.179910)
    with (-0.2661239 * 10 ^ 9 / CCT1 ^ 3 + (- 0.2343589 * 10 ^ 6) / CCT1 ^ 2
          + 0.8776956 * 10 ^ 3 / CCT1 + 0.179910) by (unfold Rdiv; lra).
  apply (cubic_in_reciprocal_decreasing_neg _ _ _ _ (/ 1667)); try lra.
Qed.

Lemma kang2002_x_high_decreasing_near (CCT1 CCT2 : R) :
  4000 <= CCT1 -> CCT1 < CCT2 -> CCT2 <= 8000 ->
  kang2002_x_high CCT2 < kang2002_x_high CCT1.
Proof.
  intros H1 H12 H2. unfold kang2002_x_high.
  pose proof (reciprocal_bounds 4000 8000 CCT1 ltac:(lra) ltac:(lra)) as [_ Hs1].
  pose proof (reciprocal_bounds 4000 8000 CCT2 ltac:(lra) ltac:(lra)) as [Hs2 _].
  apply (cubic_in_reciprocal_decreasing _ _ _ _ (/ 8000) (/ 4000)); try lra.
Qed.

Lemma kang2002_x_high_decreasing_far (CCT1 CCT2 : R) :
  8000 <= CCT1 -> CCT1 < CCT2 -> CCT2 <= 25000 ->
  kang2002_x_high CCT2 < kang2002_x_high CCT1.
Proof.
  intros H1 H12 H2. unfold kang2002_x_high.
  pose proof (reciprocal_bounds 8000 25000 CCT1 ltac:(lra) ltac:(lra)) as [_ Hs1].
  pose proof (reciprocal_bounds 8000 25000 CCT2 ltac:(lra) ltac:(lra)) as [Hs2 _].
  apply (cubic_in_reciprocal_decreasing _ _ _ _ (/ 25000) (/ 8000)); try lra.
Qed.

Lemma kang2002_x_high_decreasing (CCT1 CCT2 : R) :
  4000 <= CCT1 -> CCT1 < CCT2 -> CCT2 <= 25000 ->
  kang2002_x_high CCT2 < kang2002_x_high CCT1.
Proof.
  intros H1 H12 H2.
  destruct (Rle_lt_dec CCT2 8000) as [Hn | Hf];
    [apply kang2002_x_high_decreasing_near; lra |].
  destruct (Rle_lt_dec 8000 CCT1) as [Hf1 | Hn1];
    [apply kang2002_x_high_decreasing_far; lra |].
  apply Rlt_trans with (kang2002_x_high 8000).
  - apply kang2002_x_high_decreasing_far; lra.
  - apply kang2002_x_high_decreasing_near; lra.
Qed.

Lemma kang2002_x_at_4000 : kang2002_x_high 4000 < kang2002_x_low 4000.
Proof. unfold kang2002_x_high, kang2002_x_low. lra. Qed.

(** X3.  Over its domain the [x] of [CCT_to_xy_kang2002] is strictly
    decreasing in CCT, across the change of cubic at 4000 K too. *)
Theorem CCT_to_xy_kang2002_x_decreasing (CCT1 CCT2 : R) :
  1667 <= CCT1 -> CCT1 < CCT2 -> CCT2 <= 25000 ->
  exists x1 y1 x2 y2 : R,
    CCT_to_xy_kang2002 CCT1 = Ok (x1, y1) /\
    CCT_to_xy_kang2002 CCT2 = Ok (x2, y2) /\
    x2 < x1.
Proof.
  intros H1 H12 H2.
  destruct (kang2002_x_returns CCT1 ltac:(lra)) as (y1 & Hr1).
  destruct (kang2002_x_returns CCT2 ltac:(lra)) as (y2 & Hr2).
  eexists _, y1, _, y2. split; [exact Hr1 |]. split; [exact Hr2 |].
  pose proof kang2002_x_at_4000 as H4.
  destruct (decide (CCT2 <= 4000)) as [Hc2 | Hc2];
    destruct (decide (CCT1 <= 4000)) as [Hc1 | Hc1]; try lra.
  - apply kang2002_x_low_decreasing; lra.
  - assert (Hhi : kang2002_x_high CCT2 < kang2002_x_high 4000)
      by (apply kang2002_x_high_decreasing; lra).
    destruct (Req_dec CCT1 4000) as [-> | Hne]; [lra |].
    assert (Hlo : kang2002_x_low 4000 < kang2002_x_low CCT1)
      by (apply kang2002_x_low_decreasing; lra).
    lra.
  - apply kang2002_x_high_decreasing; lra.
Qed.

Lemma CCT_to_xy_kang2002_x_decreasing_witness :
  exists x1 y1 x2 y2 : R,
    CCT_to_xy_kang2002 3000 = Ok (x1, y1) /\
    CCT_to_xy_kang2002 6500 = Ok (x2, y2) /\
    x2 < x1.
Proof. apply (CCT_to_xy_kang2002_x_decreasing 3000 6500); lra. Defined.

(** ** Ohno (2013): the planckian table and the cascade *)

Lemma np_linspace_lookup (start end_ : R) (count k : nat) :
  (2 <= count)%nat -> (k < count)%nat ->
  np_linspace start end_ count !! k
  = Some (start + INR k * ((end_ - start) / INR (count - 1))).
Proof.
  intros Hc Hk. destruct count as [| [| n]]; [lia | lia |].
  unfold np_linspace. rewrite list_lookup_fmap.
  rewrite lookup_seq_lt by exact Hk. reflexivity.
Qed.

Lemma INR_pred_pos (count : nat) : (2 <= count)%nat -> 0 < INR (count - 1).
Proof. intros Hc. apply lt_0_INR. lia. Qed.

Section OhnoTable.

Variable planckian_uv : XYZ_ColourMatchingFunctions -> R -> R * R.

Lemma planckian_row_Ti uv cmfs T : Ti (planckian_row planckian_uv uv cmfs T) = T.
Proof. unfold planckian_row. destruct (planckian_uv cmfs T). reflexivity. Qed.

Lemma planckian_row_uv uv cmfs T :
  (ui (planckian_row planckian_uv uv cmfs T), vi (planckian_row planckian_uv uv cmfs T))
  = planckian_uv cmfs T.
Proof. unfold planckian_row. destruct (planckian_uv cmfs T). reflexivity. Qed.

Lemma planckian_row_di uv cmfs T :
  di (planckian_row planckian_uv uv cmfs T)
  = sqrt ((uv.1 - ui (planckian_row planckian_uv uv cmfs T)) ^ 2
          + (uv.2 - vi (planckian_row planckian_uv uv cmfs T)) ^ 2).
Proof. unfold planckian_row. destruct (planckian_uv cmfs T). reflexivity. Qed.

(** X5.  [get_planckian_table] never raises: it returns [count] rows, at
    evenly spaced temperatures from [start] to [end], each with the
    chromaticity of the blackbody at its temperature and the distance
    from [uv] to it, which is not negative. *)
Theorem get_planckian_table_rows
    (uv : R * R) (cmfs : XYZ_ColourMatchingFunctions) (start end_ : R) (count : nat) :
  exists planckian_table : list PLANCKIAN_TABLE_TUVD,
    get_planckian_table planckian_uv uv cmfs start end_ count = Ok planckian_table /\
    length planckian_table = count /\
    (forall (k : nat) (row : PLANCKIAN_TABLE_TUVD),
       planckian_table !! k = Some row ->
       (count = 1%nat -> Ti row = start) /\
       ((2 <= count)%nat ->
          Ti row = start + INR k * ((end_ - start) / INR (count - 1))) /\
       (ui row, vi row) = planckian_uv cmfs (Ti row) /\
       di row = sqrt ((uv.1 - ui row) ^ 2 + (uv.2 - vi row) ^ 2) /\
       0 <= di row) /\
    ((2 <= count)%nat ->
       exists first last : PLANCKIAN_TABLE_TUVD,
         planckian_table !! 0%nat = Some first /\ Ti first = start /\
         planckian_table !! (count - 1)%nat = Some last /\ Ti last = end_).
Proof.
  exists (map (planckian_row planckian_uv uv cmfs) (np_linspace start end_ count)).
  split; [apply get_planckian_table_Ok |].
  split; [rewrite length_map; apply np_linspace_length |].
  split.
  - intros k row Hrow. rewrite list_lookup_fmap in Hrow.
    destruct (np_linspace start end_ count !! k) as [T |] eqn:HT; [| discriminate].
    injection Hrow as <-.
    assert (Hk : (k < count)%nat).
    { rewrite <- (np_linspace_length start end_ count). apply lookup_lt_is_Some. eauto. }
    rewrite planckian_row_Ti.
    split; [| split; [| split; [| split]]].
    + intros ->. assert (k = 0%nat) as -> by lia. simpl in HT. congruence.
    + intros Hc. rewrite (np_linspace_lookup _ _ _ _ Hc Hk) in HT. congruence.
    + apply planckian_row_uv.
    + apply planckian_row_di.
    + rewrite planckian_row_di. apply sqrt_pos.
  - intros Hc.
    exists (planckian_row planckian_uv uv cmfs (start + INR 0 * ((end_ - start) / INR (count - 1)))),
           (planckian_row planckian_uv uv cmfs
              (start + INR (count - 1) * ((end_ - start) / INR (count - 1)))).
    pose proof (INR_pred_pos count Hc) as Hpos.
    rewrite !list_lookup_fmap, !np_linspace_lookup by lia.
    rewrite !planckian_row_Ti.
    split; [reflexivity |]. split; [simpl; ring |]. split; [reflexivity |].
    field. lra.
Qed.

(** *** Too few samples *)

Lemma loop_first_raise uv cmfs count n st ws e :
  uv_to_CCT_ohno2013_body planckian_uv uv cmfs count st = (ws, Raise e) ->
  uv_to_CCT_ohno2013_loop planckian_uv uv cmfs count (S n) st = (ws, Raise e).
Proof. intros Hbody. cbn [uv_to_CCT_ohno2013_loop]. rewrite Hbody. reflexivity. Qed.

Lemma loop_first_Ok uv cmfs count n st ws st' ws' r :
  uv_to_CCT_ohno2013_body planckian_uv uv cmfs count st = (ws, Ok st') ->
  uv_to_CCT_ohno2013_loop planckian_uv uv cmfs count n st' = (ws', r) ->
  uv_to_CCT_ohno2013_loop planckian_uv uv cmfs count (S n) st = (ws ++ ws', r).
Proof.
  intros Hbody Hrest. cbn [uv_to_CCT_ohno2013_loop]. rewrite Hbody.
  cbn [mbind logged_bind]. rewrite Hrest. reflexivity.
Qed.

Lemma passes_pos (iterations : Z) :
  exists n : nat,
    Z.to_nat (if decide (iterations <= 0)%Z then 1%Z else iterations) = S n.
Proof.
  destruct (decide (iterations <= 0)%Z) as [Hle | Hgt].
  - exists 0%nat. reflexivity.
  - exists (Z.to_nat iterations - 1)%nat. lia.
Qed.

Lemma body_no_samples uv cmfs st :
  uv_to_CCT_ohno2013_body planckian_uv uv cmfs 0 st
  = ([], Raise (ValueError "min() arg is an empty sequence")).
Proof. reflexivity. Qed.

Lemma py_list_index_head (x : R) (l : list R) : py_list_index x (x :: l) = Ok 0%nat.
Proof. simpl. destruct (decide (x = x)) as [_ | Hne]; [reflexivity | contradiction]. Qed.

Lemma body_one_sample uv cmfs st :
  uv_to_CCT_ohno2013_body planckian_uv uv cmfs 1 st
  = ([lowest_bound_warning], Raise IndexError).
Proof.
  unfold uv_to_CCT_ohno2013_body.
  set (row := planckian_row planckian_uv uv cmfs (cs_start st)).
  assert (Htable : get_planckian_table planckian_uv uv cmfs (cs_start st) (cs_end st) 1
                   = Ok [row]) by (rewrite get_planckian_table_Ok; reflexivity).
  assert (Hidx : Z.of_nat <$> get_planckian_table_minimal_distance_index [row] = Ok 0%Z).
  { unfold get_planckian_table_minimal_distance_index. simpl map. simpl py_min.
    rewrite bind_Ok, py_list_index_head. reflexivity. }
  rewrite (lift_bind_Ok _ _ [row] Htable), (lift_bind_Ok _ _ 0%Z Hidx).
  reflexivity.
Qed.

(** One pass on two samples: the index is moved inward from either end;
    from the first row the row after the next is missing, from the last
    row the previous row is read from the end of the list. *)
Lemma body_two_samples uv cmfs st :
  let r0 := planckian_row planckian_uv uv cmfs
              (cs_start st + INR 0 * ((cs_end st - cs_start st) / INR (2 - 1))) in
  let r1 := planckian_row planckian_uv uv cmfs
              (cs_start st + INR 1 * ((cs_end st - cs_start st) / INR (2 - 1))) in
  uv_to_CCT_ohno2013_body planckian_uv uv cmfs 2 st
  = if decide (di r1 < di r0)
    then ([highest_bound_warning],
          Ok {| cs_start := Ti r1; cs_end := Ti r1; cs_last := Some ([r0; r1], 0%Z) |})
    else ([lowest_bound_warning], Raise IndexError).
Proof.
  intros r0 r1. unfold uv_to_CCT_ohno2013_body.
  assert (Htable : get_planckian_table planckian_uv uv cmfs (cs_start st) (cs_end st) 2
                   = Ok [r0; r1]) by (rewrite get_planckian_table_Ok; reflexivity).
  rewrite (lift_bind_Ok _ _ [r0; r1] Htable).
  unfold get_planckian_table_minimal_distance_index. simpl map. simpl py_min.
  rewrite bind_Ok. unfold min_step.
  destruct (decide (di r1 < di r0)) as [Hlt | Hge].
  - assert (Hidx : Z.of_nat <$> py_list_index (di r1) [di r0; di r1] = Ok 1%Z).
    { simpl py_list_index.
      destruct (decide (di r0 = di r1)) as [Heq | _]; [lra |].
      destruct (decide (di r1 = di r1)) as [_ | Hne]; [| contradiction].
      reflexivity. }
    rewrite (lift_bind_Ok _ _ 1%Z Hidx). reflexivity.
  - assert (Hidx : Z.of_nat <$> py_list_index (di r0) [di r0; di r1] = Ok 0%Z)
      by (rewrite py_list_index_head; reflexivity).
    rewrite (lift_bind_Ok _ _ 0%Z Hidx). reflexivity.
Qed.

Lemma triangular_same_neighbours uv (p c : PLANCKIAN_TABLE_TUVD) :
  ohno_triangular_solution uv p c p = Raise ZeroDivisionError.
Proof.
  unfold ohno_triangular_solution. destruct uv as [ux vx]. cbv zeta.
  replace ((ui p - ui p) ^ 2 + (vi p - vi p) ^ 2) with 0 by ring.
  rewrite math_sqrt_ok by lra. rewrite sqrt_0, bind_Ok.
  rewrite py_div_zero by ring. reflexivity.
Qed.

(** X6.  With fewer than three samples [uv_to_CCT_ohno2013] never
    returns.  With none, the minimum of no distances is a [ValueError];
    with one, the index is moved to 1 under the lowest bound warning and
    the row at 2 is missing; with two, either that happens, or the two
    neighbours are one and the same row and the triangular solution
    divides by zero. *)
Theorem uv_to_CCT_ohno2013_too_few_samples
    (uv : R * R) (cmfs : XYZ_ColourMatchingFunctions) (start end_ : R)
    (count : nat) (iterations : Z) :
  (count <= 2)%nat ->
  exists (ws : list string) (e : exn),
    uv_to_CCT_ohno2013 planckian_uv uv cmfs start end_ count iterations = (ws, Raise e) /\
    (count = 0%nat -> ws = [] /\ e = ValueError "min() arg is an empty sequence") /\
    (count = 1%nat -> ws = [lowest_bound_warning] /\ e = IndexError) /\
    (count = 2%nat -> e = IndexError \/ e = ZeroDivisionError).
Proof.
  intros Hcount. unfold uv_to_CCT_ohno2013. cbv zeta.
  destruct (passes_pos iterations) as (n & ->).
  set (st0 := {| cs_start := start; cs_end := end_; cs_last := None |}).
  destruct count as [| [| [| count]]]; [| | | lia].
  - exists [], (ValueError "min() arg is an empty sequence").
    rewrite (loop_first_raise _ _ _ _ _ _ _ (body_no_samples uv cmfs st0)).
    split; [reflexivity |]. split; [auto |]. split; intros; discriminate.
  - exists [lowest_bound_warning], IndexError.
    rewrite (loop_first_raise _ _ _ _ _ _ _ (body_one_sample uv cmfs st0)).
    split; [reflexivity |]. split; [intros; discriminate |]. split; [auto | intros; discriminate].
  - pose proof (body_two_samples uv cmfs st0) as Hbody. cbv zeta in Hbody.
    set (r0 := planckian_row planckian_uv uv cmfs
                 (cs_start st0 + INR 0 * ((cs_end st0 - cs_start st0) / INR (2 - 1))))
      in Hbody.
    set (r1 := planckian_row planckian_uv uv cmfs
                 (cs_start st0 + INR 1 * ((cs_end st0 - cs_start st0) / INR (2 - 1))))
      in Hbody.
    destruct (decide (di r1 < di r0)) as [Hlt | Hge].
    + set (st1 := {| cs_start := Ti r1; cs_end := Ti r1; cs_last := Some ([r0; r1], 0%Z) |})
        in Hbody.
      destruct n as [| n].
      * exists [highest_bound_warning], ZeroDivisionError.
        split; [| split; [intros; discriminate | split; [intros; discriminate | auto]]].
        rewrite (loop_first_Ok _ _ _ 0 _ _ _ [] (Ok st1) Hbody eq_refl). cbn [mbind logged_bind]. unfold st1. cbn [cs_last].
        assert (Gp : py_getitem [r0; r1] (0 - 1) = Ok r1) by reflexivity.
        assert (Gc : py_getitem [r0; r1] 0 = Ok r0) by reflexivity.
        assert (Gn : py_getitem [r0; r1] (0 + 1) = Ok r1) by reflexivity.
        rewrite Gp, Gc, Gn, !bind_Ok. unfold uv_to_CCT_ohno2013_fit.
        rewrite triangular_same_neighbours. reflexivity.
      * exists [highest_bound_warning; lowest_bound_warning], IndexError.
        split; [| split; [intros; discriminate | split; [intros; discriminate | auto]]].
        pose proof (body_two_samples uv cmfs st1) as Hbody1. cbv zeta in Hbody1.
        assert (Hsame : cs_start st1 + INR 1 * ((cs_end st1 - cs_start st1) / INR (2 - 1))
                        = cs_start st1 + INR 0 * ((cs_end st1 - cs_start st1) / INR (2 - 1))).
        { unfold st1. simpl. field. }
        rewrite Hsame in Hbody1.
        destruct (decide (_ < _)) as [Hbad | _] in Hbody1; [lra |].
        assert (Hloop : uv_to_CCT_ohno2013_loop planckian_uv uv cmfs 2 (S n) st1
                        = ([lowest_bound_warning], Raise IndexError))
          by (apply loop_first_raise; exact Hbody1).
        rewrite (loop_first_Ok _ _ _ _ _ _ _ _ _ Hbody Hloop). reflexivity.
    + exists [lowest_bound_warning], IndexError.
      rewrite (loop_first_raise _ _ _ _ _ _ _ Hbody).
      split; [reflexivity |]. split; [intros; discriminate |].
      split; [intros; discriminate | auto].
Qed.

End OhnoTable.

Lemma np_div_ok (a b : R) : b <> 0 -> np_div a b = Ok (a / b).
Proof. intros Hb. unfold np_div. case_decide; [contradiction | reflexivity]. Qed.

Lemma pow2_pos (x : R) : x <> 0 -> 0 < x ^ 2.
Proof.
  intros Hx. replace (x ^ 2) with (Rsqr x) by (unfold Rsqr; ring).
  apply Rsqr_pos_lt. exact Hx.
Qed.

(** Two points that differ are at a positive distance. *)
Lemma points_apart (a b a' b' : R) :
  (a, b) <> (a', b') -> 0 < (a' - a) ^ 2 + (b' - b) ^ 2.
Proof.
  intros Hne.
  pose proof (pow2_ge_0 (a' - a)). pose proof (pow2_ge_0 (b' - b)).
  destruct (Req_dec (a' - a) 0) as [Hu | Hu].
  - destruct (Req_dec (b' - b) 0) as [Hv | Hv].
    + exfalso. apply Hne. f_equal; lra.
    + pose proof (pow2_pos _ Hv). lra.
  - pose proof (pow2_pos _ Hu). lra.
Qed.

Section OhnoCascade.

Variable planckian_uv : XYZ_ColourMatchingFunctions -> R -> R * R.

(** One pass on at least three samples: the next range is made of the
    two steps of the table around the index. *)
Lemma uv_to_CCT_ohno2013_body_range uv cmfs (count : nat) (st : cascade_state) :
  (3 <= count)%nat ->
  exists (ws : list string) (st' : cascade_state) (k : nat),
    uv_to_CCT_ohno2013_body planckian_uv uv cmfs count st = (ws, Ok st') /\
    (length ws <= 1)%nat /\
    (k + 2 <= count - 1)%nat /\
    cs_start st' = cs_start st + INR k * ((cs_end st - cs_start st) / INR (count - 1)) /\
    cs_end st' = cs_start st + INR (k + 2) * ((cs_end st - cs_start st) / INR (count - 1)).
Proof.
  intros Hcount.
  pose proof (get_planckian_table_Ok planckian_uv uv cmfs (cs_start st) (cs_end st) count)
    as Htable.
  set (table := map (planckian_row planckian_uv uv cmfs)
                    (np_linspace (cs_start st) (cs_end st) count)) in *.
  assert (Hlen : length table = count)
    by (unfold table; rewrite length_map; apply np_linspace_length).
  assert (Hne : table <> []) by (destruct table; simpl in Hlen; [lia | congruence]).
  destruct (minimal_distance_index_in_range table Hne) as (idx & Hidx & Hlt).
  destruct (ohno_boundary_policy_spec table idx)
    as (ws & index & Hpol & Hrange & Hlow & Hhigh & Hmid); [lia | exact Hlt |].
  destruct Hrange as [Hlo Hhi].
  assert (Hrow : forall j : nat, (j < count)%nat ->
            table !! j = Some (planckian_row planckian_uv uv cmfs
                                 (cs_start st + INR j * ((cs_end st - cs_start st)
                                                         / INR (count - 1))))).
  { intros j Hj. unfold table. rewrite list_lookup_fmap.
    rewrite np_linspace_lookup by lia. reflexivity. }
  set (k := Z.to_nat (index - 1)).
  assert (Hk2 : Z.to_nat (index + 1) = (k + 2)%nat) by (unfold k; lia).
  pose proof (Hrow k ltac:(unfold k; lia)) as Hp.
  pose proof (Hrow (k + 2)%nat ltac:(unfold k; lia)) as Hn.
  pose proof (py_getitem_in_range table (index - 1) _ Hlo Hp) as Gp.
  rewrite <- Hk2 in Hn.
  pose proof (py_getitem_in_range table (index + 1) _ ltac:(lia) Hn) as Gn.
  exists ws. eexists. exists k. split.
  - unfold uv_to_CCT_ohno2013_body.
    rewrite (lift_bind_Ok _ _ table Htable).
    rewrite (lift_bind_Ok _ _ (Z.of_nat idx)) by (rewrite Hidx; reflexivity).
    erewrite logged_bind_Ok; [| exact Hpol |].
    2:{ rewrite (lift_bind_Ok _ _ _ Gp), (lift_bind_Ok _ _ _ Gn). reflexivity. }
    rewrite app_nil_r. reflexivity.
  - cbn [cs_start cs_end]. rewrite !planckian_row_Ti, Hk2.
    split; [| split; [unfold k; lia | split; reflexivity]].
    destruct (Nat.eq_dec idx 0%nat) as [H0 | H0].
    + destruct (Hlow H0) as [-> _]. simpl. lia.
    + destruct (Nat.eq_dec idx (length table - 1)%nat) as [H1 | H1].
      * destruct (Hhigh H1) as [-> _]. simpl. lia.
      * destruct (Hmid ltac:(lia)) as [-> _]. simpl. lia.
Qed.

(** X7.  With at least three samples the cascade never raises; every pass
    emits at most one warning and replaces the range of temperatures by
    two steps of its table, so that after [n] passes the range is
    [(2 / (count - 1)) ^ n] times as wide, and, from a range with
    [start <= end], lies inside it. *)
Theorem uv_to_CCT_ohno2013_cascade_narrows
    (uv : R * R) (cmfs : XYZ_ColourMatchingFunctions) (count n : nat) (st : cascade_state) :
  (3 <= count)%nat ->
  exists (ws : list string) (st' : cascade_state),
    uv_to_CCT_ohno2013_loop planckian_uv uv cmfs count n st = (ws, Ok st') /\
    (length ws <= n)%nat /\
    cs_end st' - cs_start st' = (2 / INR (count - 1)) ^ n * (cs_end st - cs_start st) /\
    (cs_start st <= cs_end st ->
     cs_start st <= cs_start st' /\ cs_start st' <= cs_end st' /\ cs_end st' <= cs_end st).
Proof.
  intros Hcount. revert st.
  assert (Hpos : 0 < INR (count - 1)) by (apply lt_0_INR; lia).
  induction n as [| n IH]; intros st.
  - exists [], st. split; [reflexivity |]. split; [simpl; lia |].
    split; [simpl; ring | intros; lra].
  - destruct (uv_to_CCT_ohno2013_body_range uv cmfs count st Hcount)
      as (ws1 & st1 & k & Hbody & Hw1 & Hk & Hs1 & He1).
    destruct (IH st1) as (ws2 & st2 & Hloop & Hw2 & Hwidth & Hin).
    exists (ws1 ++ ws2), st2.
    split; [exact (loop_first_Ok planckian_uv _ _ _ _ _ _ _ _ _ Hbody Hloop) |].
    split; [rewrite length_app; lia |].
    set (step := (cs_end st - cs_start st) / INR (count - 1)) in *.
    assert (Hw : cs_end st1 - cs_start st1 = 2 * step).
    { rewrite Hs1, He1, plus_INR. simpl INR. ring. }
    split.
    + rewrite Hwidth, Hw. unfold step. simpl pow. field. lra.
    + intros Hle.
      assert (Hstep : 0 <= step).
      { unfold step. apply Rmult_le_pos; [lra | left; apply Rinv_0_lt_compat; exact Hpos]. }
      assert (Hend : cs_end st = cs_start st + INR (count - 1) * step)
        by (unfold step; field; lra).
      pose proof (pos_INR k) as Hk0.
      assert (Hk2 : INR (k + 2) <= INR (count - 1)) by (apply le_INR; exact Hk).
      destruct Hin as (Ha & Hb & Hc); [lra |].
      assert (0 <= INR k * step) by (apply Rmult_le_pos; assumption).
      assert (INR (k + 2) * step <= INR (count - 1) * step)
        by (apply Rmult_le_compat_r; assumption).
      lra.
Qed.

(** *** The triangular solution *)

(** X8.  Whenever the triangular solution returns, on two neighbours
    whose distances are those from [uv], the absolute value of its [Duv]
    is the distance from [uv] to the line through the two neighbours,
    its sign is that of [sign], and its [T] is the temperature
    interpolated at the foot of the perpendicular.  (That it returns is
    not stated: the division by [l] raises when the two neighbours
    coincide, and on floats the radicand may round below zero.) *)
Theorem ohno_triangular_solution_distance
    (uv : R * R) (p c n : PLANCKIAN_TABLE_TUVD) (T Duv sign : R) :
  di p = sqrt ((uv.1 - ui p) ^ 2 + (uv.2 - vi p) ^ 2) ->
  di n = sqrt ((uv.1 - ui n) ^ 2 + (uv.2 - vi n) ^ 2) ->
  ohno_triangular_solution uv p c n = Ok (T, Duv, sign) ->
  (sign = 1 \/ sign = -1) /\ 0 <= Duv * sign /\
  Duv ^ 2 * ((ui n - ui p) ^ 2 + (vi n - vi p) ^ 2)
  = ((uv.1 - ui p) * (vi n - vi p) - (uv.2 - vi p) * (ui n - ui p)) ^ 2 /\
  (T - Ti p) * ((ui n - ui p) ^ 2 + (vi n - vi p) ^ 2)
  = (Ti n - Ti p) * ((uv.1 - ui p) * (ui n - ui p) + (uv.2 - vi p) * (vi n - vi p)).
Proof.
  destruct uv as [ux vx]. cbn [fst snd]. intros Hdp Hdn Hres.
  set (L2 := (ui n - ui p) ^ 2 + (vi n - vi p) ^ 2).
  assert (HL20 : 0 <= L2) by (apply Rplus_le_le_0_compat; apply pow2_ge_0).
  unfold ohno_triangular_solution in Hres. cbv zeta in Hres. fold L2 in Hres.
  rewrite math_sqrt_ok in Hres by exact HL20. rewrite bind_Ok in Hres.
  set (l := sqrt L2) in *.
  destruct (Req_dec (2 * l) 0) as [Hz | Hnz].
  { rewrite (py_div_zero _ (2 * l) Hz), bind_Raise in Hres. discriminate Hres. }
  rewrite (py_div_ok _ (2 * l) Hnz), bind_Ok in Hres.
  assert (Hl : 0 < l) by (pose proof (sqrt_pos L2); fold l in H; lra).
  assert (Hll : l ^ 2 = L2) by (apply pow2_sqrt; exact HL20).
  set (x := (di p ^ 2 - di n ^ 2 + l ^ 2) / (2 * l)) in *.
  rewrite !py_div_ok in Hres by lra. rewrite !bind_Ok in Hres.
  unfold py_pow_half in Hres.
  destruct (decide (di p ^ 2 - x ^ 2 < 0)) as [Hneg | Hrad0].
  { rewrite bind_Raise in Hres. discriminate Hres. }
  rewrite bind_Ok in Hres. injection Hres as HT HDuv Hsign.
  assert (Hp2 : di p ^ 2 = (ux - ui p) ^ 2 + (vx - vi p) ^ 2).
  { rewrite Hdp. apply pow2_sqrt. apply Rplus_le_le_0_compat; apply pow2_ge_0. }
  assert (Hn2 : di n ^ 2 = (ux - ui n) ^ 2 + (vx - vi n) ^ 2).
  { rewrite Hdn. apply pow2_sqrt. apply Rplus_le_le_0_compat; apply pow2_ge_0. }
  set (dot := (ux - ui p) * (ui n - ui p) + (vx - vi p) * (vi n - vi p)).
  set (cross := (ux - ui p) * (vi n - vi p) - (vx - vi p) * (ui n - ui p)).
  assert (Hx : x = dot / l).
  { unfold x. rewrite Hp2, Hn2, Hll. unfold L2, dot. field. lra. }
  assert (Hrad : di p ^ 2 - x ^ 2 = cross ^ 2 / L2).
  { rewrite Hx, Hp2.
    replace ((dot / l) ^ 2) with (dot ^ 2 / (l ^ 2)) by (field; lra).
    rewrite Hll. unfold dot, cross, L2. field. fold L2. rewrite <- Hll.
    apply pow_nonzero. lra. }
  assert (Hs : sign = 1 \/ sign = -1)
    by (rewrite <- Hsign; case_decide; [left | right]; reflexivity).
  split; [exact Hs |].
  assert (HD : Duv = sqrt (di p ^ 2 - x ^ 2) * sign)
    by (rewrite <- HDuv, Hsign; reflexivity).
  assert (HTe : T = Ti p + (Ti n - Ti p) * (x / l)) by (symmetry; exact HT).
  assert (Hs2 : sign ^ 2 = 1) by (destruct Hs as [H1 | H1]; rewrite H1; ring).
  assert (Hsq : sqrt (di p ^ 2 - x ^ 2) ^ 2 = cross ^ 2 / L2)
    by (rewrite pow2_sqrt by lra; exact Hrad).
  pose proof (sqrt_pos (di p ^ 2 - x ^ 2)) as Hs0.
  assert (HL2 : L2 <> 0) by (rewrite <- Hll; apply pow_nonzero; lra).
  rewrite HD, HTe. clear HD HTe HDuv HT.
  set (s := sqrt (di p ^ 2 - x ^ 2)) in *. clearbody s.
  split.
  - replace (s * sign * sign) with (s * sign ^ 2) by ring. rewrite Hs2. lra.
  - split.
    + replace ((s * sign) ^ 2) with (s ^ 2 * sign ^ 2) by ring.
      rewrite Hs2, Hsq. field. exact HL2.
    + rewrite Hx. replace (dot / l / l) with (dot / l ^ 2) by (field; lra).
      rewrite Hll. field. exact HL2.
Qed.

(** *** The inverse *)

(** X9.  [CCT_to_uv_ohno2013] returns the chromaticity of the blackbody
    itself for [Duv = 0]; otherwise, where the blackbody at [CCT + 0.01]
    has another chromaticity, it returns a point at the distance [|Duv|]
    from that of the blackbody at [CCT], on the perpendicular to the
    chord between the two, on the side that the sign of [Duv] tells. *)
Theorem CCT_to_uv_ohno2013_offset
    (CCT Duv : R) (cmfs : XYZ_ColourMatchingFunctions) :
  Duv = 0 \/ planckian_uv cmfs CCT <> planckian_uv cmfs (CCT + 0.01) ->
  exists u v : R,
    CCT_to_uv_ohno2013 planckian_uv CCT Duv cmfs = Ok (u, v) /\
    let u0 := (planckian_uv cmfs CCT).1 in
    let v0 := (planckian_uv cmfs CCT).2 in
    let du := u0 - (planckian_uv cmfs (CCT + 0.01)).1 in
    let dv := v0 - (planckian_uv cmfs (CCT + 0.01)).2 in
    (Duv = 0 -> u = u0 /\ v = v0) /\
    (u - u0) ^ 2 + (v - v0) ^ 2 = Duv ^ 2 /\
    (u - u0) * du + (v - v0) * dv = 0 /\
    du * (v - v0) - dv * (u - u0) = Duv * sqrt (du ^ 2 + dv ^ 2).
Proof.
  intros Hcase. unfold CCT_to_uv_ohno2013. cbv zeta.
  destruct (planckian_uv cmfs CCT) as [u0 v0] eqn:H0.
  destruct (decide (Duv = 0)) as [-> | HDuv].
  - exists u0, v0. split; [reflexivity |]. cbn [fst snd].
    split; [auto |]. split; [ring |]. split; ring.
  - destruct Hcase as [Hz | Hne]; [contradiction |].
    destruct (planckian_uv cmfs (CCT + 0.01)) as [u1 v1] eqn:H1.
    cbn [fst snd].
    set (du := u0 - u1). set (dv := v0 - v1).
    assert (HL2 : 0 < du ^ 2 + dv ^ 2).
    { unfold du, dv. apply points_apart. intros Heq. apply Hne. congruence. }
    assert (Hl : 0 < sqrt (du ^ 2 + dv ^ 2)) by (apply sqrt_lt_R0; exact HL2).
    assert (Hll : sqrt (du ^ 2 + dv ^ 2) ^ 2 = du ^ 2 + dv ^ 2) by (apply pow2_sqrt; lra).
    rewrite math_sqrt_ok by lra. rewrite bind_Ok.
    set (l := sqrt (du ^ 2 + dv ^ 2)) in *.
    rewrite np_div_ok by lra. rewrite !bind_Ok.
    rewrite np_div_ok by lra. rewrite bind_Ok.
    exists (u0 - Duv * (dv / l)), (v0 + Duv * (du / l)).
    split; [reflexivity |].
    split; [intros; contradiction |].
    split; [| split].
    + replace ((u0 - Duv * (dv / l) - u0) ^ 2 + (v0 + Duv * (du / l) - v0) ^ 2)
        with (Duv ^ 2 * ((du ^ 2 + dv ^ 2) / l ^ 2)) by (field; lra).
      rewrite Hll. field. lra.
    + field. lra.
    + replace (du * (v0 + Duv * (du / l) - v0) - dv * (u0 - Duv * (dv / l) - u0))
        with (Duv * ((du ^ 2 + dv ^ 2) / l)) by (field; lra).
      rewrite <- Hll. field. lra.
Qed.

End OhnoCascade.

(** *** Witnesses on the straight locus *)

Lemma uv_to_CCT_ohno2013_too_few_samples_witness :
  exists (ws : list string) (e : exn),
    uv_to_CCT_ohno2013 line_locus (0, 0) CIE_1931_2_Degree_Standard_Observer 1 2 2 6
    = (ws, Raise e) /\
    (2%nat = 0%nat -> ws = [] /\ e = ValueError "min() arg is an empty sequence") /\
    (2%nat = 1%nat -> ws = [lowest_bound_warning] /\ e = IndexError) /\
    (2%nat = 2%nat -> e = IndexError \/ e = ZeroDivisionError).
Proof.
  apply (uv_to_CCT_ohno2013_too_few_samples line_locus (0, 0)
           CIE_1931_2_Degree_Standard_Observer 1 2 2 6).
  lia.
Defined.

Lemma uv_to_CCT_ohno2013_cascade_narrows_witness :
  exists (ws : list string) (st' : cascade_state),
    uv_to_CCT_ohno2013_loop line_locus (0, 0) CIE_1931_2_Degree_Standard_Observer 10 6
      {| cs_start := 1000; cs_end := 100000; cs_last := None |} = (ws, Ok st') /\
    (length ws <= 6)%nat /\
    cs_end st' - cs_start st' = (2 / INR (10 - 1)) ^ 6 * (100000 - 1000) /\
    (1000 <= 100000 ->
     1000 <= cs_start st' /\ cs_start st' <= cs_end st' /\ cs_end st' <= 100000).
Proof.
  apply (uv_to_CCT_ohno2013_cascade_narrows line_locus (0, 0)
           CIE_1931_2_Degree_Standard_Observer 10 6
           {| cs_start := 1000; cs_end := 100000; cs_last := None |}).
  lia.
Defined.

Lemma ohno_triangular_solution_distance_witness :
  (-1 = 1 \/ -1 = -1) /\ 0 <= -0.0024 * -1 /\
  (-0.0024) ^ 2 * ((ui below_locus_n - ui below_locus_p) ^ 2
                   + (vi below_locus_n - vi below_locus_p) ^ 2)
  = ((below_locus_uv.1 - ui below_locus_p) * (vi below_locus_n - vi below_locus_p)
     - (below_locus_uv.2 - vi below_locus_p) * (ui below_locus_n - ui below_locus_p)) ^ 2 /\
  (1720 - Ti below_locus_p) * ((ui below_locus_n - ui below_locus_p) ^ 2
                               + (vi below_locus_n - vi below_locus_p) ^ 2)
  = (Ti below_locus_n - Ti below_locus_p)
    * ((below_locus_uv.1 - ui below_locus_p) * (ui below_locus_n - ui below_locus_p)
       + (below_locus_uv.2 - vi below_locus_p) * (vi below_locus_n - vi below_locus_p)).
Proof.
  apply (ohno_triangular_solution_distance below_locus_uv below_locus_p below_locus_c
           below_locus_n 1720 (-0.0024) (-1)).
  - symmetry. apply sqrt_value; simpl; lra.
  - symmetry. apply sqrt_value; simpl; lra.
  - exact below_locus_triangular.
Defined.

Lemma CCT_to_uv_ohno2013_offset_witness :
  exists u v : R,
    CCT_to_uv_ohno2013 line_locus 6500 0.01 CIE_1931_2_Degree_Standard_Observer = Ok (u, v) /\
    let u0 := (line_locus CIE_1931_2_Degree_Standard_Observer 6500).1 in
    let v0 := (line_locus CIE_1931_2_Degree_Standard_Observer 6500).2 in
    let du := u0 - (line_locus CIE_1931_2_Degree_Standard_Observer (6500 + 0.01)).1 in
    let dv := v0 - (line_locus CIE_1931_2_Degree_Standard_Observer (6500 + 0.01)).2 in
    (0.01 = 0 -> u = u0 /\ v = v0) /\
    (u - u0) ^ 2 + (v - v0) ^ 2 = 0.01 ^ 2 /\
    (u - u0) * du + (v - v0) * dv = 0 /\
    du * (v - v0) - dv * (u - u0) = 0.01 * sqrt (du ^ 2 + dv ^ 2).
Proof.
  apply (CCT_to_uv_ohno2013_offset line_locus 6500 0.01 CIE_1931_2_Degree_Standard_Observer).
  right. unfold line_locus. intros Heq. injection Heq as Hu. lra.
Defined.

(** ** Robertson (1968): the forward walk at and beyond the table *)

(** The projection at the fraction 0 is the one on the line itself. *)
Lemma walk_Duv_at_0 (u v : R) (wr wp : ROBERTSON_ISOTEMPERATURE_LINES_RUVT) :
  walk_Duv u v wr wp 0 = (u - ruvt_u wr) * line_du wr + (v - ruvt_v wr) * line_dv wr.
Proof.
  unfold walk_Duv. cbv zeta.
  replace ((line_du wr * (1 - 0) + line_du wp * 0) * (line_du wr * (1 - 0) + line_du wp * 0)
           + (line_dv wr * (1 - 0) + line_dv wp * 0) * (line_dv wr * (1 - 0) + line_dv wp * 0))
    with (line_du wr * line_du wr + line_dv wr * line_dv wr) by ring.
  rewrite line_direction_unit, sqrt_1. field.
Qed.

(** X10.  [uv_to_CCT_robertson1968] returns a temperature between those
    of the last and of the first line of the walk, 1e6/600 K and
    1e6/10 K, for every [uv]. *)
Theorem uv_to_CCT_robertson1968_T_range (uv : R * R) :
  exists T Duv : R,
    uv_to_CCT_robertson1968 uv = Ok (T, Duv) /\
    1.0e6 / 600 <= T <= 1.0e6 / 10.
Proof.
  destruct uv as [u v].
  destruct (uv_to_CCT_robertson1968_break u v)
    as (i & f & T & Dint & Hi & Hres & Hbreak & _).
  exists T, (- Dint). split; [exact Hres |].
  destruct Hbreak as (wr & wp & Hwr & Hwp & _ & Hf1 & _ & Hf & Hden & HT & _).
  assert (H1 : line_r_of 1 = 10) by (unfold line_r_of; simpl; lra).
  assert (H30 : line_r_of 30 = 600) by (unfold line_r_of; simpl; lra).
  pose proof (line_r_of_le i 30 ltac:(lia)) as Hhi.
  rewrite (lines_r _ _ Hwr), (lines_r _ _ Hwp) in *.
  set (r := line_r_of i) in *. set (rp := line_r_of (i - 1)) in *.
  set (den := rp * f + r * (1 - f)) in *.
  assert (Hrange : 10 <= den <= 600).
  { destruct (Nat.eq_dec i 1%nat) as [-> | Hne].
    - unfold den, r. rewrite (Hf1 eq_refl), H1. lra.
    - pose proof (line_r_of_le 1 (i - 1) ltac:(lia)) as Hlo.
      pose proof (line_r_of_le (i - 1) i ltac:(lia)) as Hle.
      fold r rp in Hlo, Hle, Hhi. unfold den. split; nra. }
  rewrite HT. unfold Rdiv. split.
  - apply Rmult_le_compat_l; [lra |]. apply Rinv_le_contravar; lra.
  - apply Rmult_le_compat_l; [lra |]. apply Rinv_le_contravar; lra.
Qed.

Lemma line_10_lookup : ROBERTSON_ISOTEMPERATURE_LINES !! 1%nat = Some line_10.
Proof. reflexivity. Qed.
Lemma line_600_lookup : ROBERTSON_ISOTEMPERATURE_LINES !! 30%nat = Some line_600.
Proof. reflexivity. Qed.

(** X11.  A point on the line at 10 mired or before it gets the
    temperature of that line, 100000 K, and its projection on the
    direction of that line as [Duv]. *)
Theorem uv_to_CCT_robertson1968_before_first_line (u v : R) :
  line_dt u v line_10 <= 0 ->
  uv_to_CCT_robertson1968 (u, v)
  = Ok (100000, - ((u - ruvt_u line_10) * line_du line_10
                   + (v - ruvt_v line_10) * line_dv line_10)).
Proof.
  intros Hdt.
  destruct (uv_to_CCT_robertson1968_break u v)
    as (i & f & T & Dint & Hi & Hres & Hbreak & Hall).
  assert (Hi1 : i = 1%nat).
  { destruct (Nat.eq_dec i 1%nat) as [H1 | H1]; [exact H1 |].
    pose proof (Hall 1%nat line_10 ltac:(lia) line_10_lookup). lra. }
  subst i.
  destruct Hbreak as (wr & wp & Hwr & Hwp & _ & Hf1 & _ & _ & _ & HT & HD).
  rewrite line_10_lookup in Hwr. injection Hwr as <-.
  rewrite (Hf1 eq_refl) in *.
  rewrite Hres, HT, HD, walk_Duv_at_0. apply f_equal. apply pair_eq; [| reflexivity].
  cbn [ruvt_r line_10]. replace (ruvt_r wp * 0 + 10 * (1 - 0)) with 10 by ring. lra.
Qed.

Lemma uv_to_CCT_robertson1968_before_first_line_witness :
  uv_to_CCT_robertson1968 (0.1, 0.2)
  = Ok (100000, - ((0.1 - ruvt_u line_10) * line_du line_10
                   + (0.2 - ruvt_v line_10) * line_dv line_10)).
Proof.
  apply (uv_to_CCT_robertson1968_before_first_line 0.1 0.2).
  rewrite line_dt_eq. cbn [ruvt_u ruvt_v ruvt_t line_10].
  pose proof (Rinv_0_lt_compat _ (line_len_pos line_10)). nra.
Defined.

(** X12.  A point past every line of the table gets the temperature of the
    last line, 1e6/600 K, and its projection on the direction of that
    line as [Duv]. *)
Theorem uv_to_CCT_robertson1968_past_last_line (u v : R) :
  (forall (j : nat) (wj : ROBERTSON_ISOTEMPERATURE_LINES_RUVT),
     (1 <= j <= 30)%nat -> ROBERTSON_ISOTEMPERATURE_LINES !! j = Some wj ->
     0 < line_dt u v wj) ->
  uv_to_CCT_robertson1968 (u, v)
  = Ok (1.0e6 / 600, - ((u - ruvt_u line_600) * line_du line_600
                        + (v - ruvt_v line_600) * line_dv line_600)).
Proof.
  intros Hpast.
  destruct (uv_to_CCT_robertson1968_break u v)
    as (i & f & T & Dint & Hi & Hres & Hbreak & _).
  destruct Hbreak as (wr & wp & Hwr & Hwp & Hstop & _ & Hfn & _ & _ & HT & HD).
  pose proof (Hpast i wr Hi Hwr) as Hpos.
  destruct Hstop as [Hle | ->]; [lra |].
  rewrite line_600_lookup in Hwr. injection Hwr as <-.
  destruct (Hfn ltac:(lia)) as [Hden Hf]. cbv zeta in Hden, Hf.
  destruct (decide (0 < line_dt u v line_600)) as [_ | Hno]; [| contradiction].
  assert (Hf0 : f = 0) by (rewrite Hf; unfold Rdiv; ring).
  subst f. rewrite Hf0 in *.
  rewrite Hres, HT, HD, walk_Duv_at_0. apply f_equal. apply pair_eq; [| reflexivity].
  cbn [ruvt_r line_600]. replace (ruvt_r wp * 0 + 600 * (1 - 0)) with 600 by ring.
  reflexivity.
Qed.

Lemma uv_to_CCT_robertson1968_past_last_line_witness :
  uv_to_CCT_robertson1968 (0.5, 0.5)
  = Ok (1.0e6 / 600, - ((0.5 - ruvt_u line_600) * line_du line_600
                        + (0.5 - ruvt_v line_600) * line_dv line_600)).
Proof.
  apply (uv_to_CCT_robertson1968_past_last_line 0.5 0.5).
  intros j wj Hj Hwj. rewrite line_dt_eq.
  pose proof (Rinv_0_lt_compat _ (line_len_pos wj)) as Hinv.
  apply Rmult_lt_0_compat; [| exact Hinv].
  destruct j as [| j]; [lia |].
  do 30 (destruct j as [| j]; [injection Hwj as <-; simpl; lra |]).
  lia.
Defined.

(** X13.  A point on an isotemperature line of the table, at the signed
    distance [-Duv] from the point of the row along the direction of the
    line, with [|Duv| <= 0.05], gets the temperature of that line and
    [Duv], exactly. *)
Theorem uv_to_CCT_robertson1968_on_line
    (k : nat) (wk : ROBERTSON_ISOTEMPERATURE_LINES_RUVT) (Duv : R) :
  (1 <= k <= 30)%nat ->
  ROBERTSON_ISOTEMPERATURE_LINES !! k = Some wk ->
  Rabs Duv <= round_trip_Duv_bound ->
  uv_to_CCT_robertson1968 (ruvt_u wk + line_du wk * - Duv, ruvt_v wk + line_dv wk * - Duv)
  = Ok (1.0e6 / ruvt_r wk, Duv).
Proof.
  intros Hk Hwk HD.
  pose proof kappa0_pos as Hk0.
  assert (Hk1 : kappa0 <= 1) by (unfold kappa0; lra).
  set (pu := ruvt_u wk + line_du wk * - Duv).
  set (pv := ruvt_v wk + line_dv wk * - Duv).
  assert (Hdt : forall wj, line_dt pu pv wj
                           = line_dt (ruvt_u wk) (ruvt_v wk) wj - Duv * lines_cross wk wj / 1).
  { intros wj. unfold pu, pv, line_dt, lines_cross. field. }
  assert (Hat : line_dt pu pv wk = 0).
  { rewrite Hdt, line_dt_self, lines_cross_self. unfold Rdiv. ring. }
  assert (Hbefore : forall j wj, (1 <= j < k)%nat ->
                      ROBERTSON_ISOTEMPERATURE_LINES !! j = Some wj ->
                      0 < line_dt pu pv wj).
  { intros j wj Hj Hwj. rewrite Hdt.
    pose proof (pair_separated_all j k wj wk ltac:(lia) Hwj Hwk) as Hs.
    apply (bracket_pos Duv _ 1 round_trip_Duv_bound); [lra | exact HD | exact Hs]. }
  destruct (uv_to_CCT_robertson1968_break pu pv)
    as (i' & f' & T & Dint & Hi' & Hres & Hbreak & Hall).
  destruct Hbreak as (wr' & wp' & Hwr' & Hwp' & Hstop & Hf1 & Hfn & Hfrange & Hrpos & HTeq & HDeq).
  assert (Hi'eq : i' = k).
  { destruct (Nat.lt_trichotomy i' k) as [Hlt | [Heq | Hgt]]; [| exact Heq |].
    - exfalso. destruct Hstop as [Hle | H30]; [| lia].
      pose proof (Hbefore i' wr' ltac:(lia) Hwr'). lra.
    - exfalso. pose proof (Hall k wk ltac:(lia) Hwk). lra. }
  subst i'. rewrite Hwk in Hwr'. injection Hwr' as <-.
  assert (Hf' : f' = 0).
  { destruct (Nat.eq_dec k 1%nat) as [H1 | H1]; [exact (Hf1 H1) |].
    destruct (Hfn H1) as [Hden Heq]. cbv zeta in Hden, Heq.
    rewrite Hat in Heq, Hden.
    destruct (decide (0 < 0)) as [Hbad | _]; [lra |].
    rewrite Heq. unfold Rdiv. ring. }
  subst f'.
  rewrite Hres, HTeq, HDeq, walk_Duv_at_0. apply f_equal.
  pose proof (line_direction_unit wk) as Hu.
  apply pair_eq.
  - apply f_equal. ring.
  - unfold pu, pv.
    replace (- ((ruvt_u wk + line_du wk * - Duv - ruvt_u wk) * line_du wk
                + (ruvt_v wk + line_dv wk * - Duv - ruvt_v wk) * line_dv wk))
      with (Duv * (line_du wk * line_du wk + line_dv wk * line_dv wk)) by ring.
    rewrite Hu. ring.
Qed.

Lemma uv_to_CCT_robertson1968_on_line_witness :
  uv_to_CCT_robertson1968 (ruvt_u line_100 + line_du line_100 * - (0.01),
                           ruvt_v line_100 + line_dv line_100 * - (0.01))
  = Ok (1.0e6 / ruvt_r line_100, 0.01).
Proof.
  apply (uv_to_CCT_robertson1968_on_line 10%nat line_100 0.01).
  - lia.
  - reflexivity.
  - unfold round_trip_Duv_bound. rewrite Rabs_pos_eq; lra.
Defined.

(** ** Robertson (1968): the inverse on every temperature *)

Lemma lines_t_decreasing (i : nat) (wr wn : ROBERTSON_ISOTEMPERATURE_LINES_RUVT) :
  (i <= 29)%nat ->
  ROBERTSON_ISOTEMPERATURE_LINES !! i = Some wr ->
  ROBERTSON_ISOTEMPERATURE_LINES !! (i + 1)%nat = Some wn ->
  ruvt_t wn < ruvt_t wr.
Proof.
  intros Hi Hr Hn.
  do 30 (destruct i as [| i]; [injection Hr as <-; injection Hn as <-; simpl; lra |]).
  lia.
Qed.

Lemma lines_cross_adjacent (i : nat) (wr wn : ROBERTSON_ISOTEMPERATURE_LINES_RUVT) :
  (i <= 29)%nat ->
  ROBERTSON_ISOTEMPERATURE_LINES !! i = Some wr ->
  ROBERTSON_ISOTEMPERATURE_LINES !! (i + 1)%nat = Some wn ->
  0 < lines_cross wr wn.
Proof.
  intros Hi Hr Hn. pose proof (lines_t_decreasing i wr wn Hi Hr Hn) as Ht.
  rewrite lines_cross_eq.
  pose proof (Rinv_0_lt_compat _ (line_len_pos wr)).
  pose proof (Rinv_0_lt_compat _ (line_len_pos wn)).
  apply Rmult_lt_0_compat; [lra | apply Rmult_lt_0_compat; assumption].
Qed.

(** The blend of two directions that are not parallel does not vanish,
    whatever the fraction. *)
Lemma blend_len_pos (wr wn : ROBERTSON_ISOTEMPERATURE_LINES_RUVT) (f : R) :
  lines_cross wr wn <> 0 -> 0 < blend_len wr wn f.
Proof.
  intros Hcross. unfold blend_len. apply sqrt_lt_R0.
  set (w1 := line_du wr * f + line_du wn * (1 - f)).
  set (w2 := line_dv wr * f + line_dv wn * (1 - f)).
  destruct (Req_dec w1 0) as [H1 | H1]; [| nra].
  destruct (Req_dec w2 0) as [H2 | H2]; [| nra].
  exfalso.
  assert (Hf : f * lines_cross wr wn = 0).
  { replace (f * lines_cross wr wn) with (w2 * line_du wn - w1 * line_dv wn)
      by (unfold w1, w2, lines_cross; ring).
    rewrite H1, H2. ring. }
  apply Rmult_integral in Hf. destruct Hf as [Hf | Hf]; [| contradiction].
  pose proof (line_du_pos wn) as Hpos.
  unfold w1 in H1. rewrite Hf in H1. lra.
Qed.

Lemma inverse_body_return_any (r Duv : R) (i : nat)
    (wr wn : ROBERTSON_ISOTEMPERATURE_LINES_RUVT) :
  ROBERTSON_ISOTEMPERATURE_LINES !! i = Some wr ->
  ROBERTSON_ISOTEMPERATURE_LINES !! (i + 1)%nat = Some wn ->
  r < ruvt_r wn \/ i = 29%nat ->
  ruvt_r wr < ruvt_r wn ->
  lines_cross wr wn <> 0 ->
  CCT_to_uv_robertson1968_body r Duv i
  = Ok (Some (inverse_uv wr wn ((ruvt_r wn - r) / (ruvt_r wn - ruvt_r wr)) Duv)).
Proof.
  intros Hr Hn Hguard Hlt Hcross.
  unfold CCT_to_uv_robertson1968_body, py_getitem_nat.
  rewrite Hr, Hn, !bind_Ok.
  destruct (decide (r < ruvt_r wn \/ i = 29%nat)) as [_ | Hno]; [| contradiction].
  rewrite py_div_ok by lra. rewrite bind_Ok.
  rewrite !line_direction_Ok, !bind_Ok.
  set (f := (ruvt_r wn - r) / (ruvt_r wn - ruvt_r wr)).
  pose proof (blend_len_pos wr wn f Hcross) as Hpos.
  rewrite math_sqrt_ok by apply sum_squares_nonneg.
  rewrite bind_Ok. fold (blend_len wr wn f).
  rewrite !py_div_ok by lra. reflexivity.
Qed.

Lemma inverse_loop_find_any (r Duv : R) (i : nat)
    (wr wn : ROBERTSON_ISOTEMPERATURE_LINES_RUVT) :
  (i <= 29)%nat ->
  ROBERTSON_ISOTEMPERATURE_LINES !! i = Some wr ->
  ROBERTSON_ISOTEMPERATURE_LINES !! (i + 1)%nat = Some wn ->
  r < ruvt_r wn \/ i = 29%nat ->
  i = 0%nat \/ ruvt_r wr <= r ->
  forall n k : nat,
    (k + n = 30)%nat -> (k <= i)%nat ->
    CCT_to_uv_robertson1968_loop r Duv (seq k n)
    = Ok (inverse_uv wr wn ((ruvt_r wn - r) / (ruvt_r wn - ruvt_r wr)) Duv).
Proof.
  intros Hi Hr Hn Hguard Hfrom.
  assert (Hlt : ruvt_r wr < ruvt_r wn).
  { rewrite (lines_r _ _ Hr), (lines_r _ _ Hn). apply line_r_of_lt. lia. }
  pose proof (lines_cross_adjacent i wr wn Hi Hr Hn) as Hcross.
  induction n as [| n IH]; intros k Hkn Hki; [lia |].
  simpl seq. cbn [CCT_to_uv_robertson1968_loop].
  destruct (Nat.eq_dec k i) as [-> | Hne].
  - rewrite (inverse_body_return_any r Duv i wr wn Hr Hn Hguard Hlt ltac:(lra)).
    reflexivity.
  - destruct (robertson_lines_lookup (k + 1)) as (wk & Hwk & _); [lia |].
    rewrite (inverse_body_skip r Duv k wk); [| lia | exact Hwk |].
    + rewrite bind_Ok. apply IH; lia.
    + destruct Hfrom as [H0 | Hfrom]; [lia |].
      rewrite (lines_r _ _ Hwk).
      apply Rle_trans with (line_r_of i); [apply line_r_of_le; lia |].
      rewrite <- (lines_r _ _ Hr). exact Hfrom.
Qed.

(** The segment that the inverse picks for a reciprocal temperature. *)
Lemma inverse_segment (r : R) :
  exists (i : nat) (wr wn : ROBERTSON_ISOTEMPERATURE_LINES_RUVT),
    (i <= 29)%nat /\
    ROBERTSON_ISOTEMPERATURE_LINES !! i = Some wr /\
    ROBERTSON_ISOTEMPERATURE_LINES !! (i + 1)%nat = Some wn /\
    (i = 0%nat \/ ruvt_r wr <= r) /\
    (r < ruvt_r wn \/ i = 29%nat).
Proof.
  assert (H1 : line_r_of 1 = 10) by (unfold line_r_of; simpl; lra).
  assert (H29 : line_r_of 29 = 575) by (unfold line_r_of; simpl; lra).
  assert (H30 : line_r_of 30 = 600) by (unfold line_r_of; simpl; lra).
  assert (Hi : exists i : nat, (i <= 29)%nat /\ (i = 0%nat \/ line_r_of i <= r)
                               /\ (r < line_r_of (i + 1) \/ i = 29%nat)).
  { destruct (Rlt_le_dec r 10) as [Hlow | Hlow].
    - exists 0%nat. split; [lia |]. split; [left; reflexivity |].
      left. simpl Nat.add. lra.
    - destruct (Rlt_le_dec r 600) as [Hlt | Hge].
      + destruct (find_segment r 29) as (i & Hi & Hir); [lia | simpl Nat.add; lra |].
        exists i. split; [lia |]. split; [right; lra | left; lra].
      + exists 29%nat. split; [lia |]. split; [right; lra | right; reflexivity]. }
  destruct Hi as (i & Hi & Hfrom & Hguard).
  destruct (robertson_lines_lookup i) as (wr & Hwr & _); [lia |].
  destruct (robertson_lines_lookup (i + 1)) as (wn & Hwn & _); [lia |].
  exists i, wr, wn. split; [exact Hi |]. split; [exact Hwr |]. split; [exact Hwn |].
  rewrite (lines_r _ _ Hwr), (lines_r _ _ Hwn). split; assumption.
Qed.

(** For a temperature that is not zero the inverse returns the point of
    one segment, the same for every [Duv]. *)
Lemma CCT_to_uv_robertson1968_segment (CCT : R) :
  CCT <> 0 ->
  exists (i : nat) (wr wn : ROBERTSON_ISOTEMPERATURE_LINES_RUVT),
    (i <= 29)%nat /\
    ROBERTSON_ISOTEMPERATURE_LINES !! i = Some wr /\
    ROBERTSON_ISOTEMPERATURE_LINES !! (i + 1)%nat = Some wn /\
    (i = 0%nat \/ ruvt_r wr <= 1.0e6 / CCT) /\
    (1.0e6 / CCT < ruvt_r wn \/ i = 29%nat) /\
    0 < blend_len wr wn ((ruvt_r wn - 1.0e6 / CCT) / (ruvt_r wn - ruvt_r wr)) /\
    forall Duv : R,
      CCT_to_uv_robertson1968 CCT Duv
      = Ok (inverse_uv wr wn ((ruvt_r wn - 1.0e6 / CCT) / (ruvt_r wn - ruvt_r wr)) Duv).
Proof.
  intros HCCT.
  destruct (inverse_segment (1.0e6 / CCT)) as (i & wr & wn & Hi & Hr & Hn & Hfrom & Hguard).
  exists i, wr, wn.
  split; [exact Hi |]. split; [exact Hr |]. split; [exact Hn |].
  split; [exact Hfrom |]. split; [exact Hguard |]. split.
  - apply blend_len_pos.
    pose proof (lines_cross_adjacent i wr wn Hi Hr Hn). lra.
  - intros Duv. unfold CCT_to_uv_robertson1968.
    rewrite py_div_ok by exact HCCT. rewrite bind_Ok.
    unfold py_range. simpl Nat.sub.
    apply (inverse_loop_find_any (1.0e6 / CCT) Duv i wr wn); try assumption; lia.
Qed.

(** X14.  [CCT_to_uv_robertson1968] raises [ZeroDivisionError] for
    [CCT = 0] and returns a point for every other temperature and every
    [Duv], negative and out of range temperatures included. *)
Theorem CCT_to_uv_robertson1968_total (CCT Duv : R) :
  (CCT = 0 /\ CCT_to_uv_robertson1968 CCT Duv = Raise ZeroDivisionError) \/
  (CCT <> 0 /\
   exists (i : nat) (wr wn : ROBERTSON_ISOTEMPERATURE_LINES_RUVT),
     (i <= 29)%nat /\
     ROBERTSON_ISOTEMPERATURE_LINES !! i = Some wr /\
     ROBERTSON_ISOTEMPERATURE_LINES !! (i + 1)%nat = Some wn /\
     (i = 0%nat \/ ruvt_r wr <= 1.0e6 / CCT) /\
     (1.0e6 / CCT < ruvt_r wn \/ i = 29%nat) /\
     0 < blend_len wr wn ((ruvt_r wn - 1.0e6 / CCT) / (ruvt_r wn - ruvt_r wr)) /\
     CCT_to_uv_robertson1968 CCT Duv
     = Ok (inverse_uv wr wn ((ruvt_r wn - 1.0e6 / CCT) / (ruvt_r wn - ruvt_r wr)) Duv)).
Proof.
  destruct (Req_dec CCT 0) as [H0 | H0].
  - left. split; [exact H0 |].
    unfold CCT_to_uv_robertson1968. rewrite py_div_zero by exact H0. reflexivity.
  - right. split; [exact H0 |].
    destruct (CCT_to_uv_robertson1968_segment CCT H0)
      as (i & wr & wn & Hi & Hr & Hn & Hfrom & Hguard & Hpos & Hall).
    exists i, wr, wn. repeat (split; [assumption |]). apply Hall.
Qed.

(** X15.  The point that [CCT_to_uv_robertson1968] returns for [Duv] lies
    at the distance [|Duv|] from the point it returns for [Duv = 0]. *)
Theorem CCT_to_uv_robertson1968_offset_length (CCT Duv : R) :
  CCT <> 0 ->
  exists u v u0 v0 : R,
    CCT_to_uv_robertson1968 CCT Duv = Ok (u, v) /\
    CCT_to_uv_robertson1968 CCT 0 = Ok (u0, v0) /\
    (u - u0) * (u - u0) + (v - v0) * (v - v0) = Duv * Duv.
Proof.
  intros H0.
  destruct (CCT_to_uv_robertson1968_segment CCT H0)
    as (i & wr & wn & _ & _ & _ & _ & _ & Hpos & Hall).
  set (f := (ruvt_r wn - 1.0e6 / CCT) / (ruvt_r wn - ruvt_r wr)) in *.
  exists (inverse_uv wr wn f Duv).1, (inverse_uv wr wn f Duv).2,
         (inverse_uv wr wn f 0).1, (inverse_uv wr wn f 0).2.
  split; [rewrite Hall; reflexivity |]. split; [rewrite Hall; reflexivity |].
  unfold inverse_uv. cbv zeta. cbn [fst snd]. fold (blend_len wr wn f).
  pose proof (blend_len_sqr wr wn f) as Hsq.
  set (n := blend_len wr wn f) in *.
  set (w1 := line_du wr * f + line_du wn * (1 - f)) in *.
  set (w2 := line_dv wr * f + line_dv wn * (1 - f)) in *.
  replace ((ruvt_u wr * f + ruvt_u wn * (1 - f) + w1 / n * - Duv
            - (ruvt_u wr * f + ruvt_u wn * (1 - f) + w1 / n * - 0))
           * (ruvt_u wr * f + ruvt_u wn * (1 - f) + w1 / n * - Duv
              - (ruvt_u wr * f + ruvt_u wn * (1 - f) + w1 / n * - 0))
           + (ruvt_v wr * f + ruvt_v wn * (1 - f) + w2 / n * - Duv
              - (ruvt_v wr * f + ruvt_v wn * (1 - f) + w2 / n * - 0))
             * (ruvt_v wr * f + ruvt_v wn * (1 - f) + w2 / n * - Duv
                - (ruvt_v wr * f + ruvt_v wn * (1 - f) + w2 / n * - 0)))
    with (Duv * Duv * ((w1 * w1 + w2 * w2) / (n * n))) by (field; lra).
  rewrite <- Hsq. field. lra.
Qed.

Lemma CCT_to_uv_robertson1968_offset_length_witness :
  exists u v u0 v0 : R,
    CCT_to_uv_robertson1968 6500 0.01 = Ok (u, v) /\
    CCT_to_uv_robertson1968 6500 0 = Ok (u0, v0) /\
    (u - u0) * (u - u0) + (v - v0) * (v - v0) = 0.01 * 0.01.
Proof. apply (CCT_to_uv_robertson1968_offset_length 6500 0.01). lra. Defined.

Lemma blend_len_at_0 (wr wn : ROBERTSON_ISOTEMPERATURE_LINES_RUVT) : blend_len wr wn 0 = 1.
Proof.
  unfold blend_len.
  replace ((line_du wr * 0 + line_du wn * (1 - 0)) * (line_du wr * 0 + line_du wn * (1 - 0))
           + (line_dv wr * 0 + line_dv wn * (1 - 0)) * (line_dv wr * 0 + line_dv wn * (1 - 0)))
    with (line_du wn * line_du wn + line_dv wn * line_dv wn) by ring.
  rewrite line_direction_unit. apply sqrt_1.
Qed.

(** X16.  At the temperature of a line of the table, [1e6 / r] for one of
    the rows 1 to 30, [CCT_to_uv_robertson1968] returns the point of that
    row moved by [-Duv] along the direction of its line. *)
Theorem CCT_to_uv_robertson1968_at_line
    (k : nat) (wk : ROBERTSON_ISOTEMPERATURE_LINES_RUVT) (Duv : R) :
  (1 <= k <= 30)%nat ->
  ROBERTSON_ISOTEMPERATURE_LINES !! k = Some wk ->
  CCT_to_uv_robertson1968 (1.0e6 / ruvt_r wk) Duv
  = Ok (ruvt_u wk + line_du wk * - Duv, ruvt_v wk + line_dv wk * - Duv).
Proof.
  intros Hk Hwk.
  destruct (robertson_lines_lookup k ltac:(lia)) as (wk' & Hwk' & _ & Hr10).
  rewrite Hwk in Hwk'. injection Hwk' as <-. specialize (Hr10 ltac:(lia)).
  unfold CCT_to_uv_robertson1968.
  assert (HCCT : 1.0e6 / ruvt_r wk <> 0).
  { unfold Rdiv. apply Rmult_integral_contrapositive_currified; [lra |].
    apply Rinv_neq_0_compat. lra. }
  rewrite py_div_ok by exact HCCT. rewrite bind_Ok.
  replace (1.0e6 / (1.0e6 / ruvt_r wk)) with (ruvt_r wk) by (field; lra).
  unfold py_range. simpl Nat.sub.
  destruct (Nat.eq_dec k 30%nat) as [-> | Hne].
  - destruct (robertson_lines_lookup 29%nat ltac:(lia)) as (wp & Hwp & _).
    assert (Hlt : ruvt_r wp < ruvt_r wk).
    { rewrite (lines_r _ _ Hwp), (lines_r _ _ Hwk). apply line_r_of_lt. lia. }
    rewrite (inverse_loop_find_any (ruvt_r wk) Duv 29%nat wp wk
               ltac:(lia) Hwp Hwk ltac:(right; reflexivity) ltac:(right; lra)
               30%nat 0%nat ltac:(lia) ltac:(lia)).
    replace ((ruvt_r wk - ruvt_r wk) / (ruvt_r wk - ruvt_r wp)) with 0 by (field; lra).
    unfold inverse_uv. cbv zeta. fold (blend_len wp wk 0). rewrite blend_len_at_0.
    f_equal. f_equal; field.
  - destruct (robertson_lines_lookup (k + 1) ltac:(lia)) as (wn & Hwn & _).
    assert (Hlt : ruvt_r wk < ruvt_r wn).
    { rewrite (lines_r _ _ Hwn), (lines_r _ _ Hwk). apply line_r_of_lt. lia. }
    rewrite (inverse_loop_find_any (ruvt_r wk) Duv k wk wn
               ltac:(lia) Hwk Hwn ltac:(left; exact Hlt) ltac:(right; lra)
               30%nat 0%nat ltac:(lia) ltac:(lia)).
    replace ((ruvt_r wn - ruvt_r wk) / (ruvt_r wn - ruvt_r wk)) with 1 by (field; lra).
    unfold inverse_uv. cbv zeta. fold (blend_len wk wn 1). rewrite blend_len_at_1.
    f_equal. f_equal; field.
Qed.

Lemma CCT_to_uv_robertson1968_at_line_witness :
  CCT_to_uv_robertson1968 (1.0e6 / ruvt_r line_100) 0.01
  = Ok (ruvt_u line_100 + line_du line_100 * - (0.01),
        ruvt_v line_100 + line_dv line_100 * - (0.01)).
Proof.
  apply (CCT_to_uv_robertson1968_at_line 10%nat line_100 0.01).
  - lia.
  - reflexivity.
Defined.

(** ** Robertson (1968): the round trip outside the range of the walk *)

Lemma line_0_lookup : ROBERTSON_ISOTEMPERATURE_LINES !! 0%nat = Some line_0.
Proof. reflexivity. Qed.
Lemma line_575_lookup : ROBERTSON_ISOTEMPERATURE_LINES !! 29%nat = Some line_575.
Proof. reflexivity. Qed.

Lemma lines_t_negative (j : nat) (wj : ROBERTSON_ISOTEMPERATURE_LINES_RUVT) :
  ROBERTSON_ISOTEMPERATURE_LINES !! j = Some wj -> ruvt_t wj < 0.
Proof.
  intros Hj.
  do 31 (destruct j as [| j]; [injection Hj as <-; simpl; lra |]).
  discriminate.
Qed.

(** The numbers of the segment between the lines at 0 and 10 mired. *)
Lemma segment_0_10_bounds :
  kappa0 <= lines_dot line_0 line_10 /\
  Rabs (lines_cross line_0 line_10) <= 0.0108 /\
  line_dt (ruvt_u line_0) (ruvt_v line_0) line_10 <= -0.0024.
Proof.
  destruct (segment_inverse_bounds _ _ _ _
              (line_len_enclosure 0%nat _ _ line_0_lookup eq_refl)
              (line_len_enclosure 1%nat _ _ line_10_lookup eq_refl)) as (Hir & Hin & Hp).
  rewrite !line_dt_eq, lines_dot_eq, lines_cross_eq.
  set (ir := / line_len line_0) in *. set (inn := / line_len line_10) in *.
  set (p := ir * inn) in *. clearbody p inn ir.
  unfold line_0, line_10, kappa0. cbn [ruvt_r ruvt_t ruvt_u ruvt_v].
  split; [lra |]. split; [apply Rabs_le; lra | lra].
Qed.

(** The numbers of the segment between the lines at 575 and 600 mired. *)
Lemma segment_575_600_bounds :
  -0.016 <= line_du line_600 - line_du line_575 <= 0 /\
  -0.0003 <= line_dv line_600 - line_dv line_575 <= 0.
Proof.
  destruct (segment_inverse_bounds _ _ _ _
              (line_len_enclosure 29%nat _ _ line_575_lookup eq_refl)
              (line_len_enclosure 30%nat _ _ line_600_lookup eq_refl)) as (Hir & Hin & Hp).
  rewrite !line_du_eq, !line_dv_eq.
  set (ir := / line_len line_575) in *. set (inn := / line_len line_600) in *.
  clearbody inn ir.
  unfold line_575, line_600. cbn [ruvt_r ruvt_t ruvt_u ruvt_v].
  split; lra.
Qed.

Lemma Rabs_bound_inv (a b : R) : Rabs a <= b -> - b <= a <= b.
Proof. unfold Rabs. destruct (Rcase_abs a); lra. Qed.

(** Outside [0, 1] the blend of two unit directions is at least as long
    as either. *)
Lemma blend_len_outside (wr wn : ROBERTSON_ISOTEMPERATURE_LINES_RUVT) (f : R) :
  f <= 0 -> 1 <= blend_len wr wn f.
Proof.
  intros Hf.
  pose proof (line_direction_unit wr) as Hr. pose proof (line_direction_unit wn) as Hn.
  pose proof (kappa_le_1 _ _ _ _ Hr Hn) as Hc.
  rewrite <- sqrt_1. unfold blend_len. apply sqrt_le_1_alt.
  replace ((line_du wr * f + line_du wn * (1 - f)) * (line_du wr * f + line_du wn * (1 - f))
           + (line_dv wr * f + line_dv wn * (1 - f)) * (line_dv wr * f + line_dv wn * (1 - f)))
    with (f * f * (line_du wr * line_du wr + line_dv wr * line_dv wr)
          + (1 - f) * (1 - f) * (line_du wn * line_du wn + line_dv wn * line_dv wn)
          + 2 * (f * (1 - f)) * (line_du wr * line_du wn + line_dv wr * line_dv wn)) by ring.
  rewrite Hr, Hn.
  set (c := line_du wr * line_du wn + line_dv wr * line_dv wn) in *. clearbody c.
  assert (Hff : f * (1 - f) <= 0) by nra.
  assert (0 <= (f * (1 - f)) * (c - 1)) by nra.
  nra.
Qed.

(** The forward walk on a point on the line at 10 mired or before it. *)
Lemma walk_before_first_line (u v : R) :
  line_dt u v line_10 <= 0 ->
  exists Duv : R, uv_to_CCT_robertson1968 (u, v) = Ok (100000, Duv).
Proof.
  intros Hdt.
  destruct (uv_to_CCT_robertson1968_break u v)
    as (i & f & T & Dint & Hi & Hres & Hbreak & Hall).
  assert (Hi1 : i = 1%nat).
  { destruct (Nat.eq_dec i 1%nat) as [H1 | H1]; [exact H1 |].
    pose proof (Hall 1%nat line_10 ltac:(lia) line_10_lookup). lra. }
  subst i.
  destruct Hbreak as (wr & wp & Hwr & Hwp & _ & Hf1 & _ & _ & _ & HT & HD).
  rewrite line_10_lookup in Hwr. injection Hwr as <-.
  rewrite (Hf1 eq_refl) in *.
  exists (- Dint). rewrite Hres, HT. apply f_equal. apply pair_eq; [| reflexivity].
  cbn [ruvt_r line_10]. replace (ruvt_r wp * 0 + 10 * (1 - 0)) with 10 by ring. lra.
Qed.

(** The forward walk on a point past every line of the table. *)
Lemma walk_past_last_line (u v : R) :
  (forall (j : nat) (wj : ROBERTSON_ISOTEMPERATURE_LINES_RUVT),
     (1 <= j <= 30)%nat -> ROBERTSON_ISOTEMPERATURE_LINES !! j = Some wj ->
     0 < line_dt u v wj) ->
  exists Duv : R, uv_to_CCT_robertson1968 (u, v) = Ok (1.0e6 / 600, Duv).
Proof.
  intros Hpast.
  destruct (uv_to_CCT_robertson1968_break u v)
    as (i & f & T & Dint & Hi & Hres & Hbreak & _).
  destruct Hbreak as (wr & wp & Hwr & Hwp & Hstop & _ & Hfn & _ & _ & HT & HD).
  pose proof (Hpast i wr Hi Hwr) as Hpos.
  destruct Hstop as [Hle | ->]; [lra |].
  rewrite line_600_lookup in Hwr. injection Hwr as <-.
  destruct (Hfn ltac:(lia)) as [Hden Hf]. cbv zeta in Hden, Hf.
  destruct (decide (0 < line_dt u v line_600)) as [_ | Hno]; [| contradiction].
  assert (Hf0 : f = 0) by (rewrite Hf; unfold Rdiv; ring).
  subst f. rewrite Hf0 in *.
  exists (- Dint). rewrite Hres, HT. apply f_equal. apply pair_eq; [| reflexivity].
  cbn [ruvt_r line_600]. replace (ruvt_r wp * 0 + 600 * (1 - 0)) with 600 by ring.
  reflexivity.
Qed.

(** X17.  Above the range of the walk the round trip does not give the
    temperature back: for every CCT above 1e6/10 K and [|Duv| <= 0.05],
    [uv_to_CCT_robertson1968] of [CCT_to_uv_robertson1968 CCT Duv]
    returns 100000 K. *)
Theorem robertson1968_round_trip_above_range (CCT Duv : R) :
  1.0e6 / 10 < CCT ->
  Rabs Duv <= round_trip_Duv_bound ->
  exists (uv : R * R) (Duv' : R),
    CCT_to_uv_robertson1968 CCT Duv = Ok uv /\
    uv_to_CCT_robertson1968 uv = Ok (100000, Duv').
Proof.
  intros HCCT HD.
  assert (Hpos : 0 < CCT) by lra.
  set (r := 1.0e6 / CCT).
  assert (Hr : 0 < r < 10).
  { unfold r. split; [apply Rdiv_lt_0_compat; lra |].
    apply (Rmult_lt_reg_r CCT); [exact Hpos |].
    replace (1.0e6 / CCT * CCT) with 1.0e6 by (field; lra). lra. }
  destruct segment_0_10_bounds as (Hkap & Hcross & Hdt).
  set (f := (ruvt_r line_10 - r) / (ruvt_r line_10 - ruvt_r line_0)).
  assert (Hf : 0 <= f <= 1) by (unfold f; cbn [ruvt_r line_10 line_0]; lra).
  exists (inverse_uv line_0 line_10 f Duv).
  assert (Hinv : CCT_to_uv_robertson1968 CCT Duv = Ok (inverse_uv line_0 line_10 f Duv)).
  { unfold CCT_to_uv_robertson1968. rewrite py_div_ok by lra. rewrite bind_Ok.
    fold r. unfold py_range. simpl Nat.sub.
    assert (Hguard : r < ruvt_r line_10 \/ 0%nat = 29%nat)
      by (left; cbn [ruvt_r line_10]; lra).
    apply (inverse_loop_find_any r Duv 0%nat line_0 line_10 ltac:(lia)
             line_0_lookup line_10_lookup Hguard ltac:(left; reflexivity)); lia. }
  pose proof (blend_len_bounds line_0 line_10 f Hkap Hf) as Hnb.
  pose proof kappa0_pos as Hk0.
  destruct (walk_before_first_line (inverse_uv line_0 line_10 f Duv).1
                                   (inverse_uv line_0 line_10 f Duv).2) as (Duv' & Hres).
  - rewrite (inverse_uv_dt line_0 line_10 line_10 f Duv) by lra.
    rewrite line_dt_self, lines_cross_self.
    pose proof (offset_reach Duv (lines_cross line_0 line_10)
                  (blend_len line_0 line_10 f) round_trip_Duv_bound
                  ltac:(lra) HD) as Hreach.
    pose proof (Rle_abs (- (Duv * lines_cross line_0 line_10 / blend_len line_0 line_10 f)))
      as Habs.
    rewrite Rabs_Ropp in Habs.
    assert (Hb : round_trip_Duv_bound * Rabs (lines_cross line_0 line_10) / kappa0 <= 0.001).
    { unfold round_trip_Duv_bound, kappa0. lra. }
    set (q := Duv * lines_cross line_0 line_10 / blend_len line_0 line_10 f) in *.
    set (L := line_dt (ruvt_u line_0) (ruvt_v line_0) line_10) in *.
    replace (Duv * 0 / blend_len line_0 line_10 f) with 0 by (unfold Rdiv; ring).
    assert (L - q <= 0) by lra.
    nra.
  - exists Duv'. split; [exact Hinv |].
    rewrite <- Hres. reflexivity.
Qed.

Lemma robertson1968_round_trip_above_range_witness :
  exists (uv : R * R) (Duv' : R),
    CCT_to_uv_robertson1968 200000 0.01 = Ok uv /\
    uv_to_CCT_robertson1968 uv = Ok (100000, Duv').
Proof.
  apply (robertson1968_round_trip_above_range 200000 0.01).
  - lra.
  - unfold round_trip_Duv_bound. rewrite Rabs_pos_eq; lra.
Defined.

(** The distances from an earlier line to the points of the last two
    rows, and the sines of the angles to their lines, row 600 less row
    575. *)
Lemma last_chord_across (j : nat) (wj : ROBERTSON_ISOTEMPERATURE_LINES_RUVT) (q : R) :
  ROBERTSON_ISOTEMPERATURE_LINES !! j = Some wj ->
  Rabs q <= round_trip_Duv_bound ->
  0 < (line_dt (ruvt_u line_600) (ruvt_v line_600) wj
       - line_dt (ruvt_u line_575) (ruvt_v line_575) wj)
      - q * (lines_cross line_600 wj - lines_cross line_575 wj).
Proof.
  intros Hj Hq.
  pose proof (lines_t_negative j wj Hj) as Ht.
  destruct segment_575_600_bounds as (He1 & He2).
  pose proof (Rinv_0_lt_compat _ (line_len_pos wj)) as Hinv.
  unfold lines_cross. rewrite !line_dt_eq, (line_du_eq wj), (line_dv_eq wj).
  set (e1 := line_du line_600 - line_du line_575) in *.
  set (e2 := line_dv line_600 - line_dv line_575) in *.
  set (X := - ruvt_t wj). assert (HX : 0 < X) by (unfold X; lra).
  replace ((- (ruvt_u line_600 - ruvt_u wj) * ruvt_t wj + (ruvt_v line_600 - ruvt_v wj))
           * / line_len wj
           - (- (ruvt_u line_575 - ruvt_u wj) * ruvt_t wj + (ruvt_v line_575 - ruvt_v wj))
             * / line_len wj
           - q * (- line_du line_600 * (ruvt_t wj * / line_len wj)
                  + line_dv line_600 * / line_len wj
                  - (- line_du line_575 * (ruvt_t wj * / line_len wj)
                     + line_dv line_575 * / line_len wj)))
    with (((ruvt_u line_600 - ruvt_u line_575) * X + (ruvt_v line_600 - ruvt_v line_575)
           - q * (e1 * X + e2)) * / line_len wj)
    by (unfold X, e1, e2; ring).
  apply Rmult_lt_0_compat; [| exact Hinv].
  cbn [ruvt_u ruvt_v line_600 line_575].
  unfold round_trip_Duv_bound in Hq. apply Rabs_bound_inv in Hq.
  clearbody e1 e2 X.
  assert (Hz : -0.016 * X - 0.0003 <= e1 * X + e2 <= 0) by nra.
  set (z := e1 * X + e2) in *. clearbody z.
  assert (Hqz : - (0.05 * (0.016 * X + 0.0003)) <= q * z) by nra.
  nra.
Qed.

(** X18.  Below the range of the table the round trip does not give the
    temperature back: for every CCT between 0 and 1e6/600 K and
    [|Duv| <= 0.05], [uv_to_CCT_robertson1968] of
    [CCT_to_uv_robertson1968 CCT Duv] returns 1e6/600 K. *)
Theorem robertson1968_round_trip_below_range (CCT Duv : R) :
  0 < CCT < 1.0e6 / 600 ->
  Rabs Duv <= round_trip_Duv_bound ->
  exists (uv : R * R) (Duv' : R),
    CCT_to_uv_robertson1968 CCT Duv = Ok uv /\
    uv_to_CCT_robertson1968 uv = Ok (1.0e6 / 600, Duv').
Proof.
  intros HCCT HD.
  set (r := 1.0e6 / CCT).
  assert (Hr : 600 < r).
  { unfold r. apply (Rmult_lt_reg_r CCT); [lra |].
    replace (1.0e6 / CCT * CCT) with 1.0e6 by (field; lra). lra. }
  set (f := (ruvt_r line_600 - r) / (ruvt_r line_600 - ruvt_r line_575)).
  assert (Hf : f < 0) by (unfold f; cbn [ruvt_r line_600 line_575]; lra).
  exists (inverse_uv line_575 line_600 f Duv).
  assert (Hinv : CCT_to_uv_robertson1968 CCT Duv = Ok (inverse_uv line_575 line_600 f Duv)).
  { unfold CCT_to_uv_robertson1968. rewrite py_div_ok by lra. rewrite bind_Ok.
    fold r. unfold py_range. simpl Nat.sub.
    assert (Hfrom : 29%nat = 0%nat \/ ruvt_r line_575 <= r)
      by (right; cbn [ruvt_r line_575]; lra).
    apply (inverse_loop_find_any r Duv 29%nat line_575 line_600 ltac:(lia)
             line_575_lookup line_600_lookup ltac:(right; reflexivity) Hfrom); lia. }
  pose proof (blend_len_outside line_575 line_600 f ltac:(lra)) as Hn1.
  pose proof kappa0_pos as Hk0.
  assert (Hk1 : kappa0 <= 1) by (unfold kappa0; lra).
  set (n := blend_len line_575 line_600 f) in *.
  assert (Hq : Rabs (Duv / n) <= round_trip_Duv_bound).
  { unfold Rdiv. rewrite Rabs_mult.
    rewrite (Rabs_pos_eq (/ n)) by (left; apply Rinv_0_lt_compat; lra).
    pose proof (Rabs_pos Duv).
    assert (/ n <= 1) by (rewrite <- Rinv_1; apply Rinv_le_contravar; lra).
    assert (0 < / n) by (apply Rinv_0_lt_compat; lra).
    nra. }
  destruct (walk_past_last_line (inverse_uv line_575 line_600 f Duv).1
                                (inverse_uv line_575 line_600 f Duv).2) as (Duv' & Hres).
  - intros j wj Hj Hwj.
    rewrite (inverse_uv_dt line_575 line_600 wj f Duv) by (fold n; lra). fold n.
    pose proof (last_chord_across j wj (Duv / n) Hwj Hq) as Hchord.
    assert (Hfirst : 0 <= line_dt (ruvt_u line_600) (ruvt_v line_600) wj
                         - Duv * lines_cross line_600 wj / n).
    { destruct (Nat.eq_dec j 30%nat) as [-> | Hne].
      - rewrite line_600_lookup in Hwj. injection Hwj as <-.
        rewrite line_dt_self, lines_cross_self. unfold Rdiv. lra.
      - left. pose proof (pair_separated_all j 30 wj line_600 ltac:(lia) Hwj line_600_lookup)
          as Hs.
        apply (bracket_pos Duv _ n round_trip_Duv_bound); [lra | exact HD | exact Hs]. }
    set (L30 := line_dt (ruvt_u line_600) (ruvt_v line_600) wj) in *.
    set (L29 := line_dt (ruvt_u line_575) (ruvt_v line_575) wj) in *.
    set (c30 := lines_cross line_600 wj) in *.
    set (c29 := lines_cross line_575 wj) in *.
    replace (f * (L29 - Duv * c29 / n) + (1 - f) * (L30 - Duv * c30 / n))
      with ((L30 - Duv * c30 / n) + (- f) * ((L30 - L29) - Duv / n * (c30 - c29)))
      by (field; lra).
    assert (0 < - f * (L30 - L29 - Duv / n * (c30 - c29)))
      by (apply Rmult_lt_0_compat; lra).
    lra.
  - exists Duv'. split; [exact Hinv |].
    rewrite <- Hres. reflexivity.
Qed.

Lemma robertson1968_round_trip_below_range_witness :
  exists (uv : R * R) (Duv' : R),
    CCT_to_uv_robertson1968 1500 0.01 = Ok uv /\
    uv_to_CCT_robertson1968 uv = Ok (1.0e6 / 600, Duv').
Proof.
  apply (robertson1968_round_trip_below_range 1500 0.01).
  - lra.
  - unfold round_trip_Duv_bound. rewrite Rabs_pos_eq; lra.
Defined.

Section DispatchRobertson.

Variable planckian_uv : XYZ_ColourMatchingFunctions -> R -> R * R.

(** X19.  Under the method name "Robertson 1968", [uv_to_CCT] and
    [CCT_to_uv] return what [uv_to_CCT_robertson1968] and
    [CCT_to_uv_robertson1968] return, with no warning, whenever no
    [cmfs] keyword is given or it names the CIE 1931 2 degree observer:
    every keyword is dropped, those of the Ohno solver and unknown ones
    alike. *)
Theorem dispatch_robertson_drops_keywords
    (uv : R * R) (CCT Duv : R) (kwargs : keywords) :
  (kw_cmfs kwargs = None \/
   exists cmfs, kw_cmfs kwargs = Some cmfs /\
                name cmfs = "CIE 1931 2 Degree Standard Observer") ->
  uv_to_CCT planckian_uv uv "Robertson 1968" kwargs = ([], uv_to_CCT_robertson1968 uv) /\
  CCT_to_uv planckian_uv CCT Duv "Robertson 1968" kwargs
  = ([], CCT_to_uv_robertson1968 CCT Duv).
Proof.
  intros Hcmfs.
  pose proof (robertson_observer_check_accepts kwargs Hcmfs) as Hcheck.
  unfold uv_to_CCT, CCT_to_uv.
  destruct (decide ("Robertson 1968" = "Ohno 2013")) as [Heq | _]; [discriminate |].
  rewrite Hcheck. split; reflexivity.
Qed.

End DispatchRobertson.

Lemma dispatch_robertson_drops_keywords_witness :
  uv_to_CCT line_locus (0.2, 0.3) "Robertson 1968" cascade_keywords
  = ([], uv_to_CCT_robertson1968 (0.2, 0.3)) /\
  CCT_to_uv line_locus 6500 0.01 "Robertson 1968" cascade_keywords
  = ([], CCT_to_uv_robertson1968 6500 0.01).
Proof.
  apply (dispatch_robertson_drops_keywords line_locus (0.2, 0.3) 6500 0.01 cascade_keywords).
  right. exists CIE_1931_2_Degree_Standard_Observer. split; reflexivity.
Defined.
